(** * unravel: tensor maps, alpha surfaces and volume overlays

    A shallow embedding of [TIME/utils.py] (tract_to_ROI, peaks_to_RGB,
    tensor_to_DTI) and [unravel/viz.py] (grayscale_to_rgb,
    overlap_volumes, convert_to_gif, compute_alpha_surface).

    numpy arrays are modelled as a shape together with an indexing
    function; float64 values are Rocq's primitive binary64 floats;
    Python exceptions are an explicit error result; process-wide or heap
    state is threaded explicitly.  All arrays are float64 arrays.  In
    [unravel/viz.py] floating-point operations are those of an error
    state of numpy under which they do not raise (see [quiet]); the
    spline order of scipy's zoom is a natural number. *)

From Stdlib Require Import List ZArith Lia Bool String Floats Reals Sorted
  Permutation.
From stdpp Require Import base list.
Import ListNotations.

Unset Default Proof Using.

(* ------------------------------------------------------------------ *)
(** * Python exceptions and results *)

Inductive pyexn : Type :=
| IndexError
| ValueError
| AxisError
| RuntimeError
| ZeroDivisionError
| LinAlgError
| BadReference     (* model only: an address that is not on the heap *)
| NonTermination.  (* model only: a loop that outlives its fuel *)

Inductive result (A : Type) : Type :=
| Ok (a : A)
| Raise (e : pyexn).
Arguments Ok {A} a.
Arguments Raise {A} e.

Definition rbind {A B} (r : result A) (k : A -> result B) : result B :=
  match r with
  | Ok a => k a
  | Raise e => Raise e
  end.

(** A computation over a state [S] that may raise: the state reached is
    kept also when an exception propagates. *)
Definition M (S A : Type) : Type := S -> S * result A.

Definition ret {S A} (a : A) : M S A := fun s => (s, Ok a).
Definition throw {S A} (e : pyexn) : M S A := fun s => (s, Raise e).
Definition lift {S A} (r : result A) : M S A := fun s => (s, r).
Definition bind {S A B} (c : M S A) (k : A -> M S B) : M S B :=
  fun s => match c s with
           | (s', Ok a) => k a s'
           | (s', Raise e) => (s', Raise e)
           end.
Definition get_state {S} : M S S := fun s => (s, Ok s).

Declare Scope py_scope.
Delimit Scope py_scope with py.
Notation "x <- c ;; k" := (bind c (fun x => k))
  (at level 100, c at next level, right associativity) : py_scope.
Notation "c ;;; k" := (bind c (fun _ => k))
  (at level 100, right associativity) : py_scope.
Notation "x <~ r ;; k" := (rbind r (fun x => k))
  (at level 100, r at next level, right associativity) : py_scope.
Open Scope py_scope.

(* ------------------------------------------------------------------ *)
(** * numpy arrays *)

Module Np.

(** An n-dimensional array: its shape and the value at every index.
    [item] is only meaningful at indices that are within [shape]; the
    operations that numpy bound-checks do so explicitly below. *)
Record ndarray (A : Type) : Type := mk_ndarray {
  shape : list nat;
  item : list nat -> A
}.
Arguments mk_ndarray {A} shape item.
Arguments shape {A} n.
Arguments item {A} n idx.

Definition ndim {A} (a : ndarray A) : nat := length (shape a).

(** np.size(a): the number of entries. *)
Definition size {A} (a : ndarray A) : nat := fold_right Nat.mul 1 (shape a).

Fixpoint in_bounds (s idx : list nat) : bool :=
  match s, idx with
  | [], [] => true
  | n :: s', i :: idx' => (i <? n)%nat && in_bounds s' idx'
  | _, _ => false
  end.

(** np.ndindex(shape): every index of the shape, in C order. *)
Fixpoint ndindex (s : list nat) : list (list nat) :=
  match s with
  | [] => [[]]
  | n :: s' => flat_map (fun i => map (cons i) (ndindex s')) (seq 0 n)
  end.

(** np.zeros, elementwise maps, a[..., np.newaxis], -a. *)
Definition full {A} (s : list nat) (v : A) : ndarray A :=
  mk_ndarray s (fun _ => v).

Definition map1 {A B} (f : A -> B) (a : ndarray A) : ndarray B :=
  mk_ndarray (shape a) (fun idx => f (item a idx)).

Definition map2 {A B C} (f : A -> B -> C) (a : ndarray A) (b : ndarray B)
  : ndarray C :=
  mk_ndarray (shape a) (fun idx => f (item a idx) (item b idx)).

Definition newaxis_last {A} (a : ndarray A) : ndarray A :=
  mk_ndarray (shape a ++ [1]) (fun idx => item a (removelast idx)).

(** Position of axis [j] in the permutation [perm]. *)
Fixpoint index_of (j : nat) (perm : list nat) : nat :=
  match perm with
  | [] => 0
  | p :: perm' => if (p =? j)%nat then 0 else S (index_of j perm')
  end.

Definition is_permutation (perm : list nat) : bool :=
  forallb (fun j => existsb (Nat.eqb j) perm) (seq 0 (length perm))
  && forallb (fun p => (p <? length perm)%nat) perm.

(** np.transpose(a, perm): axis [i] of the result is axis [perm[i]] of
    [a]; ValueError when [perm] is not a permutation of the axes. *)
Definition transpose {A} (a : ndarray A) (perm : list nat)
  : result (ndarray A) :=
  if (length perm =? ndim a)%nat && is_permutation perm then
    Ok (mk_ndarray
          (map (fun p => nth p (shape a) 0) perm)
          (fun idx => item a (map (fun j => nth (index_of j perm) idx 0)
                                  (seq 0 (ndim a)))))
  else Raise ValueError.

(** a[:, :, :, i3, i4]: integer indices on axes 3 and 4, full slices on
    the first three axes (and on any axis after the fifth).  IndexError
    when the array has fewer than five axes or an index is out of
    range. *)
Definition slice3 {A} (a : ndarray A) (i3 i4 : nat) : result (ndarray A) :=
  match shape a with
  | d0 :: d1 :: d2 :: d3 :: d4 :: rest =>
      if (i3 <? d3)%nat && (i4 <? d4)%nat then
        Ok (mk_ndarray (d0 :: d1 :: d2 :: rest)
              (fun idx => item a (firstn 3 idx ++ [i3; i4] ++ skipn 3 idx)))
      else Raise IndexError
  | _ => Raise IndexError
  end.

(** a[..., n] on the last axis of an array whose index is in range. *)
Definition take_last {A} (a : ndarray A) (n : nat) : ndarray A :=
  mk_ndarray (removelast (shape a)) (fun idx => item a (idx ++ [n])).

(** np.array of a 3x3 nested list of equally shaped arrays: the two
    new axes come first. *)
Definition stack33 {A} (rows : list (list (ndarray A)))
  : result (ndarray A) :=
  match rows with
  | [[a00; a01; a02]; [a10; a11; a12]; [a20; a21; a22]] =>
      Ok (mk_ndarray (3 :: 3 :: shape a00)
            (fun idx =>
               match idx with
               | r :: c :: idx' => item (nth c (nth r rows []) a00) idx'
               | _ => item a00 idx
               end))
  | _ => Raise ValueError
  end.

(** The three indices that extend [v] by a channel. *)
Definition with_channels (v : list nat) : list (list nat) :=
  [v ++ [0]; v ++ [1]; v ++ [2]].

End Np.
Export Np.

Fixpoint rmapM {A B} (f : A -> result B) (l : list A) : result (list B) :=
  match l with
  | [] => Ok []
  | x :: l' => y <~ f x ;; ys <~ rmapM f l' ;; Ok (y :: ys)
  end.

(** l[k] on a Python list or tuple, for k >= 0. *)
Definition list_get {A} (l : list A) (k : nat) : result A :=
  match l !! k with
  | Some a => Ok a
  | None => Raise IndexError
  end.

(** A loop whose body may raise. *)
Fixpoint rfold {A B} (f : A -> B -> result A) (l : list B) (a : A)
  : result A :=
  match l with
  | [] => Ok a
  | b :: l' => a' <~ f a b ;; rfold f l' a'
  end.

(** Whether a call returned. *)
Definition returned {A} (r : result A) : bool :=
  match r with
  | Ok _ => true
  | Raise _ => false
  end.

(** Results of code that also raises exceptions [pyexn] does not list;
    those are given by name. *)
Inductive outcome (A : Type) : Type :=
| Returns (a : A)
| Raises (e : pyexn)
| RaisesOther (name : string).
Arguments Returns {A} a.
Arguments Raises {A} e.
Arguments RaisesOther {A} name.

(** An exception, listed in [pyexn] or given by name, and the outcome
    of raising it. *)
Inductive raised : Type :=
| Listed (e : pyexn)
| Named (name : string).

Definition raise_as {A} (r : raised) : outcome A :=
  match r with
  | Listed e => Raises e
  | Named name => RaisesOther name
  end.

(* ------------------------------------------------------------------ *)
(** * TIME/utils.py *)

Module TIME_utils.

(** ** The process-wide floating-point error state of numpy *)

Inductive errmode : Type :=
  Ignore | Warn | RaiseErr | CallFn | PrintMsg | LogMsg.

Record np_errstate : Type := mk_errstate {
  err_divide : errmode;
  err_over : errmode;
  err_under : errmode;
  err_invalid : errmode
}.

(** numpy's default: everything warns except underflow. *)
Definition default_errstate : np_errstate :=
  mk_errstate Warn Warn Ignore Warn.

(** np.seterr(divide=d, invalid=i) *)
Definition seterr (d i : errmode) : M np_errstate unit :=
  fun s => (mk_errstate d (err_over s) (err_under s) i, Ok tt).

(** ** float64 helpers *)

(** The order np.sort uses on floats: NaN sorts last. *)
Definition np_lt (a b : float) : bool :=
  (a <? b)%float || (PrimFloat.is_nan b && negb (PrimFloat.is_nan a)).

Fixpoint insert_sorted (x : float) (l : list float) : list float :=
  match l with
  | [] => [x]
  | y :: l' => if np_lt x y then x :: l else y :: insert_sorted x l'
  end.

(** np.sort of a one-dimensional run: ascending. *)
Definition np_sort (l : list float) : list float :=
  fold_right insert_sorted [] l.

(** np.sort(a, axis=-1) *)
Definition sort_last (a : ndarray float) : ndarray float :=
  mk_ndarray (shape a)
    (fun idx =>
       nth (List.last idx 0)
           (np_sort (map (fun n => item a (removelast idx ++ [n]))
                         (seq 0 (List.last (shape a) 0))))
           nan).

Definition np_neg : ndarray float -> ndarray float := map1 PrimFloat.opp.
Definition np_add : ndarray float -> ndarray float -> ndarray float :=
  map2 PrimFloat.add.
Definition np_sub : ndarray float -> ndarray float -> ndarray float :=
  map2 PrimFloat.sub.
Definition np_div : ndarray float -> ndarray float -> ndarray float :=
  map2 PrimFloat.div.
Definition np_sqrt : ndarray float -> ndarray float := map1 PrimFloat.sqrt.
(** np.power(a, 2): numpy squares by multiplying. *)
Definition np_power2 : ndarray float -> ndarray float :=
  map1 (fun v => (v * v)%float).
(** c * a and a / c for a Python number c. *)
Definition np_scale (c : float) : ndarray float -> ndarray float :=
  map1 (fun v => (c * v)%float).
Definition np_divc (a : ndarray float) (c : float) : ndarray float :=
  map1 (fun v => (v / c)%float) a.

(** m[np.isnan(m)] = 0 *)
Definition nan_to_zero : ndarray float -> ndarray float :=
  map1 (fun v => if PrimFloat.is_nan v then 0%float else v).

Section Decomposition.

(** The eigenvalue routine behind np.linalg.eig for one 3x3 matrix
    (rows of floats): its three eigenvalues, or [None] when the
    iteration does not converge.  The eigenvalues are real here: this
    is np.linalg.eig on a stack on which it finds no imaginary part and
    returns a float64 array.  The other case is embedded further
    down. *)
Variable eig3 : list (list float) -> option (float * float * float).

(** The 3x3 matrix stored at voxel [v] of an array of shape (...,3,3). *)
Definition matrix_at (mt : ndarray float) (v : list nat) : list (list float) :=
  map (fun r => map (fun c => item mt (v ++ [r; c])) (seq 0 3)) (seq 0 3).

Definition eig_component (n : nat) (e : option (float * float * float))
  : float :=
  match e with
  | Some (a, b, c) => nth n [a; b; c] nan
  | None => nan
  end.

(** val, _ = np.linalg.eig(mt) on a stack of 3x3 matrices: LinAlgError
    when an entry is inf or NaN, or when the routine fails on some
    matrix; otherwise the eigenvalues, on a new last axis of length 3. *)
Definition linalg_eigvals (mt : ndarray float) : result (ndarray float) :=
  let vs := firstn (ndim mt - 2) (shape mt) in
  if negb (forallb (fun idx => PrimFloat.is_finite (item mt idx))
                   (ndindex (shape mt)))
  then Raise LinAlgError
  else if forallb (fun v => bool_decide (is_Some (eig3 (matrix_at mt v))))
                  (ndindex vs)
  then Ok (mk_ndarray (vs ++ [3])
             (fun idx => eig_component (List.last idx 0)
                           (eig3 (matrix_at mt (removelast idx)))))
  else Raise LinAlgError.

(** The slices t[:, :, :, 0, k] laid out as the rows of a 3x3 table. *)
Definition component_rows (t : ndarray float) (table : list (list nat))
  : result (list (list (ndarray float))) :=
  rmapM (rmapM (fun k => slice3 t 0 k)) table.

(** Lines 124-138: the array [mt] handed to the eigen solver. *)
Definition tensor_matrix (t : ndarray float) : result (ndarray float) :=
  mt <~ (if (ndim t =? 4)%nat then
           t' <~ transpose (newaxis_last t) [1; 2; 3; 4; 0] ;;
           rows <~ component_rows t' [[0; 1; 2]; [1; 3; 4]; [2; 4; 5]] ;;
           stack33 rows
         else
           rows <~ component_rows t [[0; 1; 3]; [1; 2; 4]; [3; 4; 5]] ;;
           stack33 rows) ;;
  transpose mt [2; 3; 4; 0; 1].

(** Lines 139-142: the eigenvalues, sorted so that the first is the
    largest. *)
Definition sorted_eigenvalues (t : ndarray float) : result (ndarray float) :=
  mt <~ tensor_matrix t ;;
  val <~ linalg_eigvals mt ;;
  Ok (np_neg (sort_last (np_neg val))).

Definition maps : Type :=
  ndarray float * ndarray float * ndarray float * ndarray float.

(** Lines 144-163: FA, AD, RD and MD from the sorted eigenvalues. *)
Definition scalar_maps (val : ndarray float) : maps :=
  let l0 := take_last val 0 in
  let l1 := take_last val 1 in
  let l2 := take_last val 2 in
  let FA := np_sqrt
              (np_div
                 (np_add (np_add (np_power2 (np_sub l0 l1))
                                 (np_power2 (np_sub l1 l2)))
                         (np_power2 (np_sub l2 l0)))
                 (np_scale 2 (np_add (np_add (np_power2 l0) (np_power2 l1))
                                     (np_power2 l2)))) in
  let MD := np_divc (np_add (np_add l0 l1) l2) 3 in
  let AD := l0 in
  let RD := np_divc (np_add l1 l2) 2 in
  (nan_to_zero FA, nan_to_zero AD, nan_to_zero RD, nan_to_zero MD).

(** tensor_to_DTI(t): returns (FA, AD, RD, MD). *)
Definition tensor_to_DTI (t : ndarray float) : M np_errstate maps :=
  seterr Ignore Ignore ;;;
  val <- lift (sorted_eigenvalues t) ;;
  let out := scalar_maps val in
  seterr Warn Warn ;;;
  ret out.

End Decomposition.

(** ** tensor_to_DTI when the eigenvalues come out complex

    np.linalg.eig runs LAPACK's routine for general matrices, which
    gives every eigenvalue a real and an imaginary part; rounding can
    leave an imaginary part that is not zero also for a symmetric
    matrix.  numpy then returns a complex128 array and lines 142-163
    run in complex arithmetic.  [tensor_to_DTI] above is the function
    for stacks on which every imaginary part is zero;
    [tensor_to_DTI_complex] is the function for both cases. *)

(** A complex128 value: its real and its imaginary part. *)
Definition complex : Type := (float * float)%type.

(** -z, a + b and a - b are taken part by part. *)
Definition c_neg (z : complex) : complex := (- fst z, - snd z)%float.
Definition c_add (a b : complex) : complex :=
  (fst a + fst b, snd a + snd b)%float.
Definition c_sub (a b : complex) : complex :=
  (fst a - fst b, snd a - snd b)%float.

(** np.isnan(z) *)
Definition c_is_nan (z : complex) : bool :=
  PrimFloat.is_nan (fst z) || PrimFloat.is_nan (snd z).

(** The order np.sort uses on complex128: by real part, then by
    imaginary part; values with a NaN part sort last, in the order
    R+Rj, R+nanj, nan+Rj, nan+nanj. *)
Definition np_clt (a b : complex) : bool :=
  let '(ar, ai) := a in
  let '(br, bi) := b in
  if (ar <? br)%float then negb (PrimFloat.is_nan ai) || PrimFloat.is_nan bi
  else if (br <? ar)%float
  then PrimFloat.is_nan bi && negb (PrimFloat.is_nan ai)
  else if (ar =? br)%float || (PrimFloat.is_nan ar && PrimFloat.is_nan br)
  then (ai <? bi)%float || (PrimFloat.is_nan bi && negb (PrimFloat.is_nan ai))
  else PrimFloat.is_nan br.

(** The insertion sort numpy runs on a short run: each entry in turn
    moves left past the entries it is less than.  [before] holds the
    entries already placed, the last one first. *)
Fixpoint c_insert (vp : complex) (before : list complex) : list complex :=
  match before with
  | [] => [vp]
  | pk :: before' =>
      if np_clt vp pk then pk :: c_insert vp before' else vp :: before
  end.

Definition np_csort (l : list complex) : list complex :=
  List.rev (fold_left (fun before vp => c_insert vp before) l []).

(** np.sort(a, axis=-1) on a complex array *)
Definition c_sort_last (a : ndarray complex) : ndarray complex :=
  mk_ndarray (shape a)
    (fun idx =>
       nth (List.last idx 0)
           (np_csort (map (fun n => item a (removelast idx ++ [n]))
                          (seq 0 (List.last (shape a) 0))))
           (nan, nan)).

(** m[np.isnan(m)] = 0 followed by m.real *)
Definition c_real_nan_to_zero (z : complex) : float :=
  if c_is_nan z then 0%float else fst z.

(** What np.linalg.eig returns: a float64 array when every imaginary
    part is zero, a complex128 array otherwise. *)
Inductive eigenvalues : Type :=
| RealValues (val : ndarray float)
| ComplexValues (val : ndarray complex).

Section ComplexEigenvalues.

(** LAPACK's routine for one real 3x3 matrix: its three eigenvalues,
    each with a real and an imaginary part, or [None] when the
    iteration does not converge. *)
Variable geev3 : list (list float) -> option (complex * complex * complex).

(** numpy's complex128 loops for np.power, *, / and np.sqrt. *)
Variables c_power c_mul c_div : complex -> complex -> complex.
Variable c_sqrt : complex -> complex.

Definition real_parts (m : list (list float)) : option (float * float * float) :=
  match geev3 m with
  | Some (a, b, c) => Some (fst a, fst b, fst c)
  | None => None
  end.

Definition imag_parts (m : list (list float)) : option (float * float * float) :=
  match geev3 m with
  | Some (a, b, c) => Some (snd a, snd b, snd c)
  | None => None
  end.

(** val, _ = np.linalg.eig(mt): LinAlgError as in [linalg_eigvals];
    otherwise the real parts alone when all(w.imag == 0.0), and the
    complex values if not. *)
Definition linalg_eig (mt : ndarray float) : result eigenvalues :=
  wr <~ linalg_eigvals real_parts mt ;;
  wi <~ linalg_eigvals imag_parts mt ;;
  if forallb (fun idx => (item wi idx =? 0)%float) (ndindex (shape wi))
  then Ok (RealValues wr)
  else Ok (ComplexValues (map2 pair wr wi)).

(** Lines 144-163 on a complex array. *)
Definition scalar_maps_complex (val : ndarray complex) : maps :=
  let l0 := take_last val 0 in
  let l1 := take_last val 1 in
  let l2 := take_last val 2 in
  let two : complex := (2, 0)%float in
  let power2 := map1 (fun z => c_power z two) in
  let FA := map1 c_sqrt
              (map2 c_div
                 (map2 c_add (map2 c_add (power2 (map2 c_sub l0 l1))
                                         (power2 (map2 c_sub l1 l2)))
                             (power2 (map2 c_sub l2 l0)))
                 (map1 (c_mul two)
                       (map2 c_add (map2 c_add (power2 l0) (power2 l1))
                                   (power2 l2)))) in
  let MD := map1 (fun z => c_div z (3, 0)%float)
                 (map2 c_add (map2 c_add l0 l1) l2) in
  let AD := l0 in
  let RD := map1 (fun z => c_div z two) (map2 c_add l1 l2) in
  (map1 c_real_nan_to_zero FA, map1 c_real_nan_to_zero AD,
   map1 c_real_nan_to_zero RD, map1 c_real_nan_to_zero MD).

(** tensor_to_DTI(t) for either dtype of the eigenvalues. *)
Definition tensor_to_DTI_complex (t : ndarray float) : M np_errstate maps :=
  seterr Ignore Ignore ;;;
  w <- lift (mt <~ tensor_matrix t ;; linalg_eig mt) ;;
  let out := match w with
             | RealValues val =>
                 scalar_maps (np_neg (sort_last (np_neg val)))
             | ComplexValues val =>
                 scalar_maps_complex
                   (map1 c_neg (c_sort_last (map1 c_neg val)))
             end in
  seterr Warn Warn ;;;
  ret out.

End ComplexEigenvalues.

(** The shapes on which every index of lines 124-138 is in range: four
    axes with at least six entries on the first, or five axes with an
    entry on the fourth and at least six on the last. *)
Definition accepted_shape (s : list nat) : Prop :=
  match s with
  | [c; _; _; _] => 6 <= c
  | [_; _; _; a; b] => 1 <= a /\ 6 <= b
  | _ => False
  end.

(** The voxel grid of an accepted field: the last three axes when it
    has four, the first three when it has five. *)
Definition voxel_grid (s : list nat) : list nat :=
  match s with
  | [_; x; y; z] => [x; y; z]
  | _ => firstn 3 s
  end.

Definition zero3 : list (list float) :=
  [[0; 0; 0]; [0; 0; 0]; [0; 0; 0]]%float.

(** The eigenvalues the solver returns at voxel [v] of the stack [mt]. *)
Definition voxel_eigs eig3 (mt : ndarray float) (v : list nat) : list float :=
  map (fun n => eig_component n (eig3 (matrix_at mt v))) (seq 0 3).

(** The order np.sort leaves between neighbours. *)
Definition np_le (a b : float) : Prop := np_lt b a = false.

(** A solver that is exact on diagonal matrices and gives up on all
    others; used to evaluate the functions on concrete fields. *)
Definition diag_eig (m : list (list float)) : option (float * float * float) :=
  match m with
  | [[a; b; c]; [d; e; f]; [g; h; i]] =>
      if forallb (fun v => (v =? 0)%float) [b; c; d; f; g; h]
      then Some (a, e, i) else None
  | _ => None
  end.

(** A solver that gives a diagonal matrix its diagonal with the
    imaginary parts 0, 1/2 and -1/2, and schoolbook complex product,
    quotient, second power and principal square root, to evaluate the
    complex case on. *)
Definition tilted_eig (m : list (list float))
  : option (complex * complex * complex) :=
  match diag_eig m with
  | Some (a, e, i) => Some ((a, 0), (e, 0.5), (i, -0.5))%float
  | None => None
  end.

Definition school_mul (a b : complex) : complex :=
  (fst a * fst b - snd a * snd b, fst a * snd b + snd a * fst b)%float.

Definition school_div (a b : complex) : complex :=
  let d := (fst b * fst b + snd b * snd b)%float in
  ((fst a * fst b + snd a * snd b) / d,
   (snd a * fst b - fst a * snd b) / d)%float.

Definition school_power2 (z w : complex) : complex := school_mul z z.

Definition school_sqrt (z : complex) : complex :=
  let r := PrimFloat.sqrt (fst z * fst z + snd z * snd z)%float in
  let im := PrimFloat.sqrt ((r - fst z) / 2)%float in
  (PrimFloat.sqrt ((r + fst z) / 2)%float,
   if (snd z <? 0)%float then (- im)%float else im).

(** ** Fields to evaluate the functions on *)

(** A one-voxel field of shape (1,1,1,1,6) holding the components of
    diag(1,3,2) in the rank-5 order. *)
Definition diag_field : ndarray float :=
  mk_ndarray [1; 1; 1; 1; 6]
    (fun idx => nth (List.last idx 0) [1; 0; 3; 0; 0; 2]%float 0%float).

(** A rank-4 field of shape (6,1,2,6) in which the entries whose first
    index is 1, 2 or 4 are zero and all others are one. *)
Definition field_6126 : ndarray float :=
  mk_ndarray [6; 1; 2; 6]
    (fun idx => if existsb (Nat.eqb (hd 0 idx)) [1; 2; 4]
                then 0%float else 1%float).

(** A field of shape (6,1,1,1) holding the components of diag(1,3,2). *)
Definition field_6111 : ndarray float :=
  mk_ndarray [6; 1; 1; 1]
    (fun idx => nth (hd 0 idx) [1; 0; 0; 3; 0; 2]%float 0%float).

(** A field of the documented shape (x,y,z,1,6) whose entries are NaN. *)
Definition nan_field : ndarray float := full [1; 1; 1; 1; 6] nan.

(** The index of component [n] of the tensor at voxel [v]: on the first
    axis of a field with four axes, on the last axis (at entry 0 of the
    fourth) of any other. *)
Definition component_index (s v : list nat) (n : nat) : list nat :=
  match s with
  | [_; _; _; _] => n :: v
  | _ => v ++ [0; n]
  end.

(** A one-voxel field of shape (1,1,1,2,7): at entry 0 of the fourth
    axis the six components of diag(1,3,2), and [pad] everywhere else. *)
Definition wide_field (pad : float) : ndarray float :=
  mk_ndarray [1; 1; 1; 2; 7]
    (fun idx => if (nth 3 idx 0 =? 0)%nat && (nth 4 idx 0 <? 6)%nat
                then nth (nth 4 idx 0) [1; 0; 3; 0; 0; 2]%float 0%float
                else pad).

(** ** tract_to_ROI *)

(** int(f) on a float: the integer part, toward zero; ValueError on NaN
    and OverflowError on an infinity. *)
Definition py_int (f : float) : outcome Z :=
  match Prim2SF f with
  | S754_nan => Raises ValueError
  | S754_infinity _ => RaisesOther "OverflowError"
  | S754_zero _ => Returns 0%Z
  | S754_finite s m e => Returns (cond_Zopp s (Z.shiftl (Zpos m) e))
  end.

(** Whether a Python int fits the 64-bit signed integer (npy_intp) that
    numpy converts an index to. *)
Definition fits_intp (i : Z) : bool :=
  (-9223372036854775808 <=? i)%Z && (i <? 9223372036854775808)%Z.

(** a[i] along an axis of length [n], for an index [i] that numpy could
    convert: a negative index counts from the end. *)
Definition np_index (n : nat) (i : Z) : result nat :=
  if (0 <=? i)%Z && (i <? Z.of_nat n)%Z then Ok (Z.to_nat i)
  else if (- Z.of_nat n <=? i)%Z && (i <? 0)%Z
       then Ok (Z.to_nat (Z.of_nat n + i))
       else Raise IndexError.

(** A row of the streamline data: the coordinates of one node. *)
Definition node : Type := float * float * float.

(** (int(b[i, 0]), int(b[i, 1]), int(b[i, 2])) *)
Definition node_ints (p : node) : outcome (Z * Z * Z) :=
  let '(b0, b1, b2) := p in
  match py_int b0 with
  | Returns i =>
      match py_int b1 with
      | Returns j =>
          match py_int b2 with
          | Returns k => Returns (i, j, k)
          | Raises e => Raises e
          | RaisesOther name => RaisesOther name
          end
      | Raises e => Raises e
      | RaisesOther name => RaisesOther name
      end
  | Raises e => Raises e
  | RaisesOther name => RaisesOther name
  end.

Section Tract.

(** The exception numpy raises for an index that does not fit its
    64-bit index type (OverflowError for 2^63).  It is raised while the
    indices are converted, before the number of indices or any bound is
    checked. *)
Variable intp_error : Z -> raised.

(** The voxel a tuple of three ints selects in an array of shape
    [dims]: the conversion error of the first index that does not fit;
    else IndexError when there are fewer than three axes or an index is
    out of range. *)
Definition voxel_index (dims : list nat) (ijk : Z * Z * Z)
  : outcome (list nat) :=
  let '(i, j, k) := ijk in
  match List.find (fun c => negb (fits_intp c)) [i; j; k] with
  | Some c => raise_as (intp_error c)
  | None =>
      match dims with
      | d0 :: d1 :: d2 :: _ =>
          match (i' <~ np_index d0 i ;;
                 j' <~ np_index d1 j ;;
                 k' <~ np_index d2 k ;;
                 Ok [i'; j'; k']) with
          | Ok v => Returns v
          | Raise e => Raises e
          end
      | _ => Raises IndexError
      end
  end.

(** ROI[(i, j, k)] = 1 *)
Definition set_voxel (ROI : ndarray float) (ijk : Z * Z * Z)
  : outcome (ndarray float) :=
  match voxel_index (shape ROI) ijk with
  | Returns v =>
      Returns (mk_ndarray (shape ROI)
                 (fun idx => if bool_decide (firstn 3 idx = v) then 1%float
                             else item ROI idx))
  | Raises e => Raises e
  | RaisesOther name => RaisesOther name
  end.

(** Lines 37-39: the loop over the nodes. *)
Fixpoint mark_nodes (ROI : ndarray float) (b : list node)
  : outcome (ndarray float) :=
  match b with
  | [] => Returns ROI
  | p :: b' =>
      match node_ints p with
      | Returns ijk =>
          match set_voxel ROI ijk with
          | Returns ROI' => mark_nodes ROI' b'
          | Raises e => Raises e
          | RaisesOther name => RaisesOther name
          end
      | Raises e => Raises e
      | RaisesOther name => RaisesOther name
      end
  end.

(** tract_to_ROI, from what load_tractogram, to_vox and to_corner give:
    the grid dimensions and the node coordinates of the tractogram. *)
Definition tract_to_ROI (dimensions : list nat) (b : list node)
  : outcome (ndarray float) :=
  mark_nodes (full dimensions 0%float) b.

(** The voxel a node falls in, when it falls in one. *)
Definition node_voxel (dims : list nat) (p : node) : option (list nat) :=
  match node_ints p with
  | Returns ijk =>
      match voxel_index dims ijk with
      | Returns v => Some v
      | _ => None
      end
  | _ => None
  end.

(** What stops the loop at a node that falls in no voxel: the exception
    of int() for a coordinate that is NaN or infinite, else that of the
    conversion of an index that does not fit, else IndexError. *)
Definition node_failure (p : node) : outcome (ndarray float) :=
  match node_ints p with
  | Returns (i, j, k) =>
      match List.find (fun c => negb (fits_intp c)) [i; j; k] with
      | Some c => raise_as (intp_error c)
      | None => Raises IndexError
      end
  | Raises e => Raises e
  | RaisesOther name => RaisesOther name
  end.

End Tract.

(** The conversion error numpy gives for the index 2^63, taken for
    every index that does not fit, to evaluate tract_to_ROI on. *)
Definition overflow_error (i : Z) : raised := Named "OverflowError".

(** Three nodes of a grid of shape (2,2,2), one beyond it, and one
    whose first coordinate is 2^63. *)
Definition nodes_222 : list node :=
  [(0.5, 1.5, 0.25); (1.75, 0.25, 1.5); (0.75, 1.25, 0.5)]%float.

Definition stray_node : node := (0.5, 2.5, 0.25)%float.

Definition far_node : node := (9223372036854775808, 0.5, 0.25)%float.

(** ** peaks_to_RGB *)

(** The first argument: a Python list of arrays, or one array. *)
Inductive peaks_arg : Type :=
| PeaksList (l : list (ndarray float))
| PeaksArray (a : ndarray float).

(** Lines 69-76, the safety net: an array with five axes is split along
    the last one, any other array is wrapped in a list. *)
Definition as_peaks_list (peaks : peaks_arg) : list (ndarray float) :=
  match peaks with
  | PeaksList l => l
  | PeaksArray a =>
      if (ndim a =? 5)%nat
      then map (take_last a) (seq 0 (List.last (shape a) 0))
      else [a]
  end.

(** Lines 80-88: without a list, as many arrays of ones as there are
    peaks, on the grid of the first. *)
Definition default_ones (peaksList : list (ndarray float))
    (given : option (list (ndarray float))) : list (ndarray float) :=
  match given with
  | Some l => l
  | None =>
      match peaksList with
      | [] => []
      | p0 :: _ =>
          repeat (full (firstn 3 (shape p0)) 1%float) (length peaksList)
      end
  end.

(** The channel of a peak with [c] channels that index [idx] of the map
    reads: a single channel is broadcast. *)
Definition channel_of (c : nat) (idx : list nat) : nat :=
  if (c =? 1)%nat then 0 else List.last idx 0.

(** Line 94 for the voxel [xyz] and the population [k], on peaks with
    four axes and fractions with three:
    rgb[xyz] += abs(peaksList[k][xyz])*fracList[k][xyz]*fvfList[k][xyz].
    IndexError when a list is too short or the voxel is outside an
    array, ValueError when the channels of the peak do not broadcast to
    those of rgb. *)
Definition add_peak (peaksList fracList fvfList : list (ndarray float))
    (xyz : list nat) (rgb : ndarray float) (k : nat)
  : result (ndarray float) :=
  P <~ list_get peaksList k ;;
  if negb (in_bounds (firstn 3 (shape P)) xyz) then Raise IndexError else
  F <~ list_get fracList k ;;
  if negb (in_bounds (shape F) xyz) then Raise IndexError else
  G <~ list_get fvfList k ;;
  if negb (in_bounds (shape G) xyz) then Raise IndexError else
  let c := List.last (shape P) 0 in
  if negb ((c =? List.last (shape rgb) 0)%nat || (c =? 1)%nat)
  then Raise ValueError else
  Ok (mk_ndarray (shape rgb)
        (fun idx =>
           if bool_decide (firstn 3 idx = xyz)
           then (item rgb idx
                 + PrimFloat.abs (item P (xyz ++ [channel_of c idx]))
                   * item F xyz * item G xyz)%float
           else item rgb idx)).

(** The arrays that line 94 indexes have the documented ranks. *)
Definition documented_ranks (peaksList fracList fvfList : list (ndarray float))
  : bool :=
  forallb (fun P => (ndim P =? 4)%nat) peaksList
  && forallb (fun F => (ndim F =? 3)%nat) (firstn (length peaksList) fracList)
  && forallb (fun G => (ndim G =? 3)%nat) (firstn (length peaksList) fvfList).

(** peaks_to_RGB(peaksList, fracList, fvfList).  [None] stands for
    arrays of other ranks than the documented ones: there numpy's
    broadcasting rules decide, which are not modelled. *)
Definition peaks_to_RGB (peaks : peaks_arg)
    (fracList fvfList : option (list (ndarray float)))
  : option (result (ndarray float)) :=
  let peaksList := as_peaks_list peaks in
  let K := length peaksList in
  let fracList := default_ones peaksList fracList in
  let fvfList := default_ones peaksList fvfList in
  if documented_ranks peaksList fracList fvfList then
    Some (p0 <~ list_get peaksList 0 ;;
          rfold (fun rgb xyz =>
                   rfold (add_peak peaksList fracList fvfList xyz)
                         (seq 0 K) rgb)
                (ndindex (firstn 3 (shape p0)))
                (full (shape p0) 0%float))
  else None.

(** What population [k] adds at the index [idx] of the map. *)
Definition peak_term (peaksList fracList fvfList : list (ndarray float))
    (idx : list nat) (k : nat) : float :=
  (PrimFloat.abs (item (nth k peaksList (full [] 0%float)) idx)
   * item (nth k fracList (full [] 0%float)) (firstn 3 idx)
   * item (nth k fvfList (full [] 0%float)) (firstn 3 idx))%float.

(** Two arrays of one shape with the same entries. *)
Definition same_array (a b : ndarray float) : Prop :=
  shape a = shape b /\ forall idx, item a idx = item b idx.

(** Two results that raise alike or return the same array. *)
Definition same_result (r r' : result (ndarray float)) : Prop :=
  match r, r' with
  | Ok a, Ok a' => same_array a a'
  | Raise e, Raise e' => e = e'
  | _, _ => False
  end.

(** The peak [P'] has the shape of [P] and entries of the same
    magnitude. *)
Definition same_magnitude (P P' : ndarray float) : Prop :=
  shape P' = shape P /\
  forall idx, PrimFloat.abs (item P' idx) = PrimFloat.abs (item P idx).

(** Two peaks on a grid of shape (1,1,2), and a fraction map. *)
Definition peak_A : ndarray float :=
  mk_ndarray [1; 1; 2; 3]
    (fun idx => nth (List.last idx 0) [1; -2; 3]%float 0%float).
Definition peak_B : ndarray float := full [1; 1; 2; 3] (-0.5)%float.
Definition frac_half : ndarray float := full [1; 1; 2] 0.5%float.

End TIME_utils.

(* ------------------------------------------------------------------ *)
(** * unravel/viz.py *)

Module Viz.

(** ** grayscale_to_rgb *)

(** np.repeat(a, 3, axis=3): AxisError on fewer than four axes. *)
Definition repeat3_axis3 {A} (a : ndarray A) : result (ndarray A) :=
  match shape a with
  | d0 :: d1 :: d2 :: d3 :: rest =>
      Ok (mk_ndarray (d0 :: d1 :: d2 :: 3 * d3 :: rest)
            (fun idx => item a (firstn 3 idx ++ (nth 3 idx 0 / 3) :: skipn 4 idx)))
  | _ => Raise AxisError
  end.

Definition grayscale_to_rgb {A} (array : ndarray A) : result (ndarray A) :=
  repeat3_axis3 (newaxis_last array).

(** ** The heap of arrays and the caller's list object *)

(** Arrays live on a heap and are named by their address; [vol_list] is
    the list object the caller passed, holding addresses. *)
Record pystate : Type := mk_pystate {
  arrays : list (ndarray float);
  vol_list : list nat
}.

Definition read (a : nat) : M pystate (ndarray float) :=
  fun st => match arrays st !! a with
            | Some v => (st, Ok v)
            | None => (st, Raise BadReference)
            end.

Definition alloc (v : ndarray float) : M pystate nat :=
  fun st => (mk_pystate (arrays st ++ [v]) (vol_list st),
             Ok (length (arrays st))).

(** An in-place update of the array at address [a]. *)
Definition write (a : nat) (v : ndarray float) : M pystate unit :=
  fun st => (mk_pystate (<[a := v]> (arrays st)) (vol_list st), Ok tt).

(** len(vol_list) and vol_list.pop() *)
Definition list_len : M pystate nat :=
  fun st => (st, Ok (length (vol_list st))).

Definition list_pop : M pystate nat :=
  fun st => match List.rev (vol_list st) with
            | [] => (st, Raise IndexError)
            | a :: _ =>
                (mk_pystate (arrays st) (removelast (vol_list st)), Ok a)
            end.

(** ** numpy and scipy operations used by overlap_volumes *)

(** x, y, z = vol.shape[:3] *)
Definition unpack3 (s : list nat) : result (nat * nat * nat) :=
  match firstn 3 s with
  | [x; y; z] => Ok (x, y, z)
  | _ => Raise ValueError
  end.

(** shape[-1] *)
Definition last_dim (s : list nat) : result nat :=
  match List.rev s with
  | [] => Raise IndexError
  | d :: _ => Ok d
  end.

(** i / j on Python ints; the quotient is kept as an exact fraction. *)
Definition py_truediv (ij : nat * nat) : result (nat * nat) :=
  if (snd ij =? 0)%nat then Raise ZeroDivisionError else Ok ij.

(** int(round(d * f)) for the fraction f = i/j: round half to even. *)
Definition zoomed_dim (d : nat) (f : nat * nat) : nat :=
  let '(i, j) := f in
  let q := (d * i / j)%nat in
  let r := (d * i mod j)%nat in
  if (2 * r <? j)%nat then q
  else if (j <? 2 * r)%nat then S q
  else if Nat.even q then q else S q.

(** np.maximum and np.max (NaN propagates). *)
Definition np_maximum (a b : float) : float :=
  if PrimFloat.is_nan a || (b <=? a)%float then a else b.

Definition np_max (a : ndarray float) : result float :=
  match map (item a) (ndindex (shape a)) with
  | [] => Raise ValueError
  | v :: vs => Ok (fold_left np_maximum vs v)
  end.

(** np.sum(layer, axis=3) *)
Definition sum_axis3 (layer : ndarray float) : result (ndarray float) :=
  match shape layer with
  | d0 :: d1 :: d2 :: c :: rest =>
      Ok (mk_ndarray (d0 :: d1 :: d2 :: rest)
            (fun idx =>
               match map (fun ch => item layer (firstn 3 idx ++ ch :: skipn 3 idx))
                         (seq 0 c) with
               | [] => 0%float
               | v :: vs => fold_left PrimFloat.add vs v
               end))
  | _ => Raise AxisError
  end.

(** a != 0, elementwise *)
Definition ne_zero (v : float) : bool := negb (v =? 0)%float.

(** back[mask] = layer[mask] with mask = (np.sum(layer, axis=3) != 0):
    IndexError when the mask does not fit the leading axes of [back],
    ValueError when the selected rows do not fit its channels. *)
Definition assign_where_nonzero (back layer : ndarray float)
  : result (ndarray float) :=
  s <~ sum_axis3 layer ;;
  let mask := map1 ne_zero s in
  if negb (bool_decide (shape mask = firstn 3 (shape back))) then
    Raise IndexError
  else if negb (bool_decide (skipn 3 (shape layer) = skipn 3 (shape back))) then
    Raise ValueError
  else
    Ok (mk_ndarray (shape back)
          (fun idx => if item mask (firstn 3 idx)
                      then item layer idx else item back idx)).

(** layer /= m *)
Definition divide_by (m : float) : ndarray float -> ndarray float :=
  map1 (fun v => (v / m)%float).

(** The running per-axis maximum of lines 63-69. *)
Definition update_max (max_size : list nat) (ai : nat * nat) : list nat :=
  let '(axis, i) := ai in
  if (nth axis max_size 0 <? i)%nat then <[axis := i]> max_size else max_size.

Definition enumerate {A} (l : list A) : list (nat * A) :=
  combine (seq 0 (length l)) l.

Section Overlap.

(** The interpolation of scipy.ndimage.zoom: the value at each index of
    the output, from the input, the zoom factors and the spline order. *)
Variable resample :
  ndarray float -> list (nat * nat) -> nat -> list nat -> float.

(** zoom(input, factors, order=order), for a spline order that is not
    negative: RuntimeError when the order is above 5 (the check comes
    first) and unless there is one factor per axis; the output has
    [round(d * f)] entries on each axis. *)
Definition zoom (input : ndarray float) (factors : list (nat * nat))
    (order : nat) : result (ndarray float) :=
  if (5 <? order)%nat then Raise RuntimeError
  else if (length factors =? ndim input)%nat then
    Ok (mk_ndarray (zip_with zoomed_dim (shape input) factors)
          (resample input factors order))
  else Raise RuntimeError.

(** Lines 63-69. *)
Fixpoint scan_sizes (vols : list nat) (max_size : list nat)
  : M pystate (list nat) :=
  match vols with
  | [] => ret max_size
  | vol :: vols' =>
      V <- read vol ;;
      xyz <- lift (unpack3 (shape V)) ;;
      let '(x, y, z) := xyz in
      scan_sizes vols' (fold_left update_max (enumerate [x; y; z]) max_size)
  end.

(** Lines 79-87: resample the three-channel [layer], normalize it in
    place and paste it onto [back]. *)
Definition paste_layer (max_size : list nat) (order : nat) (back : nat)
    (layer : nat) : M pystate unit :=
  L <- read layer ;;
  let size := firstn 3 (shape L) in
  factors <- lift (rmapM py_truediv (combine max_size size)) ;;
  Z <- lift (zoom L (factors ++ [(1, 1)]) order) ;;
  layer <- alloc Z ;;
  (* Normalize *)
  L <- read layer ;;
  m <- lift (np_max L) ;;
  write layer (divide_by m L) ;;;
  L <- read layer ;;
  B <- read back ;;
  B' <- lift (assign_where_nonzero B L) ;;
  write back B'.

(** Lines 76-87: the body of the while loop, for the popped [layer]. *)
Definition process_layer (max_size : list nat) (order : nat) (back : nat)
    (layer : nat) : M pystate unit :=
  L <- read layer ;;
  d <- lift (last_dim (shape L)) ;;
  layer <- (if negb (d =? 3)%nat
            then (G <- lift (grayscale_to_rgb L) ;; alloc G)
            else ret layer) ;;
  paste_layer max_size order back layer.

(** Lines 73-87: the while loop; [fuel] bounds its iterations. *)
Fixpoint compose_layers (fuel : nat) (max_size : list nat) (order : nat)
    (back : nat) : M pystate unit :=
  n <- list_len ;;
  if (0 <? n)%nat then
    match fuel with
    | 0 => throw NonTermination
    | S fuel' =>
        layer <- list_pop ;;
        process_layer max_size order back layer ;;;
        compose_layers fuel' max_size order back
    end
  else ret tt.

(** overlap_volumes(vol_list, rgb, order): the returned array. *)
Definition overlap_volumes (rgb : bool) (order : nat)
  : M pystate (ndarray float) :=
  st <- get_state ;;
  max_size <- scan_sizes (vol_list st) [0; 0; 0] ;;
  back <- alloc (full (max_size ++ [3]) 0%float) ;;
  compose_layers (length (vol_list st)) max_size order back ;;;
  B <- read back ;;
  if rgb then ret B else ret (take_last B 0).



(** *** The same computation on values *)

(** Lines 63-69 on the shapes alone. *)
Fixpoint scan_shapes (shapes : list (list nat)) (max_size : list nat)
  : result (list nat) :=
  match shapes with
  | [] => Ok max_size
  | s :: shapes' =>
      xyz <~ unpack3 s ;;
      let '(x, y, z) := xyz in
      scan_shapes shapes' (fold_left update_max (enumerate [x; y; z]) max_size)
  end.

(** What lines 79-85 make of a three-channel layer: resampled to
    [max_size], then divided by its maximum. *)
Definition prepare_rgb (max_size : list nat) (order : nat)
    (L : ndarray float) : result (ndarray float) :=
  factors <~ rmapM py_truediv (combine max_size (firstn 3 (shape L))) ;;
  Z <~ zoom L (factors ++ [(1, 1)]) order ;;
  m <~ np_max Z ;;
  Ok (divide_by m Z).


(** What the loop body makes of the volume [V] before it is pasted. *)
Definition prepare_layer (max_size : list nat) (order : nat)
    (V : ndarray float) : result (ndarray float) :=
  d <~ last_dim (shape V) ;;
  L <~ (if negb (d =? 3)%nat then grayscale_to_rgb V else Ok V) ;;
  prepare_rgb max_size order L.

(** Pasting the volumes of [vols], in that order, onto [back]. *)
Fixpoint composite (max_size : list nat) (order : nat)
    (vols : list (ndarray float)) (back : ndarray float)
  : result (ndarray float) :=
  match vols with
  | [] => Ok back
  | V :: vols' =>
      L <~ prepare_layer max_size order V ;;
      B <~ assign_where_nonzero back L ;;
      composite max_size order vols' B
  end.

(** overlap_volumes on values: the sizes, then the volumes pasted from
    the last of the list to the first onto a zero background. *)
Definition overlay (rgb : bool) (order : nat) (vols : list (ndarray float))
  : result (ndarray float) :=
  max_size <~ scan_shapes (map shape vols) [0; 0; 0] ;;
  B <~ composite max_size order (List.rev vols)
         (full (max_size ++ [3]) 0%float) ;;
  Ok (if rgb then B else take_last B 0).

End Overlap.

(** A voxel of a prepared layer is opaque when its channels do not sum
    to zero. *)
Definition opaque (L : ndarray float) (v : list nat) : bool :=
  match sum_axis3 L with
  | Ok s => ne_zero (item s v)
  | Raise _ => false
  end.

(** The value an index takes from a stack of prepared layers, the
    first of the list on top: that of the first layer that is opaque
    there, and [below] if none is. *)
Definition topmost (Ps : list (ndarray float)) (below : float)
    (idx : list nat) : float :=
  match List.find (fun P => opaque P (firstn 3 idx)) Ps with
  | Some P => item P idx
  | None => below
  end.

(** The documented inputs: a volume of shape (x,y,z), told from a colour
    volume by its last axis not being 3, or of shape (x,y,z,3); no axis
    is empty. *)
Definition volume_shape_ok (s : list nat) : Prop :=
  match s with
  | [x; y; z] => 0 < x /\ 0 < y /\ 0 < z /\ z <> 3
  | [x; y; z; c] => 0 < x /\ 0 < y /\ 0 < z /\ c = 3
  | _ => False
  end.

(** The heap [h'] keeps every array of [h], except possibly the one at
    [back]. *)
Definition preserved (back : nat) (h h' : list (ndarray float)) : Prop :=
  length h <= length h' /\
  forall a, a < length h -> a <> back -> h' !! a = h !! a.

(** Every entry of the caller's list names a volume on the heap. *)
Definition volumes_of (st : pystate) (vols : list (ndarray float)) : Prop :=
  Forall2 (fun a V => arrays st !! a = Some V) (vol_list st) vols.

(** The largest extent of the shapes along one axis. *)
Definition axis_max (axis : nat) (shapes : list (list nat)) : nat :=
  fold_right Nat.max 0 (map (fun s => nth axis s 0) shapes).

Definition max_extent (shapes : list (list nat)) : list nat :=
  [axis_max 0 shapes; axis_max 1 shapes; axis_max 2 shapes].

(** Order-0 resampling: each output index reads the input entry nearest
    to it; with all factors equal to one this is the identity. *)
Definition nearest_resample (input : ndarray float)
    (factors : list (nat * nat)) (order : nat) (idx : list nat) : float :=
  item input
    (zip_with (fun o df =>
                 let '(d, f) := df in
                 let out := zoomed_dim d f in
                 if (out <=? 1)%nat then 0
                 else ((2 * o * (d - 1) + (out - 1)) / (2 * (out - 1)))%nat)
              idx (combine (shape input) factors)).

(** ** compute_alpha_surface *)

(** The floating-point operations the surface builder uses. *)
Class Scalar (F : Type) : Type := {
  of_nat : nat -> F;
  fadd : F -> F -> F;
  fsub : F -> F -> F;
  fmul : F -> F -> F;
  fdiv : F -> F -> F;
  fcos : F -> F;
  fsin : F -> F;
  fpi : F
}.

(** a[idx] = v on an index within the array. *)
Definition setitem {A} (a : ndarray A) (idx : list nat) (v : A) : ndarray A :=
  mk_ndarray (shape a)
    (fun i => if bool_decide (i = idx) then v else item a i).

Section AlphaSurface.

Context {F : Type} `{Scalar F}.

(** The type of one population vector and of whatever a kernel returns
    after its first value. *)
Variables Vec Rest : Type.

(** unravel.core: kernel(direction, vList, nList) -> (coefficient, ...) *)
Definition kernel : Type := list F -> list Vec -> list Z -> F * Rest.

Variables angular_weighting relative_angular_weighting closest_fixel_only
  : kernel.

(** np.linspace(start, stop, num) for num > 1, end point included. *)
Definition linspace (start stop : F) (num : nat) : ndarray F :=
  let step := fdiv (fsub stop start) (of_nat (num - 1)) in
  mk_ndarray [num]
    (fun idx =>
       let i := hd 0 idx in
       if (i =? num - 1)%nat then stop
       else fadd (fmul (of_nat i) step) start).

(** np.outer(a, b) *)
Definition outer (a b : ndarray F) : ndarray F :=
  mk_ndarray (shape a ++ shape b)
    (fun idx => fmul (item a (firstn 1 idx)) (item b (skipn 1 idx))).

Definition grids : Type := ndarray F * ndarray F * ndarray F * ndarray F.

(** Lines 203-214: one turn of the loop, at grid index [xyz]. *)
Definition surface_step (vList : list Vec) (nList : list Z)
    (method : string) (g : grids) (xyz : list nat) : grids :=
  let '(x, y, z, coef) := g in
  let a :=
    if String.eqb method "raw" then
      fst (relative_angular_weighting
             [item x xyz; item y xyz; item z xyz] vList nList)
    else if String.eqb method "cfo" then
      fst (closest_fixel_only
             [item x xyz; item y xyz; item z xyz] vList nList)
    else
      fst (angular_weighting
             [item x xyz; item y xyz; item z xyz] vList nList) in
  let x := setitem x xyz (fmul (item x xyz) (fadd a (of_nat 1))) in
  let y := setitem y xyz (fmul (item y xyz) (fadd a (of_nat 1))) in
  let z := setitem z xyz (fmul (item z xyz) (fadd a (of_nat 1))) in
  let coef := setitem coef xyz a in
  (x, y, z, coef).

Definition grid_u : ndarray F := linspace (of_nat 0) (fmul (of_nat 2) fpi) 200.
Definition grid_v : ndarray F := linspace (of_nat 0) fpi 200.

(** compute_alpha_surface(vList, method): returns (x, y, z, coef). *)
Definition compute_alpha_surface (vList : list Vec) (method : string)
  : grids :=
  let nList := repeat 0%Z (length vList) in
  let u := grid_u in
  let v := grid_v in
  let x := outer (map1 fcos u) (map1 fsin v) in
  let y := outer (map1 fsin u) (map1 fsin v) in
  let z := outer (full [size u] (of_nat 1)) (map1 fcos v) in
  let coef := x in
  fold_left (surface_step vList nList method) (ndindex (shape x))
    (x, y, z, coef).

(** One turn of the loop with the kernel [k]. *)
Definition kernel_step (k : kernel) (vList : list Vec) (nList : list Z)
    (g : grids) (xyz : list nat) : grids :=
  let '(x, y, z, coef) := g in
  let a := fst (k [item x xyz; item y xyz; item z xyz] vList nList) in
  (setitem x xyz (fmul (item x xyz) (fadd a (of_nat 1))),
   setitem y xyz (fmul (item y xyz) (fadd a (of_nat 1))),
   setitem z xyz (fmul (item z xyz) (fadd a (of_nat 1))),
   setitem coef xyz a).

(** The grids before the loop: the unit sphere, and the copy of x. *)
Definition initial_grids : grids :=
  let x := outer (map1 fcos grid_u) (map1 fsin grid_v) in
  let y := outer (map1 fsin grid_u) (map1 fsin grid_v) in
  let z := outer (full [200] (of_nat 1)) (map1 fcos grid_v) in
  (x, y, z, x).

(** The surface built with one given kernel at every grid point. *)
Definition surface_with (k : kernel) (vList : list Vec) : grids :=
  fold_left (kernel_step k vList (repeat 0%Z (length vList)))
    (ndindex [200; 200]) initial_grids.

Definition grid_x (g : grids) : ndarray F := fst (fst (fst g)).
Definition grid_y (g : grids) : ndarray F := snd (fst (fst g)).
Definition grid_z (g : grids) : ndarray F := snd (fst g).
Definition grid_coef (g : grids) : ndarray F := snd g.

(** The kernel the method string selects. *)
Definition selected_kernel (method : string) : kernel :=
  if String.eqb method "raw" then relative_angular_weighting
  else if String.eqb method "cfo" then closest_fixel_only
  else angular_weighting.

(** The coefficient the kernel [k] gives at [idx] of the grids [g]. *)
Definition coefficient_at (k : kernel) (vList : list Vec)
    (nList : list Z) (g : grids) (idx : list nat) : F :=
  fst (k [item (grid_x g) idx; item (grid_y g) idx; item (grid_z g) idx]
         vList nList).

(** The grids [g'] agree with [g] at [idx]. *)
Definition same_at (g g' : grids) (idx : list nat) : Prop :=
  item (grid_x g') idx = item (grid_x g) idx /\
  item (grid_y g') idx = item (grid_y g) idx /\
  item (grid_z g') idx = item (grid_z g) idx /\
  item (grid_coef g') idx = item (grid_coef g) idx.

(** At [idx] the grids [g'] hold the point of [g] scaled by the
    coefficient plus one, and the coefficient. *)
Definition scaled_at (k : kernel) (vList : list Vec)
    (nList : list Z) (g g' : grids) (idx : list nat) : Prop :=
  let a := coefficient_at k vList nList g idx in
  item (grid_x g') idx = fmul (item (grid_x g) idx) (fadd a (of_nat 1)) /\
  item (grid_y g') idx = fmul (item (grid_y g) idx) (fadd a (of_nat 1)) /\
  item (grid_z g') idx = fmul (item (grid_z g) idx) (fadd a (of_nat 1)) /\
  item (grid_coef g') idx = a.

End AlphaSurface.

(** Stand-ins for the kernels of unravel.core over the reals, to
    evaluate the surface builder on: the sum, the largest and the first
    of the absolute cosines between the direction and the populations. *)
Definition dot (d v : list R) : R :=
  fold_right Rplus 0%R (zip_with Rmult d v).

Definition sum_kernel (d : list R) (vList : list (list R)) (nList : list Z)
  : R * unit :=
  (fold_right Rplus 0%R (map (fun v => Rabs (dot d v)) vList), tt).

Definition max_kernel (d : list R) (vList : list (list R)) (nList : list Z)
  : R * unit :=
  (fold_right Rmax 0%R (map (fun v => Rabs (dot d v)) vList), tt).

Definition first_kernel (d : list R) (vList : list (list R)) (nList : list Z)
  : R * unit :=
  (match vList with v :: _ => Rabs (dot d v) | [] => 0%R end, tt).

(** The real numbers as scalars: the arithmetic the floating-point
    operations round. *)
#[export] Instance R_scalar : Scalar R := {|
  of_nat := INR;
  fadd := Rplus;
  fsub := Rminus;
  fmul := Rmult;
  fdiv := Rdiv;
  fcos := cos;
  fsin := sin;
  fpi := PI
|}.

(** ** Inputs to evaluate the functions on *)

(** One population, along the z axis. *)
Definition north : list (list R) := [[0; 0; 1]%R].

(** Two volumes of shape (2,1,1): A is 4 at the first voxel and 0 at
    the second, B is 0 at the first and 5 at the second. *)
Definition vol_A : ndarray float :=
  mk_ndarray [2; 1; 1] (fun idx => if (hd 0 idx =? 0)%nat then 4 else 0)%float.
Definition vol_B : ndarray float :=
  mk_ndarray [2; 1; 1] (fun idx => if (hd 0 idx =? 0)%nat then 0 else 5)%float.

(** As [vol_A], with -1 at the first voxel. *)
Definition vol_N : ndarray float :=
  mk_ndarray [2; 1; 1] (fun idx => if (hd 0 idx =? 0)%nat then (-1) else 0)%float.

(** A grey volume of shape (2,1,2) and a colour volume of shape
    (1,3,1,3). *)
Definition vol_grey : ndarray float := full [2; 1; 2] 1%float.
Definition vol_colour : ndarray float := full [1; 3; 1; 3] 2%float.

(** A grey volume of shape (2,1,3): its last axis makes the code take
    it for a colour volume. *)
Definition vol_flat3 : ndarray float := full [2; 1; 3] 1%float.

(** ** convert_to_gif *)

(** t[i] on a Python tuple, for a Python int: a negative index counts
    from the end. *)
Definition py_index {A} (l : list A) (i : Z) : result A :=
  if (0 <=? i)%Z then list_get l (Z.to_nat i)
  else if (- Z.of_nat (length l) <=? i)%Z
       then list_get l (Z.to_nat (Z.of_nat (length l) + i))
       else Raise IndexError.

(** array[slic] for slic = (i if d == axis else slice(None) for d in
    range(ndim)): entry [i] of the axis [axis]; no position equals a
    negative axis, and the whole array is selected. *)
Definition slice_axis {A} (a : ndarray A) (axis : Z) (i : nat) : ndarray A :=
  if (axis <? 0)%Z || (Z.of_nat (ndim a) <=? axis)%Z then a
  else
    let ax := Z.to_nat axis in
    mk_ndarray (firstn ax (shape a) ++ skipn (S ax) (shape a))
      (fun idx => item a (firstn ax idx ++ i :: skipn ax idx)).

(** np.sum(data, axis=2) *)
Definition sum_axis2 (data : ndarray float) : result (ndarray float) :=
  match shape data with
  | d0 :: d1 :: c :: rest =>
      Ok (mk_ndarray (d0 :: d1 :: rest)
            (fun idx =>
               match map (fun ch => item data (firstn 2 idx ++ ch :: skipn 2 idx))
                         (seq 0 c) with
               | [] => 0%float
               | v :: vs => fold_left PrimFloat.add vs v
               end))
  | _ => Raise AxisError
  end.

(** np.dstack((data, alpha)) with alpha = (np.sum(data, axis=2) != 0)*1:
    on data with three axes the mask becomes one more plane; with more
    axes the two arrays differ in rank and ValueError is raised. *)
Definition dstack_alpha (data : ndarray float) (alpha : ndarray bool)
  : result (ndarray float) :=
  match shape data with
  | [d0; d1; c] =>
      Ok (mk_ndarray [d0; d1; S c]
            (fun idx => if (nth 2 idx 0 <? c)%nat then item data idx
                        else if item alpha (firstn 2 idx) then 1%float
                             else 0%float))
  | _ => Raise ValueError
  end.

(** What frames[0].save(...) is called with. *)
Record gif_request (Img : Type) : Type := mk_gif_request {
  gif_path : string;
  gif_first : Img;
  gif_append_images : list Img;
  gif_disposal : nat
}.
Arguments mk_gif_request {Img}.
Arguments gif_path {Img}.
Arguments gif_first {Img}.
Arguments gif_append_images {Img}.
Arguments gif_disposal {Img}.

Section Gif.

(** PIL's images, numpy's cast of a float to uint8, and
    Image.fromarray: the image, or the exception it raises. *)
Variable Img : Type.
Variable astype_uint8 : float -> N.
Variable fromarray : ndarray N -> outcome Img.

(** Lines 136-147: the frame for entry [i] of the axis. *)
Definition make_frame (array : ndarray float) (axis : Z)
    (transparency : bool) (i : nat) : outcome Img :=
  let data := slice_axis array axis i in
  match (if transparency
         then s <~ sum_axis2 data ;; dstack_alpha data (map1 ne_zero s)
         else Ok data) with
  | Ok data =>
      fromarray (map1 (fun v => astype_uint8 (v * 255)%float) data)
  | Raise e => Raises e
  end.

(** Lines 134-148: the loop. *)
Fixpoint make_frames (array : ndarray float) (axis : Z)
    (transparency : bool) (entries : list nat) : outcome (list Img) :=
  match entries with
  | [] => Returns []
  | i :: entries' =>
      match make_frame array axis transparency i with
      | Returns image =>
          match make_frames array axis transparency entries' with
          | Returns frames => Returns (image :: frames)
          | Raises e => Raises e
          | RaisesOther name => RaisesOther name
          end
      | Raises e => Raises e
      | RaisesOther name => RaisesOther name
      end
  end.

(** Lines 131-157, on the normalized array. *)
Definition write_gif (array : ndarray float) (output_folder extension : string)
    (axis : Z) (transparency keep_frames : bool)
  : outcome (gif_request Img) :=
  match (if (ndim array =? 3)%nat then grayscale_to_rgb array
         else Ok array) with
  | Raise e => Raises e
  | Ok array =>
      match py_index (shape array) axis with
      | Raise e => Raises e
      | Ok n =>
          match make_frames array axis transparency (seq 0 n) with
          | Returns frames =>
              let disposal := if keep_frames then 0 else 2 in
              match frames with
              | [] => Raises IndexError
              | first :: _ =>
                  Returns (mk_gif_request
                             (output_folder ++ "." ++ extension)
                             first frames disposal)
              end
          | Raises e => Raises e
          | RaisesOther name => RaisesOther name
          end
      end
  end.

(** convert_to_gif(array, output_folder, extension, axis, transparency,
    keep_frames): what the caller's array holds afterwards, and the
    call to save or the exception. *)
Definition convert_to_gif (array : ndarray float)
    (output_folder extension : string) (axis : Z)
    (transparency keep_frames : bool)
  : ndarray float * outcome (gif_request Img) :=
  match np_max array with
  | Raise e => (array, Raises e)
  | Ok m =>
      (* array /= np.max(array) *)
      let array := divide_by m array in
      (array,
       write_gif array output_folder extension axis transparency keep_frames)
  end.

End Gif.

(** The axis a Python index selects. *)
Definition resolved_axis (rank : nat) (axis : Z) : nat :=
  if (0 <=? axis)%Z then Z.to_nat axis else Z.to_nat (Z.of_nat rank + axis).

(** The shape of the array whose slices become the frames. *)
Definition frames_shape (s : list nat) : list nat :=
  if (length s =? 3)%nat then s ++ [3] else s.

(** A cast to uint8 that drops the fraction and wraps modulo 256, and an
    Image.fromarray that accepts every array, to evaluate convert_to_gif
    on. *)
Definition wrap_uint8 (v : float) : N :=
  match TIME_utils.py_int v with
  | Returns i => Z.to_N (i mod 256)
  | _ => 0%N
  end.

Definition any_image (a : ndarray N) : outcome (ndarray N) := Returns a.

(** A volume of shape (1,1,2) holding 2 and 4. *)
Definition vol_24 : ndarray float :=
  mk_ndarray [1; 1; 2]
    (fun idx => if (List.last idx 0 =? 0)%nat then 2 else 4)%float.

End Viz.

(* ================================================================== *)
(** * Properties *)

(** ** Indices *)

Lemma ltb_true (k n : nat) : k < n -> (k <? n)%nat = true.
Proof. intros Hk. now apply Nat.ltb_lt. Qed.

Lemma in_ndindex (s idx : list nat) :
  In idx (ndindex s) <-> in_bounds s idx = true.
Proof.
  revert idx. induction s as [|n s IH]; intros idx; simpl.
  - destruct idx; simpl; split; intros Hx; try discriminate; auto.
    destruct Hx as [Hx|[]]; discriminate.
  - rewrite in_flat_map. split.
    + intros (i & Hi & Hin). apply in_map_iff in Hin as (idx' & <- & Hin').
      apply in_seq in Hi. apply IH in Hin'. rewrite Hin'.
      rewrite andb_true_r. apply Nat.ltb_lt. lia.
    + destruct idx as [|i idx']; [discriminate|].
      intros Hb. apply andb_prop in Hb as [Hi Hr].
      apply Nat.ltb_lt in Hi. exists i. split.
      * apply in_seq. lia.
      * apply in_map. now apply IH.
Qed.

Lemma NoDup_ndindex (s : list nat) : List.NoDup (ndindex s).
Proof.
  induction s as [|n s IH]; simpl.
  - constructor; [intros []|constructor].
  - generalize 0. induction n as [|n IHn]; intros k; simpl.
    + constructor.
    + apply List.NoDup_app.
      * apply NoDup_map_NoDup_ForallPairs; [|exact IH].
        intros a b _ _ Hab. now inversion Hab.
      * apply IHn.
      * intros idx Hin Hin'.
        apply in_map_iff in Hin as (a & <- & _).
        apply in_flat_map in Hin' as (i & Hi & Hin').
        apply in_map_iff in Hin' as (b & Hb & _).
        apply in_seq in Hi. inversion Hb. lia.
Qed.

(** ** Facts on binary64 comparison and negation *)

Module F64.

Lemma cont_antisym (p q : positive) :
  Pos.compare_cont Eq q p = CompOpp (Pos.compare_cont Eq p q).
Proof. symmetry. apply (Pos.compare_cont_antisym p q Eq). Qed.

Lemma SFcompare_antisym (x y : spec_float) :
  SFcompare y x = option_map CompOpp (SFcompare x y).
Proof.
  destruct x as [sx|sx| |sx mx ex], y as [sy|sy| |sy my ey]; simpl;
    try reflexivity;
    try (destruct sx; reflexivity); try (destruct sy; reflexivity);
    try (destruct sx, sy; reflexivity).
  pose proof (cont_antisym mx my) as Hm.
  destruct sx, sy; simpl; try reflexivity;
    rewrite (Z.compare_antisym ex ey);
    destruct (ex ?= ey)%Z; simpl; try reflexivity;
    rewrite Hm; try reflexivity;
    now rewrite CompOpp_involutive.
Qed.

Lemma SFcompare_opp (x y : spec_float) :
  SFcompare (SFopp y) (SFopp x) = SFcompare x y.
Proof.
  destruct x as [sx|sx| |sx mx ex], y as [sy|sy| |sy my ey]; simpl;
    try reflexivity;
    try (destruct sx; reflexivity); try (destruct sy; reflexivity);
    try (destruct sx, sy; reflexivity).
  pose proof (cont_antisym mx my) as Hm.
  destruct sx, sy; simpl; try reflexivity;
    rewrite (Z.compare_antisym ex ey);
    destruct (ex ?= ey)%Z; simpl; try reflexivity;
    rewrite Hm; try reflexivity;
    now rewrite CompOpp_involutive.
Qed.

Lemma SFcompare_refl (x : spec_float) :
  SFcompare x x = match x with S754_nan => None | _ => Some Eq end.
Proof.
  destruct x as [s|s| |s m e]; simpl; try reflexivity.
  - now destruct s.
  - destruct s; rewrite Z.compare_refl, Pos.compare_cont_refl; reflexivity.
Qed.

Lemma is_nan_spec (x : float) :
  PrimFloat.is_nan x = match Prim2SF x with S754_nan => true | _ => false end.
Proof.
  unfold PrimFloat.is_nan. rewrite FloatAxioms.eqb_spec. unfold SFeqb.
  rewrite SFcompare_refl. now destruct (Prim2SF x).
Qed.

Lemma is_nan_opp (x : float) :
  PrimFloat.is_nan (- x) = PrimFloat.is_nan x.
Proof.
  rewrite !is_nan_spec, FloatAxioms.opp_spec. now destruct (Prim2SF x).
Qed.

Lemma SFcompare_not_nan (x y : spec_float) :
  x <> S754_nan -> y <> S754_nan -> exists c, SFcompare x y = Some c.
Proof.
  destruct x, y; simpl; intros; try congruence; eauto.
Qed.

Lemma ltb_asym (x y : float) :
  (x <? y)%float = true -> (y <? x)%float = false.
Proof.
  rewrite !FloatAxioms.ltb_spec. unfold SFltb. rewrite (SFcompare_antisym (Prim2SF x)).
  destruct (SFcompare (Prim2SF x) (Prim2SF y)) as [[]|]; simpl; congruence.
Qed.

Lemma ltb_not_nan (x y : float) :
  (x <? y)%float = true ->
  PrimFloat.is_nan x = false /\ PrimFloat.is_nan y = false.
Proof.
  rewrite FloatAxioms.ltb_spec, !is_nan_spec. unfold SFltb.
  destruct (Prim2SF x), (Prim2SF y); simpl; intros; try congruence; auto.
Qed.

Lemma not_ltb_leb (x y : float) :
  PrimFloat.is_nan x = false -> PrimFloat.is_nan y = false ->
  (y <? x)%float = false -> (x <=? y)%float = true.
Proof.
  rewrite !is_nan_spec, FloatAxioms.ltb_spec, FloatAxioms.leb_spec. unfold SFltb, SFleb.
  intros Hx Hy. rewrite (SFcompare_antisym (Prim2SF x)).
  destruct (SFcompare_not_nan (Prim2SF x) (Prim2SF y)) as [c Hc].
  - intros E; rewrite E in Hx; discriminate.
  - intros E; rewrite E in Hy; discriminate.
  - rewrite Hc. destruct c; simpl; congruence.
Qed.

Lemma leb_opp (x y : float) : (- y <=? - x)%float = (x <=? y)%float.
Proof.
  rewrite !FloatAxioms.leb_spec, !FloatAxioms.opp_spec. unfold SFleb. now rewrite SFcompare_opp.
Qed.

Lemma opp_opp (x : float) : (- - x)%float = x.
Proof.
  apply FloatAxioms.Prim2SF_inj. rewrite !FloatAxioms.opp_spec.
  destruct (Prim2SF x) as [s|s| |s m e]; simpl; now rewrite ?negb_involutive.
Qed.

Lemma eqb_sym (x y : float) : (x =? y)%float = (y =? x)%float.
Proof.
  rewrite !FloatAxioms.eqb_spec. unfold SFeqb.
  rewrite (SFcompare_antisym (Prim2SF x)).
  now destruct (SFcompare (Prim2SF x) (Prim2SF y)) as [[]|].
Qed.

Lemma eqb_opp (x y : float) : (- x =? - y)%float = (x =? y)%float.
Proof.
  rewrite eqb_sym. rewrite !FloatAxioms.eqb_spec, !FloatAxioms.opp_spec.
  unfold SFeqb. now rewrite SFcompare_opp.
Qed.

Lemma ltb_opp (x y : float) : (- y <? - x)%float = (x <? y)%float.
Proof.
  rewrite !FloatAxioms.ltb_spec, !FloatAxioms.opp_spec. unfold SFltb.
  now rewrite SFcompare_opp.
Qed.

(** Two floats that are not NaN are ordered or equal. *)
Lemma trichotomy (x y : float) :
  PrimFloat.is_nan x = false -> PrimFloat.is_nan y = false ->
  (x <? y)%float = false -> (y <? x)%float = false ->
  (x =? y)%float = true.
Proof.
  rewrite !is_nan_spec, !FloatAxioms.ltb_spec, FloatAxioms.eqb_spec.
  unfold SFltb, SFeqb. intros Hx Hy.
  rewrite (SFcompare_antisym (Prim2SF x)).
  destruct (SFcompare_not_nan (Prim2SF x) (Prim2SF y)) as [c Hc].
  - intros E; rewrite E in Hx; discriminate.
  - intros E; rewrite E in Hy; discriminate.
  - rewrite Hc. destruct c; simpl; congruence.
Qed.

Lemma eqb_not_nan (x y : float) :
  (x =? y)%float = true ->
  PrimFloat.is_nan x = false /\ PrimFloat.is_nan y = false.
Proof.
  rewrite FloatAxioms.eqb_spec, !is_nan_spec. unfold SFeqb.
  destruct (Prim2SF x), (Prim2SF y); simpl; intros; try congruence; auto.
Qed.

Lemma ltb_leb (x y : float) : (x <? y)%float = true -> (x <=? y)%float = true.
Proof.
  rewrite FloatAxioms.ltb_spec, FloatAxioms.leb_spec. unfold SFltb, SFleb.
  now destruct (SFcompare (Prim2SF x) (Prim2SF y)) as [[]|].
Qed.

Lemma eqb_ltb (x y : float) : (x =? y)%float = true -> (x <? y)%float = false.
Proof.
  rewrite FloatAxioms.ltb_spec, FloatAxioms.eqb_spec. unfold SFltb, SFeqb.
  now destruct (SFcompare (Prim2SF x) (Prim2SF y)) as [[]|].
Qed.
End F64.

(** ** TIME/utils.py: the matrix handed to the eigen solver *)

Module TIME_facts.
Import TIME_utils.

(** Rank 4: the first axis is read as the component axis. *)
Lemma tensor_matrix_rank4 (t : ndarray float) (c x y z : nat) :
  shape t = [c; x; y; z] -> 6 <= c ->
  exists mt,
    tensor_matrix t = Ok mt /\ shape mt = [x; y; z; 3; 3] /\
    forall i j k,
      matrix_at mt [i; j; k] =
      [[item t [0; i; j; k]; item t [1; i; j; k]; item t [2; i; j; k]];
       [item t [1; i; j; k]; item t [3; i; j; k]; item t [4; i; j; k]];
       [item t [2; i; j; k]; item t [4; i; j; k]; item t [5; i; j; k]]].
Proof.
  intros Hs Hc. destruct t as [s it]. simpl in Hs. subst s.
  assert (exists c', c = 6 + c') as [c' ->] by (exists (c - 6); lia).
  unfold tensor_matrix, ndim, component_rows, slice3. cbn.
  eexists. split; [reflexivity|]. split; [reflexivity|].
  intros i j k. reflexivity.
Qed.

(** Rank 5: the last axis is the component axis. *)
Lemma tensor_matrix_rank5 (t : ndarray float) (x y z a b : nat) :
  shape t = [x; y; z; a; b] -> 1 <= a -> 6 <= b ->
  exists mt,
    tensor_matrix t = Ok mt /\ shape mt = [x; y; z; 3; 3] /\
    forall i j k,
      matrix_at mt [i; j; k] =
      [[item t [i; j; k; 0; 0]; item t [i; j; k; 0; 1]; item t [i; j; k; 0; 3]];
       [item t [i; j; k; 0; 1]; item t [i; j; k; 0; 2]; item t [i; j; k; 0; 4]];
       [item t [i; j; k; 0; 3]; item t [i; j; k; 0; 4]; item t [i; j; k; 0; 5]]].
Proof.
  intros Hs Ha Hb. destruct t as [s it]. simpl in Hs. subst s.
  assert (exists b', b = 6 + b') as [b' ->] by (exists (b - 6); lia).
  assert (exists a', a = 1 + a') as [a' ->] by (exists (a - 1); lia).
  unfold tensor_matrix, ndim, component_rows, slice3. cbn.
  eexists. split; [reflexivity|]. split; [reflexivity|].
  intros i j k. reflexivity.
Qed.

Lemma in_bounds_5 (x y z r c : nat) (idx : list nat) :
  in_bounds [x; y; z; r; c] idx = true ->
  exists i j k p q,
    idx = [i; j; k] ++ [p; q] /\ in_bounds [x; y; z] [i; j; k] = true /\
    p < r /\ q < c.
Proof.
  destruct idx as [|i [|j [|k [|p [|q [|]]]]]]; simpl;
    rewrite ?andb_false_r; try discriminate.
  rewrite !andb_true_r. intros Hb.
  apply andb_prop in Hb as [Hi Hb]. apply andb_prop in Hb as [Hj Hb].
  apply andb_prop in Hb as [Hk Hb]. apply andb_prop in Hb as [Hp Hq].
  exists i, j, k, p, q. simpl. rewrite Hi, Hj, Hk.
  apply Nat.ltb_lt in Hp, Hq. auto.
Qed.

(** The eigen solver succeeds on a finite stack on which the per-matrix
    routine succeeds. *)
Lemma linalg_eigvals_ok eig3 (mt : ndarray float) (x y z : nat) :
  shape mt = [x; y; z; 3; 3] ->
  (forall idx, in_bounds (shape mt) idx = true ->
               PrimFloat.is_finite (item mt idx) = true) ->
  (forall v, in_bounds [x; y; z] v = true ->
             is_Some (eig3 (matrix_at mt v))) ->
  linalg_eigvals eig3 mt =
  Ok (mk_ndarray [x; y; z; 3]
        (fun idx => eig_component (List.last idx 0)
                      (eig3 (matrix_at mt (removelast idx))))).
Proof.
  intros Hs Hfin Heig. unfold linalg_eigvals, ndim. rewrite Hs.
  replace (forallb _ (ndindex [x; y; z; 3; 3])) with true.
  2:{ symmetry. apply forallb_forall. intros idx Hin.
      apply in_ndindex in Hin. apply Hfin. now rewrite Hs. }
  cbn [negb length Nat.sub firstn].
  replace (forallb _ (ndindex [x; y; z])) with true; [reflexivity|].
  symmetry. apply forallb_forall. intros v Hin.
  apply in_ndindex in Hin. apply bool_decide_eq_true. now apply Heig.
Qed.

(** The two exits of tensor_to_DTI. *)
Lemma tensor_to_DTI_returns eig3 t st val :
  sorted_eigenvalues eig3 t = Ok val ->
  tensor_to_DTI eig3 t st =
  (mk_errstate Warn (err_over st) (err_under st) Warn, Ok (scalar_maps val)).
Proof.
  intros Hv. unfold tensor_to_DTI, bind, lift, seterr, ret. now rewrite Hv.
Qed.

Lemma tensor_to_DTI_raises eig3 t st e :
  sorted_eigenvalues eig3 t = Raise e ->
  tensor_to_DTI eig3 t st =
  (mk_errstate Ignore (err_over st) (err_under st) Ignore, Raise e).
Proof.
  intros Hv. unfold tensor_to_DTI, bind, lift, seterr, ret. now rewrite Hv.
Qed.

Lemma scalar_maps_shape (val FA AD RD MD : ndarray float) :
  scalar_maps val = (FA, AD, RD, MD) ->
  shape FA = removelast (shape val) /\ shape AD = removelast (shape val) /\
  shape RD = removelast (shape val) /\ shape MD = removelast (shape val).
Proof.
  unfold scalar_maps. intros Hm. inversion Hm; subst. simpl. auto.
Qed.

Lemma matrix_entry_Forall (P : float -> Prop) (mt : ndarray float)
    (v : list nat) (p q : nat) :
  p < 3 -> q < 3 ->
  Forall (Forall P) (matrix_at mt v) -> P (item mt (v ++ [p; q])).
Proof.
  intros Hp Hq HF. unfold matrix_at in HF. cbn in HF.
  repeat match goal with
         | Hx : Forall _ (_ :: _) |- _ => inversion Hx; clear Hx; subst
         end.
  destruct p as [|[|[|p]]]; try lia;
    destruct q as [|[|[|q]]]; try lia; assumption.
Qed.

(** What np.linalg.eig returns when it returns. *)
Lemma linalg_eigvals_form eig3 (mt raw : ndarray float) :
  linalg_eigvals eig3 mt = Ok raw ->
  raw = mk_ndarray (firstn (ndim mt - 2) (shape mt) ++ [3])
          (fun idx => eig_component (List.last idx 0)
                        (eig3 (matrix_at mt (removelast idx)))).
Proof.
  unfold linalg_eigvals. intros Hr.
  destruct (negb _); [discriminate|].
  destruct (forallb _ (ndindex _)); [|discriminate].
  now inversion Hr.
Qed.

(** The sorted eigenvalues at one voxel, in terms of the solver's. *)
Lemma sorted_eigenvalues_item eig3 (t val : ndarray float) :
  sorted_eigenvalues eig3 t = Ok val ->
  exists mt,
    tensor_matrix t = Ok mt /\
    shape val = firstn (ndim mt - 2) (shape mt) ++ [3] /\
    forall v n,
      item val (v ++ [n]) =
      (- nth n (np_sort (map PrimFloat.opp (voxel_eigs eig3 mt v))) nan)%float.
Proof.
  unfold sorted_eigenvalues. intros Hv.
  destruct (tensor_matrix t) as [mt|e]; [|discriminate]. simpl in Hv.
  destruct (linalg_eigvals eig3 mt) as [raw|e] eqn:Hraw; [|discriminate].
  simpl in Hv. inversion Hv; subst val; clear Hv.
  apply linalg_eigvals_form in Hraw. subst raw.
  exists mt. split; [reflexivity|]. split; [reflexivity|].
  intros v n. unfold np_neg, sort_last, map1, voxel_eigs.
  cbn [item shape]. rewrite !last_last, !removelast_last.
  rewrite map_map. f_equal. f_equal. f_equal.
  apply map_ext. intros m. now rewrite last_last, removelast_last.
Qed.

(** np.sort sorts, also in the presence of NaN. *)
Lemma np_lt_asym (a b : float) : np_lt a b = true -> np_lt b a = false.
Proof.
  unfold np_lt. intros Hab. apply orb_prop in Hab as [Hab|Hab].
  - rewrite (F64.ltb_asym _ _ Hab).
    destruct (F64.ltb_not_nan _ _ Hab) as [Ha _]. now rewrite Ha.
  - apply andb_prop in Hab as [Hb Ha]. apply negb_true_iff in Ha.
    rewrite Ha, Hb, andb_false_r, orb_false_r.
    destruct (b <? a)%float eqn:Hlt; [|reflexivity].
    destruct (F64.ltb_not_nan _ _ Hlt) as [Hb' _]. congruence.
Qed.

Lemma insert_sorted_length (x : float) (l : list float) :
  length (insert_sorted x l) = S (length l).
Proof.
  induction l as [|y l IH]; simpl; [reflexivity|].
  destruct (np_lt x y); simpl; auto.
Qed.

Lemma np_sort_length (l : list float) : length (np_sort l) = length l.
Proof.
  induction l as [|x l IH]; simpl; [reflexivity|].
  now rewrite insert_sorted_length, IH.
Qed.

Lemma insert_sorted_Sorted (x : float) (l : list float) :
  Sorted np_le l -> Sorted np_le (insert_sorted x l).
Proof.
  induction 1 as [|y l Hs IH Hhd]; simpl.
  - repeat constructor.
  - destruct (np_lt x y) eqn:Hxy.
    + constructor; [now constructor|]. constructor.
      now apply np_lt_asym.
    + constructor; [exact IH|].
      destruct l as [|z l]; simpl.
      * constructor. exact Hxy.
      * destruct (np_lt x z); constructor; [exact Hxy|].
        now inversion Hhd.
Qed.

Lemma np_sort_Sorted (l : list float) : Sorted np_le (np_sort l).
Proof.
  induction l as [|x l IH]; simpl; [constructor|].
  now apply insert_sorted_Sorted.
Qed.

Lemma nan_to_zero_not_nan (m : ndarray float) (v : list nat) :
  PrimFloat.is_nan (item (nan_to_zero m) v) = false.
Proof.
  unfold nan_to_zero, map1. simpl.
  destruct (PrimFloat.is_nan (item m v)) eqn:Hm; [reflexivity|exact Hm].
Qed.

Lemma insert_sorted_Permutation (x : float) (l : list float) :
  Permutation (insert_sorted x l) (x :: l).
Proof.
  induction l as [|y l IH]; cbn [insert_sorted]; [reflexivity|].
  destruct (np_lt x y); [reflexivity|].
  rewrite IH. apply perm_swap.
Qed.

Lemma np_sort_Permutation (l : list float) : Permutation (np_sort l) l.
Proof.
  induction l as [|x l IH]; cbn; [reflexivity|].
  rewrite insert_sorted_Permutation. now constructor.
Qed.

(** Three sorted floats. *)
Lemma np_sort_three (a b c : float) :
  exists s0 s1 s2,
    np_sort [a; b; c] = [s0; s1; s2] /\
    np_lt s1 s0 = false /\ np_lt s2 s1 = false.
Proof.
  pose proof (np_sort_length [a; b; c]) as Hl.
  pose proof (np_sort_Sorted [a; b; c]) as Hs.
  destruct (np_sort [a; b; c]) as [|s0 [|s1 [|s2 [|]]]]; try discriminate Hl.
  exists s0, s1, s2. split; [reflexivity|].
  inversion Hs as [|? ? Hs1 Hh0]; subst.
  inversion Hs1 as [|? ? Hs2 Hh1]; subst.
  inversion Hh0 as [|? ? H01]; subst. inversion Hh1 as [|? ? H12]; subst.
  split; assumption.
Qed.

(** What the order leaves between two neighbours after the sign is
    restored. *)
Lemma np_lt_descending (s0 s1 : float) :
  np_lt s1 s0 = false ->
  PrimFloat.is_nan (- s1) = false ->
  (- s1 <=? - s0)%float = true.
Proof.
  rewrite F64.is_nan_opp, F64.leb_opp. unfold np_lt. intros Hlt Hn.
  apply orb_false_elim in Hlt as [Hlt Hnan].
  rewrite Hn, andb_true_r in Hnan.
  now apply F64.not_ltb_leb.
Qed.

Section ComplexFacts.
Variable geev3 : list (list float) -> option (complex * complex * complex).
Variables c_power c_mul c_div : complex -> complex -> complex.
Variable c_sqrt : complex -> complex.

(** When every imaginary part is zero, tensor_to_DTI is the function of
    the real parts. *)
Lemma tensor_to_DTI_complex_real (t mt : ndarray float) (val : ndarray float)
    (st : np_errstate) :
  tensor_matrix t = Ok mt ->
  linalg_eig geev3 mt = Ok (RealValues val) ->
  tensor_to_DTI_complex geev3 c_power c_mul c_div c_sqrt t st
  = tensor_to_DTI (real_parts geev3) t st.
Proof.
  intros Hmt Hw.
  unfold tensor_to_DTI_complex, tensor_to_DTI, sorted_eigenvalues, bind,
    lift, seterr, ret.
  rewrite Hmt. cbn [rbind]. rewrite Hw.
  unfold linalg_eig in Hw.
  destruct (linalg_eigvals (real_parts geev3) mt) as [wr|e];
    cbn [rbind] in Hw; [|discriminate].
  destruct (linalg_eigvals (imag_parts geev3) mt) as [wi|e];
    cbn [rbind] in Hw; [|discriminate].
  destruct (forallb _ _); inversion Hw; subst. reflexivity.
Qed.

End ComplexFacts.


(** np.sort on complex values: the insertion keeps the run sorted, last
    entry first, with no entry less than the one placed before it. *)
Lemma np_clt_asym (a b : complex) : np_clt a b = true -> np_clt b a = false.
Proof.
  destruct a as [ar ai], b as [br bi]. unfold np_clt.
  destruct (ar <? br)%float eqn:Hab.
  - rewrite (F64.ltb_asym _ _ Hab). intros H.
    destruct (PrimFloat.is_nan ai), (PrimFloat.is_nan bi); cbn in *;
      congruence.
  - destruct (br <? ar)%float eqn:Hba.
    + intros H. apply andb_prop in H as [Hb Ha].
      apply negb_true_iff in Ha. now rewrite Hb, Ha.
    + rewrite (F64.eqb_sym br ar), (andb_comm (PrimFloat.is_nan br)).
      destruct ((ar =? br)%float || PrimFloat.is_nan ar && PrimFloat.is_nan br)
        eqn:Heq.
      * intros H. apply orb_prop in H as [H|H].
        -- rewrite (F64.ltb_asym _ _ H).
           destruct (F64.ltb_not_nan _ _ H) as [Ha _]. now rewrite Ha.
        -- apply andb_prop in H as [Hb Ha]. apply negb_true_iff in Ha.
           rewrite Ha, Hb. cbn. rewrite orb_false_r.
           destruct (bi <? ai)%float eqn:Hlt; [|reflexivity].
           destruct (F64.ltb_not_nan _ _ Hlt) as [Hb' _]. congruence.
      * intros Hb. apply orb_false_elim in Heq as [_ Heq].
        rewrite Hb, andb_true_r in Heq. exact Heq.
Qed.

Lemma c_insert_sorted (vp : complex) (before : list complex) :
  Sorted (fun p q => np_clt p q = false) before ->
  Sorted (fun p q => np_clt p q = false) (c_insert vp before).
Proof.
  induction 1 as [|pk l Hs IH Hhd]; cbn [c_insert].
  - repeat constructor.
  - destruct (np_clt vp pk) eqn:Hvp.
    + constructor; [exact IH|].
      destruct l as [|pk' l]; cbn [c_insert].
      * constructor. now apply np_clt_asym.
      * destruct (np_clt vp pk'); constructor;
          [now inversion Hhd|now apply np_clt_asym].
    + constructor; [now constructor|]. now constructor.
Qed.

Lemma c_fold_sorted (l before : list complex) :
  Sorted (fun p q => np_clt p q = false) before ->
  Sorted (fun p q => np_clt p q = false)
         (fold_left (fun acc vp => c_insert vp acc) l before).
Proof.
  revert before. induction l as [|x l IH]; intros before Hs; cbn [fold_left];
    [exact Hs|].
  apply IH. now apply c_insert_sorted.
Qed.

Lemma c_insert_Permutation (vp : complex) (before : list complex) :
  Permutation (c_insert vp before) (vp :: before).
Proof.
  induction before as [|pk l IH]; cbn [c_insert]; [reflexivity|].
  destruct (np_clt vp pk); [|reflexivity].
  rewrite IH. apply perm_swap.
Qed.

Lemma c_fold_Permutation (l before : list complex) :
  Permutation (fold_left (fun acc vp => c_insert vp acc) l before)
              (l ++ before).
Proof.
  revert before. induction l as [|x l IH]; intros before; cbn [fold_left app];
    [reflexivity|].
  rewrite IH, c_insert_Permutation. now rewrite Permutation_middle.
Qed.

Lemma np_csort_Permutation (l : list complex) : Permutation (np_csort l) l.
Proof.
  unfold np_csort. rewrite <- Permutation_rev, c_fold_Permutation.
  now rewrite app_nil_r.
Qed.

Lemma np_csort_length (l : list complex) : length (np_csort l) = length l.
Proof. apply Permutation_length, np_csort_Permutation. Qed.

(** Three sorted entries: neither of the later ones is less than the
    one before it. *)
Lemma np_csort_three (a b c : complex) :
  exists s0 s1 s2,
    np_csort [a; b; c] = [s0; s1; s2] /\
    np_clt s1 s0 = false /\ np_clt s2 s1 = false.
Proof.
  pose proof (np_csort_length [a; b; c]) as Hl.
  pose proof (c_fold_sorted [a; b; c] [] (Sorted_nil _)) as Hs.
  unfold np_csort in *. rewrite length_rev in Hl.
  destruct (fold_left _ [a; b; c] []) as [|r2 [|r1 [|r0 [|]]]];
    try discriminate Hl.
  exists r0, r1, r2. split; [reflexivity|].
  inversion Hs as [|? ? Hs1 Hh2]; subst.
  inversion Hs1 as [|? ? Hs0 Hh1]; subst.
  inversion Hh2 as [|? ? H21]; subst. inversion Hh1 as [|? ? H10]; subst.
  split; assumption.
Qed.

Lemma c_is_nan_neg (z : complex) : c_is_nan (c_neg z) = c_is_nan z.
Proof. unfold c_is_nan, c_neg. cbn. now rewrite !F64.is_nan_opp. Qed.

Lemma c_neg_neg (z : complex) : c_neg (c_neg z) = z.
Proof. destruct z. unfold c_neg. cbn. now rewrite !F64.opp_opp. Qed.

(** What the order leaves between two neighbours after the sign is
    restored: when the later one has no NaN part, neither has the
    earlier one, its real part is at least as large, and at equal real
    parts so is its imaginary part. *)
Lemma np_clt_descending (s0 s1 : complex) :
  np_clt s1 s0 = false ->
  c_is_nan (c_neg s1) = false ->
  c_is_nan (c_neg s0) = false /\
  (fst (c_neg s1) <=? fst (c_neg s0))%float = true /\
  ((fst (c_neg s1) =? fst (c_neg s0))%float = true ->
   (snd (c_neg s1) <=? snd (c_neg s0))%float = true).
Proof.
  rewrite !c_is_nan_neg. destruct s0 as [ar ai], s1 as [br bi].
  unfold np_clt, c_is_nan, c_neg. cbn [fst snd].
  rewrite !F64.leb_opp, F64.eqb_opp.
  intros Hlt Hb. apply orb_false_elim in Hb as [Hbr Hbi].
  rewrite Hbi in Hlt. cbn [negb orb andb] in Hlt.
  destruct (br <? ar)%float eqn:H1; [discriminate|].
  destruct (ar <? br)%float eqn:H2.
  - rewrite andb_true_r in Hlt.
    destruct (F64.ltb_not_nan _ _ H2) as [Har _].
    rewrite Har, Hlt. split; [reflexivity|].
    split; [now apply F64.ltb_leb|].
    intros Heq. rewrite F64.eqb_sym in Heq.
    apply F64.eqb_ltb in Heq. congruence.
  - rewrite Hbr, andb_false_l, orb_false_r in Hlt.
    destruct (br =? ar)%float eqn:H3.
    + apply orb_false_elim in Hlt as [Hlt Hai]. rewrite andb_true_r in Hai.
      destruct (F64.eqb_not_nan _ _ H3) as [_ Har].
      rewrite Har, Hai. split; [reflexivity|].
      split; [now apply F64.not_ltb_leb|].
      intros _. now apply F64.not_ltb_leb.
    + exfalso. destruct (PrimFloat.is_nan ar) eqn:Har.
      * congruence.
      * rewrite (F64.trichotomy br ar Hbr Har H1 H2) in H3. discriminate.
Qed.

(** No map that tensor_to_DTI returns holds a NaN. *)
Lemma tensor_to_DTI_no_nan eig3 t st st' FA AD RD MD (v : list nat) :
  tensor_to_DTI eig3 t st = (st', Ok (FA, AD, RD, MD)) ->
  PrimFloat.is_nan (item FA v) = false /\
  PrimFloat.is_nan (item AD v) = false /\
  PrimFloat.is_nan (item RD v) = false /\
  PrimFloat.is_nan (item MD v) = false.
Proof.
  intros Hrun. destruct (sorted_eigenvalues eig3 t) as [val|e] eqn:Hv.
  - rewrite (tensor_to_DTI_returns _ _ _ _ Hv) in Hrun.
    inversion Hrun; subst. repeat split; apply nan_to_zero_not_nan.
  - rewrite (tensor_to_DTI_raises _ _ _ _ Hv) in Hrun. discriminate.
Qed.

End TIME_facts.

(** ** TIME/utils.py: the claims on tensor_to_DTI *)

Import TIME_utils TIME_facts.

(** C2. The eigenvalues that the maps of tensor_to_DTI are computed
    from are sorted in descending order.  Whenever maps are returned,
    at every voxel there are l0, l1, l2, the three eigenvalues the
    solver gave for the matrix of that voxel in some order, such that
    l1 is at most l0 and l2 at most l1 (an eigenvalue that is NaN comes
    after those that are not), AD is l0, RD is (l1 + l2) / 2, MD is
    (l0 + l1 + l2) / 3 and FA is the square root of the quotient of
    lines 144-149 in these three, each with NaN replaced by 0.  When
    np.linalg.eig returns complex values the same holds of the
    complex numbers in the order of np.sort on them: the real parts
    descend, and the imaginary parts where the real parts are equal;
    the maps are the real parts of the same formulas in complex
    arithmetic. *)
Theorem tensor_to_DTI_eigenvalues_descending :
  (forall eig3 (t : ndarray float) (st st' : np_errstate)
          (FA AD RD MD : ndarray float),
     tensor_to_DTI eig3 t st = (st', Ok (FA, AD, RD, MD)) ->
     exists mt,
       tensor_matrix t = Ok mt /\
       forall v, exists l0 l1 l2,
         Permutation [l0; l1; l2] (voxel_eigs eig3 mt v) /\
         (PrimFloat.is_nan l1 = false -> (l1 <=? l0)%float = true) /\
         (PrimFloat.is_nan l2 = false -> (l2 <=? l1)%float = true) /\
         let coerce := fun x => if PrimFloat.is_nan x then 0%float else x in
         item AD v = coerce l0 /\
         item RD v = coerce ((l1 + l2) / 2)%float /\
         item MD v = coerce ((l0 + l1 + l2) / 3)%float /\
         item FA v =
         coerce (PrimFloat.sqrt
                   (((l0 - l1) * (l0 - l1) + (l1 - l2) * (l1 - l2)
                     + (l2 - l0) * (l2 - l0))
                    / (2 * (l0 * l0 + l1 * l1 + l2 * l2)))%float)) /\
  (forall geev3 c_power c_mul c_div c_sqrt (t : ndarray float)
          (st st' : np_errstate) (FA AD RD MD : ndarray float),
     tensor_to_DTI_complex geev3 c_power c_mul c_div c_sqrt t st
     = (st', Ok (FA, AD, RD, MD)) ->
     exists mt w,
       tensor_matrix t = Ok mt /\ linalg_eig geev3 mt = Ok w /\
       match w with
       | RealValues _ =>
           tensor_to_DTI (real_parts geev3) t st = (st', Ok (FA, AD, RD, MD))
       | ComplexValues val =>
           forall v, exists z0 z1 z2,
             Permutation [z0; z1; z2]
               [item val (v ++ [0]); item val (v ++ [1]); item val (v ++ [2])] /\
             (c_is_nan z1 = false ->
              c_is_nan z0 = false /\
              (fst z1 <=? fst z0)%float = true /\
              ((fst z1 =? fst z0)%float = true ->
               (snd z1 <=? snd z0)%float = true)) /\
             (c_is_nan z2 = false ->
              c_is_nan z1 = false /\
              (fst z2 <=? fst z1)%float = true /\
              ((fst z2 =? fst z1)%float = true ->
               (snd z2 <=? snd z1)%float = true)) /\
             let two : complex := (2, 0)%float in
             let sq := fun a b => c_power (c_sub a b) two in
             item AD v = c_real_nan_to_zero z0 /\
             item RD v = c_real_nan_to_zero (c_div (c_add z1 z2) two) /\
             item MD v =
             c_real_nan_to_zero
               (c_div (c_add (c_add z0 z1) z2) (3, 0)%float) /\
             item FA v =
             c_real_nan_to_zero
               (c_sqrt
                  (c_div
                     (c_add (c_add (sq z0 z1) (sq z1 z2)) (sq z2 z0))
                     (c_mul two
                        (c_add (c_add (c_power z0 two) (c_power z1 two))
                               (c_power z2 two)))))
       end).
Proof.
  split.
  - intros eig3 t st st' FA AD RD MD Hrun.
    destruct (sorted_eigenvalues eig3 t) as [val|e] eqn:Hval.
    2:{ rewrite (tensor_to_DTI_raises _ _ _ _ Hval) in Hrun. discriminate. }
    rewrite (tensor_to_DTI_returns _ _ _ _ Hval) in Hrun.
    destruct (sorted_eigenvalues_item _ _ _ Hval) as (mt & Hmt & _ & Hitem).
    exists mt. split; [exact Hmt|]. intros v.
    unfold voxel_eigs in *. cbn [seq map] in *.
    set (e0 := eig_component 0 (eig3 (matrix_at mt v))) in *.
    set (e1 := eig_component 1 (eig3 (matrix_at mt v))) in *.
    set (e2 := eig_component 2 (eig3 (matrix_at mt v))) in *.
    destruct (np_sort_three (- e0) (- e1) (- e2))
      as (s0 & s1 & s2 & Hs & H10 & H21).
    pose proof (np_sort_Permutation [- e0; - e1; - e2]%float) as Hperm.
    pose proof (Hitem v 0) as E0. pose proof (Hitem v 1) as E1.
    pose proof (Hitem v 2) as E2.
    cbn [seq map] in E0, E1, E2. fold e0 e1 e2 in E0, E1, E2.
    rewrite Hs in E0, E1, E2, Hperm. cbn [nth] in E0, E1, E2.
    exists (- s0)%float, (- s1)%float, (- s2)%float.
    split.
    { apply (Permutation_map PrimFloat.opp) in Hperm. cbn [map] in Hperm.
      now rewrite !F64.opp_opp in Hperm. }
    split; [now apply np_lt_descending|].
    split; [now apply np_lt_descending|].
    cbv zeta. inversion Hrun as [[Hst HFA HAD HRD HMD]].
    unfold nan_to_zero, np_sqrt, np_div, np_divc, np_add, np_sub, np_power2,
      np_scale, take_last, map1, map2.
    cbn [item]. rewrite E0, E1, E2. repeat split.
  - intros geev3 c_power c_mul c_div c_sqrt t st st' FA AD RD MD Hrun.
    destruct (tensor_matrix t) as [mt|e] eqn:Hmt.
    2:{ unfold tensor_to_DTI_complex, bind, lift, seterr, ret in Hrun.
        rewrite Hmt in Hrun. discriminate. }
    destruct (linalg_eig geev3 mt) as [w|e] eqn:Hw.
    2:{ unfold tensor_to_DTI_complex, bind, lift, seterr, ret in Hrun.
        rewrite Hmt in Hrun. cbn [rbind] in Hrun. rewrite Hw in Hrun.
        discriminate. }
    exists mt, w. split; [reflexivity|]. split; [exact Hw|].
    destruct w as [val|val].
    + now rewrite <- (tensor_to_DTI_complex_real geev3 c_power c_mul c_div
                        c_sqrt t mt val st Hmt Hw).
    + unfold tensor_to_DTI_complex, bind, lift, seterr, ret in Hrun.
      rewrite Hmt in Hrun. cbn [rbind] in Hrun. rewrite Hw in Hrun.
      assert (List.last (shape val) 0 = 3) as Hlast.
      { unfold linalg_eig in Hw.
        destruct (linalg_eigvals (real_parts geev3) mt) as [wr|e] eqn:Hwr;
          cbn [rbind] in Hw; [|discriminate].
        destruct (linalg_eigvals (imag_parts geev3) mt) as [wi|e];
          cbn [rbind] in Hw; [|discriminate].
        destruct (forallb _ _); inversion Hw; subst.
        apply linalg_eigvals_form in Hwr. subst wr. cbn [map2 shape].
        apply last_last. }
      intros v.
      destruct (np_csort_three (c_neg (item val (v ++ [0])))
                  (c_neg (item val (v ++ [1]))) (c_neg (item val (v ++ [2]))))
        as (s0 & s1 & s2 & Hs & H10 & H21).
      pose proof (np_csort_Permutation
                    [c_neg (item val (v ++ [0])); c_neg (item val (v ++ [1]));
                     c_neg (item val (v ++ [2]))]) as Hperm.
      rewrite Hs in Hperm.
      remember (map1 c_neg (c_sort_last (map1 c_neg val))) as sorted
        eqn:Hsorted.
      assert (forall n,
                 item sorted (v ++ [n])
                 = c_neg (nth n [s0; s1; s2] (nan, nan))) as Hitem.
      { intros n. subst sorted. unfold c_sort_last, map1. cbn [item shape].
        rewrite Hlast, last_last, removelast_last. cbn [seq map].
        now rewrite Hs. }
      clear Hsorted.
      exists (c_neg s0), (c_neg s1), (c_neg s2).
      split.
      { apply (Permutation_map c_neg) in Hperm. cbn [map] in Hperm.
        now rewrite !c_neg_neg in Hperm. }
      split; [now apply np_clt_descending|].
      split; [now apply np_clt_descending|].
      cbv zeta. inversion Hrun as [[Hst HFA HAD HRD HMD]].
      unfold scalar_maps_complex, take_last.
      cbn [map1 map2 item].
      rewrite !(Hitem 0), !(Hitem 1), !(Hitem 2). cbn [nth].
      repeat split.
Qed.

Lemma tensor_to_DTI_eigenvalues_descending_witness :
  (exists st' FA AD RD MD l0 l1 l2,
     tensor_to_DTI diag_eig diag_field default_errstate
     = (st', Ok (FA, AD, RD, MD)) /\
     Permutation [l0; l1; l2] [1; 3; 2]%float /\
     PrimFloat.leb l1 l0 = true /\ PrimFloat.leb l2 l1 = true /\
     item AD [0; 0; 0] = l0 /\ item AD [0; 0; 0] = 3%float /\
     item RD [0; 0; 0] = 1.5%float) /\
  (exists st' FA AD RD MD z0 z1 z2,
     tensor_to_DTI_complex tilted_eig school_power2 school_mul school_div
       school_sqrt diag_field default_errstate
     = (st', Ok (FA, AD, RD, MD)) /\
     Permutation [z0; z1; z2] [(1, 0); (3, 0.5); (2, -0.5)]%float /\
     PrimFloat.leb (fst z1) (fst z0) = true /\
     PrimFloat.leb (fst z2) (fst z1) = true /\
     item AD [0; 0; 0] = fst z0 /\ item AD [0; 0; 0] = 3%float).
Proof.
  destruct tensor_to_DTI_eigenvalues_descending as [Hreal Hcomplex].
  assert (forall x, In x [1; 3; 2]%float -> PrimFloat.is_nan x = false)
    as Hfin.
  { intros x [<-|[<-|[<-|[]]]]; reflexivity. }
  assert (forall z, In z [(1, 0); (3, 0.5); (2, -0.5)]%float ->
                    c_is_nan z = false) as Hcfin.
  { intros z [<-|[<-|[<-|[]]]]; reflexivity. }
  split.
  - destruct (tensor_to_DTI diag_eig diag_field default_errstate)
      as [st' [[[[FA AD] RD] MD]|e]] eqn:Hrun;
      [|apply (f_equal (fun r => returned (snd r))) in Hrun;
        vm_compute in Hrun; discriminate].
    destruct (Hreal _ _ _ _ _ _ _ _ Hrun) as (mt & Hmt & Hv).
    vm_compute in Hmt. inversion Hmt; subst mt; clear Hmt.
    destruct (Hv [0; 0; 0]) as (l0 & l1 & l2 & Hperm & H10 & H21
                                   & HAD & HRD & _).
    change (voxel_eigs diag_eig _ [0; 0; 0]) with [1; 3; 2]%float in Hperm.
    assert (PrimFloat.is_nan l0 = false) as Hn0.
    { apply Hfin. apply (Permutation_in _ Hperm). now left. }
    assert (PrimFloat.is_nan l1 = false) as Hn1.
    { apply Hfin. apply (Permutation_in _ Hperm). right. now left. }
    assert (PrimFloat.is_nan l2 = false) as Hn2.
    { apply Hfin. apply (Permutation_in _ Hperm). right. right. now left. }
    rewrite Hn0 in HAD.
    exists st', FA, AD, RD, MD, l0, l1, l2.
    split; [reflexivity|]. split; [exact Hperm|].
    split; [exact (H10 Hn1)|]. split; [exact (H21 Hn2)|].
    split; [exact HAD|].
    apply (f_equal (fun r => match snd r with
                             | Ok (_, AD, RD, _) =>
                                 (item AD [0; 0; 0], item RD [0; 0; 0])
                             | Raise _ => (nan, nan)
                             end)) in Hrun.
    vm_compute in Hrun. inversion Hrun as [[H3 H15]].
    split; [exact (eq_sym H3)|exact (eq_sym H15)].
  - destruct (tensor_to_DTI_complex tilted_eig school_power2 school_mul
                school_div school_sqrt diag_field default_errstate)
      as [st' [[[[FA AD] RD] MD]|e]] eqn:Hrun;
      [|apply (f_equal (fun r => returned (snd r))) in Hrun;
        vm_compute in Hrun; discriminate].
    destruct (Hcomplex _ _ _ _ _ _ _ _ _ _ _ _ Hrun)
      as (mt & w & Hmt & Hw & Hv).
    vm_compute in Hmt. inversion Hmt; subst mt; clear Hmt.
    destruct w as [val|val];
      [apply (f_equal (fun r => match r with
                                | Ok (ComplexValues _) => true
                                | _ => false
                                end)) in Hw;
       vm_compute in Hw; discriminate|].
    destruct (Hv [0; 0; 0]) as (z0 & z1 & z2 & Hperm & H10 & H21 & HAD & _).
    assert (map (fun n => item val [0; 0; 0; n]) [0; 1; 2]
            = [(1, 0); (3, 0.5); (2, -0.5)]%float) as Hval.
    { apply (f_equal (fun r => match r with
                               | Ok (ComplexValues val) =>
                                   map (fun n => item val [0; 0; 0; n])
                                       [0; 1; 2]
                               | _ => []
                               end)) in Hw.
      vm_compute in Hw. exact (eq_sym Hw). }
    cbn [map] in Hval. cbn [app] in Hperm. rewrite Hval in Hperm.
    assert (c_is_nan z0 = false) as Hn0.
    { apply Hcfin. apply (Permutation_in _ Hperm). now left. }
    assert (c_is_nan z1 = false) as Hn1.
    { apply Hcfin. apply (Permutation_in _ Hperm). right. now left. }
    assert (c_is_nan z2 = false) as Hn2.
    { apply Hcfin. apply (Permutation_in _ Hperm). right. right. now left. }
    unfold c_real_nan_to_zero in HAD. rewrite Hn0 in HAD.
    exists st', FA, AD, RD, MD, z0, z1, z2.
    split; [reflexivity|]. split; [exact Hperm|].
    split; [exact (proj1 (proj2 (H10 Hn1)))|].
    split; [exact (proj1 (proj2 (H21 Hn2)))|].
    split; [exact HAD|].
    apply (f_equal (fun r => match snd r with
                             | Ok (_, AD, _, _) => item AD [0; 0; 0]
                             | Raise _ => nan
                             end)) in Hrun.
    vm_compute in Hrun. exact (eq_sym Hrun).
Defined.

Lemma float_0_neq_1 : 0%float <> 1%float.
Proof.
  intros Heq.
  apply (f_equal (fun x => PrimFloat.eqb x 0)) in Heq.
  vm_compute in Heq. discriminate.
Qed.

(** C1 fails as stated.  A field of shape (1,1,1,6) is rejected with an
    IndexError.  On a field of shape (6,1,2,6) the maps have shape
    (1,2,6), not (6,1,2), and the matrix formed at the first voxel has
    t[1,0,0,0] in row 0, column 1, not t[0,0,0,1]. *)
Lemma tensor_to_DTI_xyz6_counterexample :
  snd (tensor_to_DTI diag_eig (full [1; 1; 1; 6] 0%float) default_errstate)
  = Raise IndexError /\
  (exists FA AD RD MD,
     snd (tensor_to_DTI diag_eig field_6126 default_errstate)
     = Ok (FA, AD, RD, MD) /\
     shape FA = [1; 2; 6] /\ shape FA <> firstn 3 (shape field_6126)) /\
  (exists mt,
     tensor_matrix field_6126 = Ok mt /\
     item mt [0; 0; 0; 0; 1] = item field_6126 [1; 0; 0; 0] /\
     item mt [0; 0; 0; 0; 1] <> item field_6126 [0; 0; 0; 1]).
Proof.
  split; [reflexivity|]. split.
  - do 4 eexists. split; [reflexivity|]. split; [reflexivity|].
    discriminate.
  - eexists. split; [reflexivity|]. split; [reflexivity|].
    exact float_0_neq_1.
Qed.

Lemma tensor_matrix_entries (t mt : ndarray float) (x y z : nat)
    (P : float -> Prop) :
  shape mt = [x; y; z; 3; 3] ->
  (forall i j k, in_bounds [x; y; z] [i; j; k] = true ->
                 Forall (Forall P) (matrix_at mt [i; j; k])) ->
  forall idx, in_bounds (shape mt) idx = true -> P (item mt idx).
Proof.
  intros Hs HP idx Hb. rewrite Hs in Hb.
  apply in_bounds_5 in Hb as (i & j & k & p & q & -> & Hb & Hp & Hq).
  apply matrix_entry_Forall; auto.
Qed.

Lemma in_bounds_cons (n : nat) (s : list nat) (i : nat) (idx : list nat) :
  i < n -> in_bounds s idx = true -> in_bounds (n :: s) (i :: idx) = true.
Proof.
  intros Hi Hb. simpl. rewrite Hb. now rewrite (ltb_true _ _ Hi).
Qed.

Lemma in_bounds_snoc2 (x y z a b i j k p q : nat) :
  in_bounds [x; y; z] [i; j; k] = true -> p < a -> q < b ->
  in_bounds [x; y; z; a; b] [i; j; k; p; q] = true.
Proof.
  simpl. rewrite !andb_true_r. intros Hb Hp Hq.
  apply andb_prop in Hb as [Hi Hb]. apply andb_prop in Hb as [Hj Hk].
  now rewrite Hi, Hj, Hk, (ltb_true _ _ Hp), (ltb_true _ _ Hq).
Qed.

(** C1 (amended).  On a rank-4 field whose FIRST axis holds the six
    components, shape (c,x,y,z) with c >= 6, the matrix formed at voxel
    (i,j,k) is [[t0,t1,t2],[t1,t3,t4],[t2,t4,t5]] with tn = t[n,i,j,k];
    every map that is returned has shape (x,y,z), the last three
    dimensions of the input; and maps are returned whenever the entries
    are finite and the solver succeeds. *)
Theorem tensor_to_DTI_rank4_components_first eig3 (t : ndarray float)
    (c x y z : nat) (st : np_errstate) :
  shape t = [c; x; y; z] -> 6 <= c ->
  exists mt,
    tensor_matrix t = Ok mt /\ shape mt = [x; y; z; 3; 3] /\
    (forall i j k,
       matrix_at mt [i; j; k] =
       [[item t [0; i; j; k]; item t [1; i; j; k]; item t [2; i; j; k]];
        [item t [1; i; j; k]; item t [3; i; j; k]; item t [4; i; j; k]];
        [item t [2; i; j; k]; item t [4; i; j; k]; item t [5; i; j; k]]]) /\
    (forall st' FA AD RD MD,
       tensor_to_DTI eig3 t st = (st', Ok (FA, AD, RD, MD)) ->
       shape FA = [x; y; z] /\ shape AD = [x; y; z] /\
       shape RD = [x; y; z] /\ shape MD = [x; y; z]) /\
    ((forall idx, in_bounds (shape t) idx = true ->
                  PrimFloat.is_finite (item t idx) = true) ->
     (forall v, in_bounds [x; y; z] v = true ->
                is_Some (eig3 (matrix_at mt v))) ->
     exists st' FA AD RD MD,
       tensor_to_DTI eig3 t st = (st', Ok (FA, AD, RD, MD))).
Proof.
  intros Hs Hc.
  destruct (tensor_matrix_rank4 t c x y z Hs Hc) as (mt & Hmt & Hsm & Hat).
  exists mt. do 3 (split; [assumption|]). split.
  - intros st' FA AD RD MD Hrun.
    destruct (sorted_eigenvalues eig3 t) as [val|e] eqn:Hv.
    + rewrite (tensor_to_DTI_returns _ _ _ _ Hv) in Hrun.
      destruct (sorted_eigenvalues_item _ _ _ Hv) as (mt' & Hmt' & Hsv & _).
      rewrite Hmt in Hmt'. inversion Hmt'; subst mt'.
      unfold ndim in Hsv. rewrite Hsm in Hsv. simpl in Hsv.
      assert (scalar_maps val = (FA, AD, RD, MD)) as Hout by congruence.
      apply scalar_maps_shape in Hout. now rewrite Hsv in Hout.
    + rewrite (tensor_to_DTI_raises _ _ _ _ Hv) in Hrun. discriminate.
  - intros Hfin Heig.
    assert (linalg_eigvals eig3 mt =
            Ok (mk_ndarray [x; y; z; 3]
                  (fun idx => eig_component (List.last idx 0)
                                (eig3 (matrix_at mt (removelast idx))))))
      as Hraw.
    { apply linalg_eigvals_ok; [exact Hsm| |exact Heig].
      apply (tensor_matrix_entries t mt x y z
               (fun f => PrimFloat.is_finite f = true) Hsm).
      intros i j k Hb. rewrite Hat.
      repeat constructor; apply Hfin; rewrite Hs;
        apply in_bounds_cons; auto; lia. }
    destruct (scalar_maps (np_neg (sort_last (np_neg
                (mk_ndarray [x; y; z; 3]
                  (fun idx => eig_component (List.last idx 0)
                                (eig3 (matrix_at mt (removelast idx)))))))))
      as [[[FA AD] RD] MD] eqn:Hout.
    exists (mk_errstate Warn (err_over st) (err_under st) Warn), FA, AD, RD, MD.
    rewrite <- Hout. apply tensor_to_DTI_returns.
    unfold sorted_eigenvalues. rewrite Hmt. simpl. rewrite Hraw. reflexivity.
Qed.

Lemma in_bounds_111 (v : list nat) :
  in_bounds [1; 1; 1] v = true -> v = [0; 0; 0].
Proof.
  destruct v as [|[|i] [|[|j] [|[|k] [|]]]]; simpl; try discriminate;
    reflexivity.
Qed.

Lemma tensor_to_DTI_rank4_components_first_witness :
  exists mt st' FA AD RD MD,
    tensor_matrix field_6111 = Ok mt /\
    matrix_at mt [0; 0; 0] = [[1; 0; 0]; [0; 3; 0]; [0; 0; 2]]%float /\
    tensor_to_DTI diag_eig field_6111 default_errstate
    = (st', Ok (FA, AD, RD, MD)) /\
    shape FA = [1; 1; 1].
Proof.
  destruct (tensor_to_DTI_rank4_components_first diag_eig field_6111
              6 1 1 1 default_errstate eq_refl (le_n 6))
    as (mt & Hmt & _ & Hat & Hshape & Hrun).
  destruct Hrun as (st' & FA & AD & RD & MD & Hrun).
  - intros idx Hb. simpl in Hb.
    destruct idx as [|a idx]; [discriminate|].
    apply andb_prop in Hb as [Ha Hb]. apply Nat.ltb_lt in Ha.
    destruct a as [|[|[|[|[|[|a]]]]]]; try lia; reflexivity.
  - intros v Hv. apply in_bounds_111 in Hv. subst v. rewrite Hat.
    eexists. reflexivity.
  - exists mt, st', FA, AD, RD, MD.
    split; [exact Hmt|]. split; [exact (Hat 0 0 0)|].
    split; [exact Hrun|]. exact (proj1 (Hshape _ _ _ _ _ Hrun)).
Defined.

Lemma in_bounds_3 (x y z : nat) (v : list nat) :
  in_bounds [x; y; z] v = true -> exists i j k, v = [i; j; k].
Proof.
  destruct v as [|i [|j [|k [|]]]]; simpl;
    rewrite ?andb_false_r; try discriminate; eauto.
Qed.

(** The maps at a voxel whose matrix is zero. *)
Lemma zero_voxel_maps eig3 (t val mt FA AD RD MD : ndarray float)
    (v : list nat) :
  sorted_eigenvalues eig3 t = Ok val ->
  tensor_matrix t = Ok mt ->
  matrix_at mt v = zero3 ->
  eig3 zero3 = Some (0, 0, 0)%float ->
  scalar_maps val = (FA, AD, RD, MD) ->
  item FA v = 0%float /\ item AD v = 0%float /\
  item RD v = 0%float /\ item MD v = 0%float.
Proof.
  intros Hval Hmt Hz Heig Hmaps.
  destruct (sorted_eigenvalues_item _ _ _ Hval) as (mt' & Hmt' & _ & Hitem).
  rewrite Hmt in Hmt'. inversion Hmt'; subst mt'.
  assert (forall n, item val (v ++ [n]) =
                    (- nth n (np_sort (map PrimFloat.opp [0; 0; 0])) nan)%float)
    as Hv.
  { intros n. rewrite Hitem. unfold voxel_eigs. now rewrite Hz, Heig. }
  unfold scalar_maps in Hmaps. inversion Hmaps; subst; clear Hmaps.
  unfold nan_to_zero, np_sqrt, np_div, np_divc, np_add, np_sub, np_power2,
    np_scale, take_last, map1, map2.
  cbn [item]. rewrite !Hv. repeat split; vm_compute; reflexivity.
Qed.

(** On an all-zero field of an accepted shape the maps are returned and
    are zero. *)
Lemma zero_field_maps eig3 (t : ndarray float)
    (st : np_errstate) :
  accepted_shape (shape t) ->
  (forall idx, in_bounds (shape t) idx = true -> item t idx = 0%float) ->
  eig3 zero3 = Some (0, 0, 0)%float ->
  exists st' FA AD RD MD,
    tensor_to_DTI eig3 t st = (st', Ok (FA, AD, RD, MD)) /\
    shape FA = voxel_grid (shape t) /\
    shape AD = shape FA /\ shape RD = shape FA /\ shape MD = shape FA /\
    forall v, in_bounds (shape FA) v = true ->
      item FA v = 0%float /\ item AD v = 0%float /\
      item RD v = 0%float /\ item MD v = 0%float.
Proof.
  intros Hacc Hzero Heig.
  assert (exists mt x y z,
             tensor_matrix t = Ok mt /\ shape mt = [x; y; z; 3; 3] /\
             voxel_grid (shape t) = [x; y; z] /\
             forall i j k, in_bounds [x; y; z] [i; j; k] = true ->
                           matrix_at mt [i; j; k] = zero3)
    as (mt & x & y & z & Hmt & Hsm & Hgrid & Hat).
  { destruct (shape t) as [|d0 [|d1 [|d2 [|d3 [|d4 [|]]]]]] eqn:Hs;
      simpl in Hacc; try contradiction.
    - destruct (tensor_matrix_rank4 t d0 d1 d2 d3 Hs Hacc)
        as (mt & Hmt & Hsm & Hat).
      exists mt, d1, d2, d3. split; [exact Hmt|]. split; [exact Hsm|].
      split; [reflexivity|]. intros i j k Hb. rewrite Hat. unfold zero3.
      rewrite !Hzero; [reflexivity|..]; apply in_bounds_cons; auto; lia.
    - destruct Hacc as [Ha Hb].
      destruct (tensor_matrix_rank5 t d0 d1 d2 d3 d4 Hs Ha Hb)
        as (mt & Hmt & Hsm & Hat).
      exists mt, d0, d1, d2. split; [exact Hmt|]. split; [exact Hsm|].
      split; [reflexivity|]. intros i j k Hbd. rewrite Hat. unfold zero3.
      rewrite !Hzero; [reflexivity|..]; apply in_bounds_snoc2; auto; lia. }
  assert (linalg_eigvals eig3 mt =
          Ok (mk_ndarray [x; y; z; 3]
                (fun idx => eig_component (List.last idx 0)
                              (eig3 (matrix_at mt (removelast idx))))))
    as Hraw.
  { apply linalg_eigvals_ok; [exact Hsm| |].
    - apply (tensor_matrix_entries t mt x y z
               (fun f => PrimFloat.is_finite f = true) Hsm).
      intros i j k Hb. rewrite (Hat i j k Hb).
      repeat constructor.
    - intros v Hb. destruct (in_bounds_3 _ _ _ _ Hb) as (i & j & k & ->).
      rewrite (Hat i j k Hb), Heig. eexists. reflexivity. }
  assert (exists val, sorted_eigenvalues eig3 t = Ok val /\
                      shape val = [x; y; z; 3]) as (val & Hval & Hsv).
  { eexists. unfold sorted_eigenvalues. rewrite Hmt. simpl. rewrite Hraw.
    simpl. split; reflexivity. }
  destruct (scalar_maps val) as [[[FA AD] RD] MD] eqn:Hout.
  exists (mk_errstate Warn (err_over st) (err_under st) Warn), FA, AD, RD, MD.
  rewrite <- Hout. split; [now apply tensor_to_DTI_returns|].
  destruct (scalar_maps_shape _ _ _ _ _ Hout) as (HFA & HAD & HRD & HMD).
  rewrite HFA, HAD, HRD, HMD, Hgrid, Hsv. simpl.
  do 4 (split; [reflexivity|]). intros v Hb.
  destruct (in_bounds_3 _ _ _ _ Hb) as (i & j & k & ->).
  apply (zero_voxel_maps eig3 t val mt FA AD RD MD); auto.
Qed.


(** Outside the accepted shapes the indexing or the final transposition
    raises, so [accepted_shape] is exactly the domain on which the array
    handed to the solver gets built. *)
Lemma tensor_matrix_raises_outside (t : ndarray float) :
  ~ accepted_shape (shape t) -> exists e, tensor_matrix t = Raise e.
Proof.
  intros Hna. destruct t as [s it]. simpl in Hna.
  unfold tensor_matrix, component_rows, slice3, ndim. cbn [shape].
  destruct s as [|d0 [|d1 [|d2 [|d3 [|d4 rest]]]]];
    try (eexists; reflexivity).
  - simpl in Hna.
    destruct d0 as [|[|[|[|[|[|d0]]]]]]; try (eexists; reflexivity).
    exfalso. apply Hna. lia.
  - destruct d3 as [|d3]; [eexists; reflexivity|].
    destruct d4 as [|[|[|[|[|[|d4]]]]]]; try (eexists; reflexivity).
    destruct rest as [|d5 rest]; [|eexists; reflexivity].
    exfalso. apply Hna. simpl. lia.
Qed.

Lemma accepted_shape_dec (s : list nat) :
  accepted_shape s \/ ~ accepted_shape s.
Proof.
  destruct s as [|d0 [|d1 [|d2 [|d3 [|d4 [|]]]]]]; simpl;
    try (right; tauto).
  - destruct (le_lt_dec 6 d0); [left|right]; lia.
  - destruct (le_lt_dec 1 d3), (le_lt_dec 6 d4); [left|right..]; lia.
Qed.

(** tensor_to_DTI returns on accepted shapes only. *)
Lemma tensor_to_DTI_returns_accepted eig3 (t : ndarray float)
    (st st' : np_errstate) (out : maps) :
  tensor_to_DTI eig3 t st = (st', Ok out) -> accepted_shape (shape t).
Proof.
  intros Hrun. destruct (accepted_shape_dec (shape t)) as [Hacc|Hna];
    [exact Hacc|].
  destruct (tensor_matrix_raises_outside t Hna) as [e He].
  rewrite (tensor_to_DTI_raises eig3 t st e) in Hrun; [discriminate|].
  unfold sorted_eigenvalues. now rewrite He.
Qed.

(** C5. For an all-zero tensor field, and a solver that finds the
    eigenvalues (0,0,0) of the zero matrix: whenever tensor_to_DTI
    returns, the four maps have the shape of the voxel grid and are 0.0
    at every voxel, so hold no NaN and no infinity (the NaN that 0/0
    leaves in FA has been replaced by 0.0); and it does return on every
    shape whose indexing is in range. *)
Theorem tensor_to_DTI_zero_field eig3 (t : ndarray float)
    (st : np_errstate) :
  (forall idx, in_bounds (shape t) idx = true -> item t idx = 0%float) ->
  eig3 zero3 = Some (0, 0, 0)%float ->
  (forall st' FA AD RD MD,
     tensor_to_DTI eig3 t st = (st', Ok (FA, AD, RD, MD)) ->
     shape FA = voxel_grid (shape t) /\
     shape AD = shape FA /\ shape RD = shape FA /\ shape MD = shape FA /\
     forall v, in_bounds (shape FA) v = true ->
       item FA v = 0%float /\ item AD v = 0%float /\
       item RD v = 0%float /\ item MD v = 0%float) /\
  (accepted_shape (shape t) ->
   exists st' FA AD RD MD,
     tensor_to_DTI eig3 t st = (st', Ok (FA, AD, RD, MD))).
Proof.
  intros Hzero Heig. split.
  - intros st' FA AD RD MD Hrun.
    pose proof (tensor_to_DTI_returns_accepted _ _ _ _ _ Hrun) as Hacc.
    destruct (zero_field_maps eig3 t st Hacc Hzero Heig)
      as (st2 & FA2 & AD2 & RD2 & MD2 & Hrun2 & Hmaps).
    rewrite Hrun in Hrun2. inversion Hrun2; subst. exact Hmaps.
  - intros Hacc.
    destruct (zero_field_maps eig3 t st Hacc Hzero Heig)
      as (st2 & FA2 & AD2 & RD2 & MD2 & Hrun2 & _).
    eauto 10.
Qed.

Lemma tensor_to_DTI_zero_field_witness :
  exists st' FA AD RD MD,
    tensor_to_DTI diag_eig (full [2; 1; 1; 1; 6] 0%float) default_errstate
    = (st', Ok (FA, AD, RD, MD)) /\
    shape FA = [2; 1; 1] /\
    item FA [1; 0; 0] = 0%float /\ item AD [1; 0; 0] = 0%float /\
    item RD [1; 0; 0] = 0%float /\ item MD [1; 0; 0] = 0%float.
Proof.
  destruct (tensor_to_DTI_zero_field diag_eig (full [2; 1; 1; 1; 6] 0%float)
              default_errstate) as (Hmaps & Hruns).
  - intros idx _. reflexivity.
  - reflexivity.
  - destruct Hruns as (st' & FA & AD & RD & MD & Hrun); [simpl; lia|].
    destruct (Hmaps st' FA AD RD MD Hrun) as (Hs & _ & _ & _ & Hz).
    exists st', FA, AD, RD, MD. split; [exact Hrun|]. split; [exact Hs|].
    apply Hz. now rewrite Hs.
Defined.

(** The state in which an exception leaves numpy's error handling. *)
Lemma tensor_to_DTI_raise_state eig3 (t : ndarray float)
    (st st' : np_errstate) (e : pyexn) :
  tensor_to_DTI eig3 t st = (st', Raise e) ->
  err_divide st' = Ignore /\ err_invalid st' = Ignore.
Proof.
  intros Hrun. destruct (sorted_eigenvalues eig3 t) as [val|e'] eqn:Hv.
  - rewrite (tensor_to_DTI_returns _ _ _ _ Hv) in Hrun. discriminate.
  - rewrite (tensor_to_DTI_raises _ _ _ _ Hv) in Hrun.
    inversion Hrun; subst. auto.
Qed.

(** C6 does not hold of the code.  Started with numpy's default error
    state (divide and invalid set to warn), a call on a field with NaN
    entries is stopped by the LinAlgError of the eigen solver, and a
    call on a rank-4 field with fewer than six entries on its first axis
    by an IndexError; either way the state left behind has divide and
    invalid set to ignore: the suppression outlives the call. *)
Theorem tensor_to_DTI_error_keeps_warnings_ignored :
  tensor_to_DTI diag_eig nan_field default_errstate
  = (mk_errstate Ignore Warn Ignore Ignore, Raise LinAlgError) /\
  tensor_to_DTI diag_eig (full [1; 1; 1; 6] 0%float) default_errstate
  = (mk_errstate Ignore Warn Ignore Ignore, Raise IndexError).
Proof. split; reflexivity. Qed.

(* ------------------------------------------------------------------ *)
(** ** unravel/viz.py: compute_alpha_surface *)

Import Viz.

Section AlphaSurfaceFacts.

Context {F : Type} `{Scalar F}.
Variables Vec Rest : Type.
Variables ang raw cfo : kernel (F := F) Vec Rest.

Abbreviation step_of := (kernel_step Vec Rest).
Abbreviation surface := (compute_alpha_surface Vec Rest ang raw cfo).
Abbreviation selected := (selected_kernel Vec Rest ang raw cfo).

Lemma fold_left_pointwise {A B} (f g : A -> B -> A) (l : list B) (a : A) :
  (forall x y, f x y = g x y) -> fold_left f l a = fold_left g l a.
Proof.
  intros Hfg. revert a. induction l as [|b l IH]; intros a; simpl.
  - reflexivity.
  - now rewrite Hfg, IH.
Qed.

(** The branch taken in the loop is the selected kernel's. *)
Lemma surface_step_selected (vList : list Vec) (nList : list Z)
    (method : string) (g : grids) (xyz : list nat) :
  surface_step Vec Rest ang raw cfo vList nList method g xyz
  = step_of (selected method) vList nList g xyz.
Proof.
  destruct g as [[[x y] z] coef].
  unfold surface_step, kernel_step, selected_kernel.
  destruct (String.eqb method "raw"); [reflexivity|].
  destruct (String.eqb method "cfo"); reflexivity.
Qed.

Lemma compute_alpha_surface_selected (vList : list Vec) (method : string) :
  surface vList method = surface_with Vec Rest (selected method) vList.
Proof.
  unfold compute_alpha_surface, surface_with, initial_grids.
  apply fold_left_pointwise. intros g xyz. apply surface_step_selected.
Qed.

(** C3. For a method string other than 'raw' and 'cfo' the surface is
    the one built with angular_weighting at every grid point, the same
    as for 'ang'; the function is total, so no string is an error;
    'raw' builds with relative_angular_weighting and 'cfo' with
    closest_fixel_only. *)
Theorem compute_alpha_surface_dispatch (vList : list Vec) (method : string) :
  method <> "raw"%string -> method <> "cfo"%string ->
  surface vList method = surface_with Vec Rest ang vList /\
  surface vList method = surface vList "ang" /\
  surface vList "raw" = surface_with Vec Rest raw vList /\
  surface vList "cfo" = surface_with Vec Rest cfo vList.
Proof.
  intros Hraw Hcfo.
  assert (selected method = ang) as Hsel.
  { unfold selected_kernel.
    apply String.eqb_neq in Hraw, Hcfo. now rewrite Hraw, Hcfo. }
  rewrite !compute_alpha_surface_selected, Hsel. repeat split.
Qed.

Lemma setitem_same {A} (a : ndarray A) (idx : list nat) (v : A) :
  item (setitem a idx v) idx = v.
Proof. unfold setitem. simpl. now rewrite bool_decide_eq_true_2. Qed.

Lemma setitem_other {A} (a : ndarray A) (idx idx' : list nat) (v : A) :
  idx' <> idx -> item (setitem a idx v) idx' = item a idx'.
Proof.
  intros Hne. unfold setitem. simpl. now rewrite bool_decide_eq_false_2.
Qed.

Lemma kernel_step_same k vList nList (g : grids) (xyz : list nat) :
  scaled_at Vec Rest k vList nList g (step_of k vList nList g xyz) xyz.
Proof.
  destruct g as [[[x y] z] coef].
  unfold scaled_at, coefficient_at, kernel_step, grid_x, grid_y, grid_z,
    grid_coef. simpl fst. simpl snd.
  now rewrite !setitem_same.
Qed.

Lemma kernel_step_other k vList nList (g : grids) (xyz idx : list nat) :
  idx <> xyz -> same_at g (step_of k vList nList g xyz) idx.
Proof.
  intros Hne. destruct g as [[[x y] z] coef].
  unfold same_at, kernel_step, grid_x, grid_y, grid_z, grid_coef.
  simpl fst. simpl snd. now rewrite !setitem_other.
Qed.

(** The loop visits every index once: an index on the list ends up
    scaled by the coefficient computed from its initial value, and an
    index off the list is left alone. *)
Lemma kernel_fold_spec k vList nList (l : list (list nat)) :
  List.NoDup l ->
  forall (g : grids) (idx : list nat),
    let g' := fold_left (step_of k vList nList) l g in
    (In idx l -> scaled_at Vec Rest k vList nList g g' idx) /\
    (~ In idx l -> same_at g g' idx).
Proof.
  induction 1 as [|i l Hni Hnd IH]; intros g idx; simpl.
  - split; [intros []|]. intros _. repeat split.
  - destruct (IH (step_of k vList nList g i) idx) as [IHin IHout].
    split.
    + intros [->|Hin].
      * destruct (IHout Hni) as (Hx & Hy & Hz & Hc).
        destruct (kernel_step_same k vList nList g idx) as (Sx & Sy & Sz & Sc).
        unfold scaled_at. now rewrite Hx, Hy, Hz, Hc.
      * assert (idx <> i) as Hne by (intros ->; contradiction).
        destruct (IHin Hin) as (Hx & Hy & Hz & Hc).
        destruct (kernel_step_other k vList nList g i idx Hne)
          as (Ox & Oy & Oz & Oc).
        unfold scaled_at, coefficient_at in *.
        now rewrite Hx, Hy, Hz, Hc, Ox, Oy, Oz.
    + intros Hnot.
      assert (idx <> i) as Hne by (intros ->; apply Hnot; now left).
      assert (~ In idx l) as Hnl by (intros Hin; apply Hnot; now right).
      destruct (IHout Hnl) as (Hx & Hy & Hz & Hc).
      destruct (kernel_step_other k vList nList g i idx Hne)
        as (Ox & Oy & Oz & Oc).
      unfold same_at. now rewrite Hx, Hy, Hz, Hc.
Qed.

(** C4. At every index (i,j) of the 200x200 grid the returned mesh
    point is the point (cos u_i sin v_j, sin u_i sin v_j, cos v_j) of the
    unit sphere, each coordinate multiplied by coef[i,j] + 1, and
    coef[i,j] is the first value the selected kernel returns on that
    unscaled point, vList and nList = [0]*len(vList).  (The z grid is
    built as 1 * cos v_j; multiplying by one is taken to be exact.) *)
Theorem compute_alpha_surface_mesh (vList : list Vec) (method : string)
    (i j : nat) :
  (forall c : F, fmul (of_nat 1) c = c) ->
  i < 200 -> j < 200 ->
  let g := surface vList method in
  let px := fmul (fcos (item grid_u [i])) (fsin (item grid_v [j])) in
  let py := fmul (fsin (item grid_u [i])) (fsin (item grid_v [j])) in
  let pz := fcos (item grid_v [j]) in
  let a := fst (selected method [px; py; pz] vList
                  (repeat 0%Z (length vList))) in
  item (grid_x g) [i; j] = fmul px (fadd a (of_nat 1)) /\
  item (grid_y g) [i; j] = fmul py (fadd a (of_nat 1)) /\
  item (grid_z g) [i; j] = fmul pz (fadd a (of_nat 1)) /\
  item (grid_coef g) [i; j] = a.
Proof.
  intros Hone Hi Hj g px py pz a.
  assert (In [i; j] (ndindex [200; 200])) as Hmem.
  { apply in_ndindex. apply in_bounds_cons; [exact Hi|].
    apply in_bounds_cons; [exact Hj|reflexivity]. }
  assert (scaled_at Vec Rest (selected method) vList (repeat 0%Z (length vList))
            initial_grids (surface_with Vec Rest (selected method) vList)
            [i; j]) as Hspec.
  { unfold surface_with.
    exact (proj1 (kernel_fold_spec (selected method) vList
                    (repeat 0%Z (length vList)) (ndindex [200; 200])
                    (NoDup_ndindex _) initial_grids [i; j]) Hmem). }
  rewrite <- compute_alpha_surface_selected in Hspec. fold g in Hspec.
  clearbody g. clear Hmem.
  assert (item (grid_z initial_grids) [i; j] = pz) as Hz0
    by apply Hone.
  destruct Hspec as (Hx & Hy & Hz & Hc).
  unfold coefficient_at in Hx, Hy, Hz, Hc. rewrite Hz0 in Hx, Hy, Hz, Hc.
  repeat split; assumption.
Qed.

End AlphaSurfaceFacts.

(* ------------------------------------------------------------------ *)
(** ** unravel/viz.py: overlap_volumes computes [overlay] *)

Lemma bind_ok {S A B} (c : M S A) (k : A -> M S B) (st st' : S) (a : A) :
  c st = (st', Ok a) -> bind c k st = k a st'.
Proof. intros Hc. unfold bind. now rewrite Hc. Qed.

Lemma bind_raise {S A B} (c : M S A) (k : A -> M S B) (st st' : S) e :
  c st = (st', Raise e) -> bind c k st = (st', Raise e).
Proof. intros Hc. unfold bind. now rewrite Hc. Qed.

Lemma bind_lift {S A B} (r : result A) (k : A -> M S B) (st : S) :
  bind (lift r) k st = match r with Ok a => k a st | Raise e => (st, Raise e) end.
Proof. unfold bind, lift. now destruct r. Qed.

Lemma bind_run {S A B} (c : M S A) (k : A -> M S B) (st st' : S)
    (r : result A) :
  c st = (st', r) ->
  bind c k st = match r with Ok a => k a st' | Raise e => (st', Raise e) end.
Proof. intros Hc. unfold bind. now rewrite Hc. Qed.

Section OverlapFacts.
Variable resample : ndarray float -> list (nat * nat) -> nat -> list nat -> float.

Lemma preserved_refl back h : preserved back h h.
Proof. split; auto. Qed.

Lemma preserved_trans back h1 h2 h3 :
  preserved back h1 h2 -> preserved back h2 h3 -> preserved back h1 h3.
Proof.
  intros [Hl1 H1] [Hl2 H2]. split; [lia|].
  intros a Ha Hne. rewrite H2 by (auto; lia). now apply H1.
Qed.

Lemma preserved_alloc back h x : preserved back h (h ++ [x]).
Proof.
  split; [rewrite length_app; lia|].
  intros a Ha _. now apply lookup_app_l.
Qed.

Lemma preserved_write back h0 h a x :
  preserved back h0 h -> length h0 <= a \/ a = back ->
  preserved back h0 (<[a := x]> h).
Proof.
  intros [Hl Hp] Ha. split; [now rewrite length_insert|].
  intros b Hb Hne. rewrite list_lookup_insert_ne by lia. now apply Hp.
Qed.

Lemma lookup_snoc (h : list (ndarray float)) x : (h ++ [x]) !! length h = Some x.
Proof. now apply list_lookup_middle. Qed.

Lemma read_ok h vl a V :
  h !! a = Some V -> read a (mk_pystate h vl) = (mk_pystate h vl, Ok V).
Proof. intros Ha. unfold read. cbn. now rewrite Ha. Qed.

Lemma alloc_ok h vl Z :
  alloc Z (mk_pystate h vl) = (mk_pystate (h ++ [Z]) vl, Ok (length h)).
Proof. reflexivity. Qed.

Lemma write_ok h vl a Z :
  write a Z (mk_pystate h vl) = (mk_pystate (<[a := Z]> h) vl, Ok tt).
Proof. reflexivity. Qed.

Lemma paste_layer_spec max_size order back layer h vl L B :
  h !! layer = Some L -> h !! back = Some B ->
  exists h',
    preserved back h h' /\
    match (P <~ prepare_rgb resample max_size order L ;;
           assign_where_nonzero B P) with
    | Ok B' =>
        paste_layer resample max_size order back layer (mk_pystate h vl)
        = (mk_pystate h' vl, Ok tt) /\ h' !! back = Some B'
    | Raise e =>
        paste_layer resample max_size order back layer (mk_pystate h vl)
        = (mk_pystate h' vl, Raise e) /\ h' !! back = Some B
    end.
Proof.
  intros Hlayer Hback.
  pose proof (lookup_lt_Some _ _ _ Hback) as Hbl.
  unfold paste_layer, prepare_rgb.
  rewrite (bind_ok _ _ _ _ _ (read_ok _ _ _ _ Hlayer)), bind_lift.
  destruct (rmapM py_truediv _) as [factors|e]; cbn [rbind].
  2:{ exists h. auto using preserved_refl. }
  rewrite bind_lift.
  destruct (zoom resample L _ order) as [Z|e]; cbn [rbind].
  2:{ exists h. auto using preserved_refl. }
  rewrite (bind_ok _ _ _ _ _ (alloc_ok _ _ _)).
  rewrite (bind_ok _ _ _ _ _ (read_ok _ _ _ _ (lookup_snoc h Z))), bind_lift.
  destruct (np_max Z) as [m|e]; cbn [rbind].
  2:{ exists (h ++ [Z]). split; [apply preserved_alloc|]. split; [reflexivity|].
      now rewrite lookup_app_l. }
  rewrite (bind_ok _ _ _ _ _ (write_ok _ _ _ _)).
  assert (<[length h := divide_by m Z]> (h ++ [Z]) !! length h
          = Some (divide_by m Z)) as Hn.
  { apply list_lookup_insert_eq. rewrite length_app. simpl. lia. }
  assert (<[length h := divide_by m Z]> (h ++ [Z]) !! back = Some B) as Hb2.
  { rewrite list_lookup_insert_ne by lia. now rewrite lookup_app_l. }
  rewrite (bind_ok _ _ _ _ _ (read_ok _ _ _ _ Hn)).
  rewrite (bind_ok _ _ _ _ _ (read_ok _ _ _ _ Hb2)), bind_lift.
  assert (preserved back h (<[length h := divide_by m Z]> (h ++ [Z]))) as Hp.
  { apply preserved_write; [apply preserved_alloc|lia]. }
  destruct (assign_where_nonzero B (divide_by m Z)) as [B'|e].
  - rewrite write_ok. eexists. split; [|split; [reflexivity|]].
    + apply preserved_write; [exact Hp|auto].
    + apply list_lookup_insert_eq. rewrite length_insert, length_app. lia.
  - eexists. split; [exact Hp|]. split; [reflexivity|exact Hb2].
Qed.

Lemma process_layer_spec max_size order back layer h vl V B :
  h !! layer = Some V -> h !! back = Some B ->
  exists h',
    preserved back h h' /\
    match (P <~ prepare_layer resample max_size order V ;;
           assign_where_nonzero B P) with
    | Ok B' =>
        process_layer resample max_size order back layer (mk_pystate h vl)
        = (mk_pystate h' vl, Ok tt) /\ h' !! back = Some B'
    | Raise e =>
        process_layer resample max_size order back layer (mk_pystate h vl)
        = (mk_pystate h' vl, Raise e) /\ h' !! back = Some B
    end.
Proof.
  intros Hlayer Hback.
  pose proof (lookup_lt_Some _ _ _ Hback) as Hbl.
  unfold process_layer, prepare_layer.
  rewrite (bind_ok _ _ _ _ _ (read_ok _ _ _ _ Hlayer)), bind_lift.
  destruct (last_dim (shape V)) as [d|e]; cbn [rbind].
  2:{ exists h. auto using preserved_refl. }
  destruct (negb (d =? 3)%nat).
  - destruct (grayscale_to_rgb V) as [G|e] eqn:HG; cbn [rbind].
    + rewrite (bind_ok _ _ (mk_pystate h vl) (mk_pystate (h ++ [G]) vl)
                 (length h)) by (now rewrite bind_lift).
      destruct (paste_layer_spec max_size order back (length h) (h ++ [G]) vl
                  G B (lookup_snoc h G))
        as (h' & Hp & Hrun); [now rewrite lookup_app_l|].
      exists h'. split; [|exact Hrun].
      eapply preserved_trans; [apply preserved_alloc|exact Hp].
    + rewrite (bind_raise _ _ (mk_pystate h vl) (mk_pystate h vl) e)
        by (now rewrite bind_lift).
      exists h. auto using preserved_refl.
  - cbn [rbind].
    rewrite (bind_ok _ _ (mk_pystate h vl) (mk_pystate h vl) layer)
      by reflexivity.
    apply paste_layer_spec; assumption.
Qed.

Lemma list_pop_snoc h vl a :
  list_pop (mk_pystate h (vl ++ [a])) = (mk_pystate h vl, Ok a).
Proof.
  unfold list_pop. cbn [vol_list arrays].
  now rewrite rev_unit, removelast_last.
Qed.

Lemma lookups_preserved back h h' (vl : list nat) (Vs : list (ndarray float)) :
  preserved back h h' -> Forall (fun a => a <> back) vl ->
  Forall2 (fun a V => h !! a = Some V) vl Vs ->
  Forall2 (fun a V => h' !! a = Some V) vl Vs.
Proof.
  intros [_ Hp] Hne HVs. induction HVs as [|a V vl Vs Ha HVs IH].
  - constructor.
  - apply Forall_cons in Hne as [Hab Hne]. constructor; [|now apply IH].
    rewrite Hp; [exact Ha| |exact Hab]. now apply lookup_lt_Some in Ha.
Qed.

(** The loop pastes the volumes of the list, last first, and leaves the
    list empty. *)
Lemma compose_layers_spec max_size order back (vl : list nat) :
  forall (Vs : list (ndarray float)) (fuel : nat) (h : list (ndarray float))
         (B : ndarray float),
    length vl <= fuel ->
    Forall2 (fun a V => h !! a = Some V) vl Vs ->
    Forall (fun a => a <> back) vl ->
    h !! back = Some B ->
    exists h' vl',
      preserved back h h' /\
      match composite resample max_size order (List.rev Vs) B with
      | Ok B' =>
          compose_layers resample fuel max_size order back (mk_pystate h vl)
          = (mk_pystate h' [], Ok tt) /\ h' !! back = Some B'
      | Raise e =>
          compose_layers resample fuel max_size order back (mk_pystate h vl)
          = (mk_pystate h' vl', Raise e)
      end.
Proof.
  induction vl as [|a vl IH] using rev_ind; intros Vs fuel h B Hfuel HVs Hne Hb.
  - apply Forall2_nil_inv_l in HVs. subst Vs. cbn [List.rev composite].
    exists h, []. split; [apply preserved_refl|].
    destruct fuel; split; auto.
  - apply Forall2_app_inv_l in HVs as (Vs0 & Vs1 & HVs0 & HVs1 & ->).
    apply Forall2_cons_inv_l in HVs1 as (V & Vs2 & Ha & HVs2 & ->).
    apply Forall2_nil_inv_l in HVs2. subst Vs2.
    apply Forall_app in Hne as [Hne0 Hne1].
    rewrite rev_unit. cbn [composite].
    rewrite length_app in Hfuel. simpl in Hfuel.
    destruct fuel as [|fuel]; [lia|].
    cbn [compose_layers].
    rewrite (bind_ok _ _ (mk_pystate h (vl ++ [a])) (mk_pystate h (vl ++ [a]))
               (length (vl ++ [a]))) by reflexivity.
    replace (0 <? length (vl ++ [a]))%nat with true
      by (symmetry; apply Nat.ltb_lt; rewrite length_app; simpl; lia).
    rewrite (bind_ok _ _ _ _ _ (list_pop_snoc h vl a)).
    destruct (process_layer_spec max_size order back a h vl V B Ha Hb)
      as (h1 & Hp1 & Hrun).
    destruct (prepare_layer resample max_size order V) as [P|e]; cbn [rbind] in *.
    2:{ destruct Hrun as [Hrun _]. rewrite (bind_raise _ _ _ _ _ Hrun).
        exists h1, vl. auto. }
    destruct (assign_where_nonzero B P) as [B1|e]; cbn [rbind] in *.
    2:{ destruct Hrun as [Hrun _]. rewrite (bind_raise _ _ _ _ _ Hrun).
        exists h1, vl. auto. }
    destruct Hrun as [Hrun Hb1]. rewrite (bind_ok _ _ _ _ _ Hrun).
    destruct (IH Vs0 fuel h1 B1) as (h' & vl' & Hp & Hrec); auto; [lia| |].
    { now apply (lookups_preserved back h). }
    exists h', vl'. split; [now apply (preserved_trans back h h1)|].
    exact Hrec.
Qed.

Lemma lookups_lt h (vl : list nat) (Vs : list (ndarray float)) :
  Forall2 (fun a V => h !! a = Some V) vl Vs ->
  Forall (fun a => a <> length h) vl.
Proof.
  induction 1 as [|a V vl Vs Ha HVs IH]; constructor; [|exact IH].
  apply lookup_lt_Some in Ha. lia.
Qed.

Lemma scan_sizes_spec (vl : list nat) :
  forall (Vs : list (ndarray float)) (ms : list nat) (st : pystate),
    Forall2 (fun a V => arrays st !! a = Some V) vl Vs ->
    scan_sizes vl ms st = (st, scan_shapes (map shape Vs) ms).
Proof.
  induction vl as [|a vl IH]; intros Vs ms st HVs.
  - apply Forall2_nil_inv_l in HVs. now subst Vs.
  - apply Forall2_cons_inv_l in HVs as (V & Vs' & Ha & HVs' & ->).
    cbn [scan_sizes map scan_shapes]. destruct st as [h vl0].
    rewrite (bind_ok _ _ _ _ _ (read_ok _ _ _ _ Ha)), bind_lift.
    destruct (unpack3 (shape V)) as [[[x y] z]|e]; cbn [rbind]; [|reflexivity].
    now apply IH.
Qed.

(** overlap_volumes computes [overlay] of the volumes the list names,
    empties the list, and leaves every array that was on the heap as it
    was. *)
Lemma overlap_volumes_spec (rgb : bool) (order : nat) (st : pystate)
    (Vs : list (ndarray float)) :
  volumes_of st Vs ->
  exists h' vl',
    preserved (length (arrays st)) (arrays st) h' /\
    match overlay resample rgb order Vs with
    | Ok out =>
        overlap_volumes resample rgb order st = (mk_pystate h' [], Ok out)
    | Raise e =>
        overlap_volumes resample rgb order st = (mk_pystate h' vl', Raise e)
    end.
Proof.
  unfold volumes_of, overlay, overlap_volumes. destruct st as [h vl].
  cbn [arrays vol_list]. intros HVs.
  rewrite (bind_ok _ _ (mk_pystate h vl) (mk_pystate h vl) (mk_pystate h vl))
    by reflexivity.
  cbn [vol_list].
  rewrite (bind_run _ _ _ _ _
             (scan_sizes_spec vl Vs [0; 0; 0] (mk_pystate h vl) HVs)).
  destruct (scan_shapes (map shape Vs) [0; 0; 0]) as [ms|e]; cbn [rbind].
  2:{ exists h, vl. split; [apply preserved_refl|reflexivity]. }
  rewrite (bind_ok _ _ _ _ _ (alloc_ok _ _ _)).
  destruct (compose_layers_spec ms order (length h) vl Vs (length vl)
              (h ++ [full (ms ++ [3]) 0%float]) (full (ms ++ [3]) 0%float))
    as (h' & vl' & Hp & Hrun).
  - lia.
  - eapply Forall2_impl; [exact HVs|]. intros a V Ha. cbn beta.
    rewrite lookup_app_l; [exact Ha|]. now apply lookup_lt_Some in Ha.
  - now apply (lookups_lt h vl Vs).
  - apply lookup_snoc.
  - assert (preserved (length h) h h') as Hp'.
    { eapply preserved_trans; [apply preserved_alloc|exact Hp]. }
    destruct (composite resample ms order (List.rev Vs) _) as [B|e];
      cbn [rbind].
    + destruct Hrun as [Hrun Hb]. rewrite (bind_ok _ _ _ _ _ Hrun).
      rewrite (bind_ok _ _ _ _ _ (read_ok _ _ _ _ Hb)).
      exists h', []. split; [exact Hp'|]. now destruct rgb.
    + rewrite (bind_raise _ _ _ _ _ Hrun). exists h', vl'. auto.
Qed.

End OverlapFacts.

(* ------------------------------------------------------------------ *)
(** ** unravel/viz.py: the overlay of documented volumes *)

Section OverlayFacts.
Variable resample : ndarray float -> list (nat * nat) -> nat -> list nat -> float.

Lemma update_max_triple (m0 m1 m2 x y z : nat) :
  fold_left update_max (enumerate [x; y; z]) [m0; m1; m2]
  = [Nat.max m0 x; Nat.max m1 y; Nat.max m2 z].
Proof.
  unfold enumerate. cbn [length seq combine fold_left].
  unfold update_max at 3. cbn [nth].
  destruct (Nat.ltb_spec m0 x);
    [rewrite (Nat.max_r m0 x) by lia|rewrite (Nat.max_l m0 x) by lia];
    cbn [insert list_insert];
    unfold update_max at 2; cbn [nth];
    (destruct (Nat.ltb_spec m1 y);
     [rewrite (Nat.max_r m1 y) by lia|rewrite (Nat.max_l m1 y) by lia]);
    cbn [insert list_insert];
    unfold update_max; cbn [nth];
    (destruct (Nat.ltb_spec m2 z);
     [rewrite (Nat.max_r m2 z) by lia|rewrite (Nat.max_l m2 z) by lia]);
    reflexivity.
Qed.

Lemma scan_shapes_max (shapes : list (list nat)) :
  Forall (fun s => 3 <= length s) shapes ->
  forall m0 m1 m2,
    scan_shapes shapes [m0; m1; m2]
    = Ok [Nat.max m0 (axis_max 0 shapes); Nat.max m1 (axis_max 1 shapes);
          Nat.max m2 (axis_max 2 shapes)].
Proof.
  induction 1 as [|s shapes Hs Hall IH]; intros m0 m1 m2.
  - unfold axis_max. simpl. now rewrite !Nat.max_0_r.
  - destruct s as [|x [|y [|z rest]]]; simpl in Hs; try lia.
    cbn [scan_shapes].
    change (unpack3 (x :: y :: z :: rest)) with (Ok (x, y, z)).
    cbn [rbind].
    rewrite update_max_triple, IH. unfold axis_max. cbn [map fold_right nth].
    now rewrite !Nat.max_assoc.
Qed.

Lemma zoomed_dim_self (d i : nat) : 0 < d -> zoomed_dim d (i, d) = i.
Proof.
  intros Hd. unfold zoomed_dim.
  rewrite (Nat.mul_comm d i), Nat.div_mul, Nat.Div0.mod_mul by lia.
  now rewrite (ltb_true (2 * 0) d) by lia.
Qed.

Lemma ndindex_nonempty (s : list nat) :
  Forall (fun n => 0 < n) s -> ndindex s <> [].
Proof.
  intros Hs.
  assert (In (map (fun _ => 0) s) (ndindex s)) as Hin.
  { apply in_ndindex. induction Hs as [|n s Hn Hs IH]; [reflexivity|].
    simpl. now rewrite IH, (ltb_true 0 n Hn). }
  intros Heq. now rewrite Heq in Hin.
Qed.

Lemma np_max_ok (Z : ndarray float) :
  Forall (fun n => 0 < n) (shape Z) -> exists m, np_max Z = Ok m.
Proof.
  intros Hs. unfold np_max.
  destruct (ndindex (shape Z)) as [|v vs] eqn:Hidx.
  - now apply ndindex_nonempty in Hs.
  - eexists. reflexivity.
Qed.

(** The three-channel form of a documented volume. *)
Lemma to_rgb_ok (V : ndarray float) :
  volume_shape_ok (shape V) ->
  exists L x y z,
    (d <~ last_dim (shape V) ;;
     if negb (d =? 3)%nat then grayscale_to_rgb V else Ok V) = Ok L /\
    shape L = [x; y; z; 3] /\ firstn 3 (shape V) = [x; y; z] /\
    0 < x /\ 0 < y /\ 0 < z.
Proof.
  destruct V as [s it]. cbn [shape]. intros Hok.
  destruct s as [|x [|y [|z [|c [|]]]]]; simpl in Hok; try contradiction.
  - destruct Hok as (Hx & Hy & Hz & Hz3).
    unfold last_dim. cbn [List.rev app rbind].
    apply Nat.eqb_neq in Hz3. rewrite Hz3. cbn [negb].
    eexists _, x, y, z. split; [reflexivity|]. cbn. auto.
  - destruct Hok as (Hx & Hy & Hz & ->).
    eexists _, x, y, z. split; [reflexivity|]. cbn. auto.
Qed.

Lemma truediv_factors (M0 M1 M2 x y z : nat) :
  0 < x -> 0 < y -> 0 < z ->
  rmapM py_truediv (combine [M0; M1; M2] [x; y; z])
  = Ok [(M0, x); (M1, y); (M2, z)].
Proof.
  intros Hx Hy Hz. cbn [combine rmapM]. unfold py_truediv. cbn [snd].
  destruct x; [lia|]. destruct y; [lia|]. destruct z; [lia|]. reflexivity.
Qed.

(** Resampling to [max_size] and normalizing succeeds on a three-channel
    layer without empty axes. *)
Lemma prepare_rgb_ok (order : nat) (L : ndarray float)
    (x y z M0 M1 M2 : nat) :
  order <= 5 ->
  shape L = [x; y; z; 3] -> 0 < x -> 0 < y -> 0 < z ->
  0 < M0 -> 0 < M1 -> 0 < M2 ->
  let Z := mk_ndarray [M0; M1; M2; 3]
             (resample L [(M0, x); (M1, y); (M2, z); (1, 1)] order) in
  exists m,
    np_max Z = Ok m /\
    prepare_rgb resample [M0; M1; M2] order L = Ok (divide_by m Z).
Proof.
  intros Ho HL Hx Hy Hz H0 H1 H2 Z.
  destruct (np_max_ok Z) as [m Hm].
  { subst Z. cbn [shape]. repeat constructor; lia. }
  exists m. split; [exact Hm|].
  unfold prepare_rgb. rewrite HL. cbn [firstn].
  rewrite truediv_factors by assumption. cbn [rbind app].
  unfold zoom, ndim.
  replace (5 <? order)%nat with false by (symmetry; apply Nat.ltb_ge; lia).
  rewrite HL. cbn [length Nat.eqb zip_with].
  rewrite !zoomed_dim_self by assumption.
  change (zoomed_dim 3 (1, 1)) with 3. cbn [rbind].
  fold Z. now rewrite Hm.
Qed.

Lemma prepare_layer_ok (order : nat) (V : ndarray float) (M0 M1 M2 : nat) :
  order <= 5 ->
  volume_shape_ok (shape V) -> 0 < M0 -> 0 < M1 -> 0 < M2 ->
  exists P,
    prepare_layer resample [M0; M1; M2] order V = Ok P /\
    shape P = [M0; M1; M2; 3].
Proof.
  intros Ho Hok H0 H1 H2.
  destruct (to_rgb_ok V Hok) as (L & x & y & z & HL & Hs & _ & Hx & Hy & Hz).
  destruct (prepare_rgb_ok order L x y z M0 M1 M2 Ho Hs Hx Hy Hz H0 H1 H2)
    as (m & _ & Hp).
  unfold prepare_layer.
  destruct (last_dim (shape V)) as [d|e]; cbn [rbind] in *; [|discriminate].
  rewrite HL. cbn [rbind]. rewrite Hp. eexists. split; reflexivity.
Qed.

(** Pasting a layer of the shape of [back]: opaque voxels are taken
    from the layer, the others are kept. *)
Lemma assign_where_nonzero_ok (B L : ndarray float) (M0 M1 M2 : nat) :
  shape B = [M0; M1; M2; 3] -> shape L = [M0; M1; M2; 3] ->
  assign_where_nonzero B L =
  Ok (mk_ndarray [M0; M1; M2; 3]
        (fun idx => if opaque L (firstn 3 idx)
                    then item L idx else item B idx)).
Proof.
  intros HB HL. destruct L as [sL itL]. cbn [shape] in HL. subst sL.
  unfold assign_where_nonzero, opaque, sum_axis3. cbn [shape rbind map1].
  rewrite HB. cbn [firstn skipn].
  rewrite !bool_decide_eq_true_2 by reflexivity. reflexivity.
Qed.

Lemma composite_ok (order : nat) (M0 M1 M2 : nat) (Vs : list (ndarray float)) :
  order <= 5 ->
  Forall (fun V => volume_shape_ok (shape V)) Vs ->
  (Vs <> [] -> 0 < M0 /\ 0 < M1 /\ 0 < M2) ->
  forall B, shape B = [M0; M1; M2; 3] ->
  exists B', composite resample [M0; M1; M2] order Vs B = Ok B' /\
             shape B' = [M0; M1; M2; 3].
Proof.
  intros Ho.
  induction 1 as [|V Vs HV HVs IH]; intros HM B HB.
  - exists B. auto.
  - destruct HM as (H0 & H1 & H2); [discriminate|].
    destruct (prepare_layer_ok order V M0 M1 M2 Ho HV H0 H1 H2)
      as (P & HP & HsP).
    cbn [composite]. rewrite HP. cbn [rbind].
    rewrite (assign_where_nonzero_ok B P M0 M1 M2 HB HsP). cbn [rbind].
    apply IH; auto.
Qed.

Lemma axis_max_ge (axis : nat) (shapes : list (list nat)) (s : list nat) :
  In s shapes -> nth axis s 0 <= axis_max axis shapes.
Proof.
  unfold axis_max. induction shapes as [|s' shapes IH]; [intros []|].
  intros [->|Hin]; cbn [map fold_right]; [lia|].
  specialize (IH Hin). lia.
Qed.

Lemma volume_shape_ok_rank (s : list nat) :
  volume_shape_ok s ->
  3 <= length s /\ 0 < nth 0 s 0 /\ 0 < nth 1 s 0 /\ 0 < nth 2 s 0.
Proof.
  destruct s as [|x [|y [|z [|c [|]]]]]; simpl; try contradiction;
    intros (Hx & Hy & Hz & _); repeat split; auto; lia.
Qed.

(** The value-level overlay of documented volumes exists and has the
    per-axis maximum of their extents as its shape. *)
Lemma overlay_ok (rgb : bool) (order : nat) (Vs : list (ndarray float)) :
  order <= 5 ->
  Forall (fun V => volume_shape_ok (shape V)) Vs ->
  exists out,
    overlay resample rgb order Vs = Ok out /\
    shape out = if rgb then max_extent (map shape Vs) ++ [3]
                else max_extent (map shape Vs).
Proof.
  intros Ho Hok. unfold overlay.
  rewrite scan_shapes_max.
  2:{ apply Forall_map. eapply Forall_impl; [exact Hok|].
      intros V HV. now apply volume_shape_ok_rank in HV. }
  cbn [Nat.max rbind]. fold (max_extent (map shape Vs)).
  destruct (composite_ok order (axis_max 0 (map shape Vs))
              (axis_max 1 (map shape Vs)) (axis_max 2 (map shape Vs))
              (List.rev Vs) Ho)
    with (B := full (max_extent (map shape Vs) ++ [3]) 0%float)
    as (B' & HB' & Hs').
  - apply Forall_rev. exact Hok.
  - intros Hne. destruct Vs as [|V Vs]; [now contradiction Hne|].
    apply Forall_cons in Hok as [HV _].
    apply volume_shape_ok_rank in HV as (_ & Hx & Hy & Hz).
    pose proof (axis_max_ge 0 (map shape (V :: Vs)) (shape V) (or_introl eq_refl)).
    pose proof (axis_max_ge 1 (map shape (V :: Vs)) (shape V) (or_introl eq_refl)).
    pose proof (axis_max_ge 2 (map shape (V :: Vs)) (shape V) (or_introl eq_refl)).
    lia.
  - reflexivity.
  - unfold max_extent in *. rewrite HB'. cbn [rbind].
    eexists. split; [reflexivity|].
    destruct rgb; [exact Hs'|]. unfold take_last. cbn [shape].
    now rewrite Hs'.
Qed.


Lemma composite_app (ms : list nat) (order : nat)
    (Vs Ws : list (ndarray float)) (B : ndarray float) :
  composite resample ms order (Vs ++ Ws) B =
  (B1 <~ composite resample ms order Vs B ;;
   composite resample ms order Ws B1).
Proof.
  revert B. induction Vs as [|V Vs IH]; intros B; cbn [app composite rbind].
  - reflexivity.
  - destruct (prepare_layer resample ms order V) as [P|e]; cbn [rbind];
      [|reflexivity].
    destruct (assign_where_nonzero B P) as [B1|e]; cbn [rbind];
      [apply IH|reflexivity].
Qed.



Lemma overlap_volumes_runs (rgb : bool) (order : nat) (st : pystate)
    (Vs : list (ndarray float)) (out : ndarray float) :
  volumes_of st Vs ->
  overlay resample rgb order Vs = Ok out ->
  exists h',
    preserved (length (arrays st)) (arrays st) h' /\
    overlap_volumes resample rgb order st = (mk_pystate h' [], Ok out).
Proof.
  intros Hvol Hout.
  destruct (overlap_volumes_spec resample rgb order st Vs Hvol)
    as (h' & vl' & Hp & Hrun).
  rewrite Hout in Hrun. eauto.
Qed.

Lemma scan_shapes_rank (shapes : list (list nat)) :
  forall ms0 ms, scan_shapes shapes ms0 = Ok ms ->
                 Forall (fun s => 3 <= length s) shapes.
Proof.
  induction shapes as [|s shapes IH]; intros ms0 ms Hscan; [constructor|].
  cbn [scan_shapes] in Hscan. unfold unpack3 in Hscan.
  destruct s as [|x [|y [|z rest]]]; try discriminate.
  constructor; [simpl; lia|].
  replace (firstn 3 (x :: y :: z :: rest)) with [x; y; z] in Hscan
    by reflexivity.
  cbn [rbind] in Hscan. exact (IH _ _ Hscan).
Qed.






(** C10. When overlap_volumes returns, the list object the caller
    passed is empty, and every array that was on the heap before the
    call, the listed volumes among them, is unchanged; and on
    documented volumes, with a spline order that scipy supports (at
    most 5), the call does return. *)
Theorem overlap_volumes_consumes_list (rgb : bool) (order : nat)
    (st : pystate) (Vs : list (ndarray float)) :
  volumes_of st Vs ->
  (forall st' out,
     overlap_volumes resample rgb order st = (st', Ok out) ->
     vol_list st' = [] /\
     (forall a, a < length (arrays st) -> arrays st' !! a = arrays st !! a) /\
     Forall2 (fun a V => arrays st' !! a = Some V) (vol_list st) Vs) /\
  (order <= 5 ->
   Forall (fun V => volume_shape_ok (shape V)) Vs ->
   exists st' out, overlap_volumes resample rgb order st = (st', Ok out)).
Proof.
  intros Hvol. split.
  - intros st' out Hrun.
    destruct (overlap_volumes_spec resample rgb order st Vs Hvol)
      as (h' & vl' & Hp & Hspec).
    destruct (overlay resample rgb order Vs) as [out'|e];
      rewrite Hspec in Hrun; [|discriminate].
    inversion Hrun; subst; clear Hrun. cbn [vol_list arrays].
    split; [reflexivity|]. split.
    + intros a Ha. apply Hp; lia.
    + eapply lookups_preserved; [exact Hp| |exact Hvol].
      now apply (lookups_lt _ _ Vs).
  - intros Ho Hok.
    destruct (overlay_ok rgb order Vs Ho Hok) as (out & Hout & _).
    destruct (overlap_volumes_runs rgb order st Vs out Hvol Hout)
      as (h' & _ & Hrun).
    eauto.
Qed.

Lemma in_bounds_4 (x y z c : nat) (idx : list nat) :
  in_bounds [x; y; z; c] idx = true ->
  exists i j k n,
    idx = [i; j; k; n] /\ i < x /\ j < y /\ k < z /\ n < c.
Proof.
  destruct idx as [|i [|j [|k [|n [|]]]]]; simpl;
    rewrite ?andb_false_r; try discriminate.
  rewrite !andb_true_r. intros Hb.
  apply andb_prop in Hb as [Hi Hb]. apply andb_prop in Hb as [Hj Hb].
  apply andb_prop in Hb as [Hk Hn].
  apply Nat.ltb_lt in Hi, Hj, Hk, Hn. eauto 10.
Qed.

Lemma in_bounds_4_intro (x y z c i j k n : nat) :
  i < x -> j < y -> k < z -> n < c ->
  in_bounds [x; y; z; c] [i; j; k; n] = true.
Proof.
  intros Hi Hj Hk Hn. simpl.
  now rewrite !ltb_true by assumption.
Qed.

Lemma max_extent_pos (V : ndarray float) (Vs : list (ndarray float)) :
  volume_shape_ok (shape V) ->
  0 < axis_max 0 (map shape (V :: Vs)) /\
  0 < axis_max 1 (map shape (V :: Vs)) /\
  0 < axis_max 2 (map shape (V :: Vs)).
Proof.
  intros HV. apply volume_shape_ok_rank in HV as (_ & Hx & Hy & Hz).
  pose proof (axis_max_ge 0 (map shape (V :: Vs)) (shape V) (or_introl eq_refl)).
  pose proof (axis_max_ge 1 (map shape (V :: Vs)) (shape V) (or_introl eq_refl)).
  pose proof (axis_max_ge 2 (map shape (V :: Vs)) (shape V) (or_introl eq_refl)).
  lia.
Qed.

Lemma overlay_unfold (rgb : bool) (order : nat) (Vs : list (ndarray float)) :
  Forall (fun V => volume_shape_ok (shape V)) Vs ->
  overlay resample rgb order Vs =
  (B <~ composite resample (max_extent (map shape Vs)) order (List.rev Vs)
          (full (max_extent (map shape Vs) ++ [3]) 0%float) ;;
   Ok (if rgb then B else take_last B 0)).
Proof.
  intros Hok. unfold overlay. rewrite scan_shapes_max.
  - reflexivity.
  - apply Forall_map. eapply Forall_impl; [exact Hok|].
    intros V HV. now apply volume_shape_ok_rank in HV.
Qed.


End OverlayFacts.

(* ------------------------------------------------------------------ *)
(** ** unravel/viz.py: the compositing rule for any number of layers *)

Section Rule.
Variable resample : ndarray float -> list (nat * nat) -> nat -> list nat -> float.

Lemma find_snoc {A} (f : A -> bool) (l : list A) (x : A) :
  List.find f (l ++ [x]) =
  match List.find f l with
  | Some y => Some y
  | None => if f x then Some x else None
  end.
Proof.
  induction l as [|y l IH]; cbn [app List.find]; [reflexivity|].
  destruct (f y); [reflexivity|exact IH].
Qed.

Lemma Forall2_rev_rev {A B} (P : A -> B -> Prop) (l : list A) (k : list B) :
  Forall2 P l k -> Forall2 P (List.rev l) (List.rev k).
Proof.
  induction 1 as [|a b l k Hab Hlk IH]; cbn [List.rev]; [constructor|].
  apply Forall2_app; [exact IH|]. now repeat constructor.
Qed.

Lemma composite_rule (order : nat) (M0 M1 M2 : nat)
    (Vs : list (ndarray float)) :
  order <= 5 ->
  Forall (fun V => volume_shape_ok (shape V)) Vs ->
  0 < M0 -> 0 < M1 -> 0 < M2 ->
  forall B, shape B = [M0; M1; M2; 3] ->
  exists Ps out,
    Forall2 (fun V P => prepare_layer resample [M0; M1; M2] order V = Ok P)
            Vs Ps /\
    composite resample [M0; M1; M2] order Vs B = Ok out /\
    shape out = [M0; M1; M2; 3] /\
    forall idx, item out idx = topmost (List.rev Ps) (item B idx) idx.
Proof.
  intros Ho Hok H0 H1 H2.
  induction Hok as [|V Vs HV HVs IH]; intros B HB.
  - exists [], B. split; [constructor|]. repeat split; auto.
  - destruct (prepare_layer_ok resample order V M0 M1 M2 Ho HV H0 H1 H2)
      as (P & HP & HsP).
    cbn [composite]. rewrite HP. cbn [rbind].
    rewrite (assign_where_nonzero_ok B P M0 M1 M2 HB HsP). cbn [rbind].
    destruct (IH (mk_ndarray [M0; M1; M2; 3]
                    (fun idx => if opaque P (firstn 3 idx)
                                then item P idx else item B idx)) eq_refl)
      as (Ps & out & HPs & Hout & Hs & Hitem).
    exists (P :: Ps), out. split; [now constructor|].
    split; [exact Hout|]. split; [exact Hs|].
    intros idx. rewrite Hitem. unfold topmost. cbn [List.rev item].
    rewrite find_snoc.
    destruct (List.find _ (List.rev Ps)); [reflexivity|].
    now destruct (opaque P (firstn 3 idx)).
Qed.

End Rule.

(* ------------------------------------------------------------------ *)
(** ** unravel/viz.py: the claims evaluated on concrete inputs *)

Lemma compute_alpha_surface_dispatch_witness :
  compute_alpha_surface (list R) unit sum_kernel max_kernel first_kernel
    north "vol"
  = surface_with (list R) unit sum_kernel north /\
  compute_alpha_surface (list R) unit sum_kernel max_kernel first_kernel
    north "vol"
  = compute_alpha_surface (list R) unit sum_kernel max_kernel first_kernel
      north "ang".
Proof.
  destruct (compute_alpha_surface_dispatch (list R) unit
              sum_kernel max_kernel first_kernel north "vol")
    as (Ha & Hb & _); [discriminate|discriminate|].
  split; [exact Ha|exact Hb].
Defined.

Lemma compute_alpha_surface_mesh_witness :
  let g := compute_alpha_surface (list R) unit sum_kernel max_kernel
             first_kernel north "raw" in
  let px : R := fmul (fcos (item grid_u [3])) (fsin (item grid_v [5])) in
  let py : R := fmul (fsin (item grid_u [3])) (fsin (item grid_v [5])) in
  let pz : R := fcos (item grid_v [5]) in
  let a := fst (selected_kernel (list R) unit sum_kernel max_kernel
                  first_kernel "raw" [px; py; pz] north
                  (repeat 0%Z (length north))) in
  item (grid_x g) [3; 5] = fmul px (fadd a (of_nat 1)) /\
  item (grid_y g) [3; 5] = fmul py (fadd a (of_nat 1)) /\
  item (grid_z g) [3; 5] = fmul pz (fadd a (of_nat 1)) /\
  item (grid_coef g) [3; 5] = a.
Proof.
  refine (compute_alpha_surface_mesh (list R) unit sum_kernel max_kernel
            first_kernel north "raw" 3 5 _ _ _).
  - intros c. apply Rmult_1_l.
  - lia.
  - lia.
Defined.

(** C7 does not hold of the code.  [vol_N] is nonzero at the first
    voxel only and [vol_B] is nonzero everywhere else, so the claim
    (and the docstring, for which zero is transparent) gives the output
    A's normalized value at the first voxel and B's normalized value
    5/5 at the second.  The code returns NaN at the second voxel in
    every channel: max(vol_N) is 0, the division by it turns the zero
    of vol_N into NaN, and the mask of line 87 is taken on the divided
    layer, where NaN differs from 0, so that NaN is pasted over B. *)
Theorem overlap_volumes_zero_not_transparent :
  ne_zero (item vol_N [0; 0; 0]) = true /\
  item vol_N [1; 0; 0] = 0%float /\
  item vol_B [0; 0; 0] = 0%float /\
  ne_zero (item vol_B [1; 0; 0]) = true /\
  np_max vol_N = Ok 0%float /\
  exists st' out mB,
    overlap_volumes nearest_resample true 0
      (mk_pystate [vol_N; vol_B] [0; 1]) = (st', Ok out) /\
    np_max vol_B = Ok mB /\
    PrimFloat.div (item vol_B [1; 0; 0]) mB = 1%float /\
    forall c, c < 3 ->
      item out [0; 0; 0; c] = neg_infinity /\
      PrimFloat.is_nan (item out [1; 0; 0; c]) = true /\
      item out [1; 0; 0; c] <> PrimFloat.div (item vol_B [1; 0; 0]) mB.
Proof.
  do 5 (split; [reflexivity|]).
  eexists _, _, _. split; [reflexivity|]. split; [reflexivity|].
  split; [reflexivity|].
  intros c Hc. destruct c as [|[|[|c]]]; try lia;
    (split; [vm_compute; reflexivity|]);
    (split; [vm_compute; reflexivity|]);
    intros Heq; apply (f_equal PrimFloat.is_nan) in Heq;
    vm_compute in Heq; discriminate.
Qed.


Lemma overlap_volumes_consumes_list_witness :
  exists st' out,
    overlap_volumes nearest_resample false 0
      (mk_pystate [vol_grey; vol_colour] [0; 1]) = (st', Ok out) /\
    vol_list st' = [] /\
    arrays st' !! 0 = Some vol_grey /\ arrays st' !! 1 = Some vol_colour.
Proof.
  destruct (overlap_volumes_consumes_list nearest_resample false 0
              (mk_pystate [vol_grey; vol_colour] [0; 1])
              [vol_grey; vol_colour])
    as (Hret & Hruns).
  - repeat constructor.
  - destruct Hruns as (st' & out & Hrun).
    + lia.
    + repeat constructor; simpl; lia.
    + destruct (Hret st' out Hrun) as (Hempty & Hkeep & _).
      exists st', out. split; [exact Hrun|]. split; [exact Hempty|].
      split; [apply (Hkeep 0)|apply (Hkeep 1)]; simpl; lia.
Defined.



(* ================================================================== *)
(** * Further properties *)

(** ** More facts on binary64 arithmetic *)

Module F64_arith.

Lemma sub_diag_cases (d : float) :
  Prim2SF (d - d) = S754_zero false \/ Prim2SF (d - d) = S754_nan.
Proof.
  rewrite FloatAxioms.sub_spec. unfold SF64sub, SFsub.
  destruct (Prim2SF d) as [s|s| |s m e].
  - left. now destruct s.
  - right. now destruct s.
  - now right.
  - left. now rewrite Z.sub_diag.
Qed.

Lemma ltb_irrefl (x : float) : (x <? x)%float = false.
Proof.
  rewrite FloatAxioms.ltb_spec. unfold SFltb. rewrite F64.SFcompare_refl.
  now destruct (Prim2SF x).
Qed.

Lemma opp_involutive (x : float) : (- - x)%float = x.
Proof.
  apply FloatAxioms.Prim2SF_inj. rewrite !FloatAxioms.opp_spec.
  destruct (Prim2SF x) as [s|s| |s m e]; simpl; now rewrite ?negb_involutive.
Qed.

Lemma abs_opp (v : float) : PrimFloat.abs (- v) = PrimFloat.abs v.
Proof.
  apply FloatAxioms.Prim2SF_inj.
  rewrite !FloatAxioms.abs_spec, FloatAxioms.opp_spec.
  now destruct (Prim2SF v).
Qed.

(** The square root of a quotient whose numerator is a sum of squares of
    [d - d] is zero or NaN, whatever the denominator. *)
Lemma sqrt_zero_quotient (d y : float) :
  let z := (d - d)%float in
  let w := PrimFloat.sqrt ((z * z + z * z + z * z) / y) in
  ((if PrimFloat.is_nan w then 0 else w) =? 0)%float = true.
Proof.
  intros z w.
  assert (Prim2SF w = S754_nan \/ exists s, Prim2SF w = S754_zero s) as Hw.
  { subst w. rewrite FloatAxioms.sqrt_spec, FloatAxioms.div_spec.
    destruct (sub_diag_cases d) as [Hz|Hz]; fold z in Hz.
    - assert (z = 0%float) as ->
        by (apply FloatAxioms.Prim2SF_inj; rewrite Hz; reflexivity).
      change (Prim2SF (0 * 0 + 0 * 0 + 0 * 0)) with (S754_zero false).
      destruct (Prim2SF y) as [s|s| |s m e]; simpl; eauto.
    - assert (z = nan) as ->
        by (apply FloatAxioms.Prim2SF_inj; rewrite Hz; reflexivity).
      change (Prim2SF (nan * nan + nan * nan + nan * nan)) with S754_nan.
      left. reflexivity. }
  rewrite F64.is_nan_spec.
  destruct Hw as [Hw|[s Hw]]; rewrite Hw; [reflexivity|].
  rewrite FloatAxioms.eqb_spec, Hw. reflexivity.
Qed.

Lemma digits2_pos_bound (m : positive) :
  (Zpos m < 2 ^ Zpos (digits2_pos m))%Z.
Proof.
  induction m as [m IH|m IH|]; cbn [digits2_pos].
  - rewrite Pos2Z.inj_succ, Z.pow_succ_r by lia. lia.
  - rewrite Pos2Z.inj_succ, Z.pow_succ_r by lia. lia.
  - reflexivity.
Qed.

(** The mantissa of a binary64 float has at most 53 bits. *)
Lemma valid_mantissa_bound (s : bool) (m : positive) (e : Z) :
  valid_binary (S754_finite s m e) = true ->
  (Zpos m < 2 ^ 53)%Z.
Proof.
  intros Hv.
  unfold valid_binary, SpecFloat.valid_binary, SpecFloat.bounded,
    SpecFloat.canonical_mantissa in Hv.
  apply andb_prop in Hv as [Hc _]. apply Z.eqb_eq in Hc.
  unfold SpecFloat.fexp, SpecFloat.emin, prec, emax in Hc.
  pose proof (digits2_pos_bound m) as Hm.
  assert (Zpos (digits2_pos m) <= 53)%Z as Hd by lia.
  eapply Z.lt_le_trans; [exact Hm|].
  apply Z.pow_le_mono_r; lia.
Qed.

Lemma shiftl_small (m : positive) (e : Z) :
  (Zpos m < 2 ^ 53)%Z ->
  (e < -52 \/ (e = -52 /\ Zpos m < 2 ^ 52))%Z ->
  Z.shiftl (Zpos m) e = 0%Z.
Proof.
  intros Hm He.
  rewrite <- (Z.opp_involutive e). rewrite <- Z.shiftr_opp_r.
  rewrite Z.shiftr_div_pow2 by lia. apply Z.div_small. split; [lia|].
  destruct He as [He|[-> Hm52]]; [|exact Hm52].
  eapply Z.lt_le_trans; [exact Hm|]. apply Z.pow_le_mono_r; lia.
Qed.

End F64_arith.

(* ------------------------------------------------------------------ *)
(** ** TIME/utils.py: more on tensor_to_DTI *)





(** The stack of matrices, whenever it gets built: the field has an
    accepted shape, and the matrix at a voxel holds its six components
    in the order of the branch taken. *)
Lemma tensor_matrix_accepted (t mt : ndarray float) :
  tensor_matrix t = Ok mt ->
  accepted_shape (shape t) /\
  exists x y z,
    voxel_grid (shape t) = [x; y; z] /\ shape mt = [x; y; z; 3; 3] /\
    forall i j k,
      let c := fun n => item t (component_index (shape t) [i; j; k] n) in
      matrix_at mt [i; j; k] =
      if (ndim t =? 4)%nat
      then [[c 0; c 1; c 2]; [c 1; c 3; c 4]; [c 2; c 4; c 5]]
      else [[c 0; c 1; c 3]; [c 1; c 2; c 4]; [c 3; c 4; c 5]].
Proof.
  intros Hmt.
  destruct (accepted_shape_dec (shape t)) as [Hacc|Hna].
  2:{ destruct (tensor_matrix_raises_outside t Hna) as [e He]. congruence. }
  split; [exact Hacc|].
  unfold ndim.
  destruct (shape t) as [|d0 [|d1 [|d2 [|d3 [|d4 [|]]]]]] eqn:Hs;
    simpl in Hacc; try contradiction.
  - destruct (tensor_matrix_rank4 t d0 d1 d2 d3 Hs Hacc)
      as (mt' & Hmt' & Hsm & Hat).
    rewrite Hmt in Hmt'. inversion Hmt'; subst mt'.
    exists d1, d2, d3. split; [reflexivity|]. split; [exact Hsm|].
    intros i j k. simpl. apply Hat.
  - destruct Hacc as [Ha Hb].
    destruct (tensor_matrix_rank5 t d0 d1 d2 d3 d4 Hs Ha Hb)
      as (mt' & Hmt' & Hsm & Hat).
    rewrite Hmt in Hmt'. inversion Hmt'; subst mt'.
    exists d0, d1, d2. split; [reflexivity|]. split; [exact Hsm|].
    intros i j k. simpl. apply Hat.
Qed.

Lemma tensor_matrix_builds (t : ndarray float) :
  accepted_shape (shape t) -> exists mt, tensor_matrix t = Ok mt.
Proof.
  intros Hacc.
  destruct (shape t) as [|d0 [|d1 [|d2 [|d3 [|d4 [|]]]]]] eqn:Hs;
    simpl in Hacc; try contradiction.
  - destruct (tensor_matrix_rank4 t _ _ _ _ Hs Hacc) as (mt & H1 & _). eauto.
  - destruct Hacc as [Ha Hb].
    destruct (tensor_matrix_rank5 t _ _ _ _ _ Hs Ha Hb) as (mt & H1 & _).
    eauto.
Qed.

(** X2.  Whatever the field, the 3x3 matrix handed to the eigen solver
    at a voxel is symmetric: both index tables of lines 126-136 are. *)
Theorem tensor_matrix_symmetric (t mt : ndarray float) (i j k r c : nat) :
  tensor_matrix t = Ok mt -> r < 3 -> c < 3 ->
  item mt [i; j; k; r; c] = item mt [i; j; k; c; r].
Proof.
  intros Hmt Hr Hc.
  destruct (tensor_matrix_accepted t mt Hmt) as (_ & x & y & z & _ & _ & Hat).
  specialize (Hat i j k). cbv zeta in Hat.
  unfold matrix_at in Hat. cbn [map seq app] in Hat.
  destruct (ndim t =? 4)%nat;
    injection Hat as H00 H01 H02 H10 H11 H12 H20 H21 H22;
    destruct r as [|[|[|r]]]; try lia;
    destruct c as [|[|[|c]]]; try lia; simpl in *; congruence.
Qed.

Lemma tensor_matrix_symmetric_witness :
  exists mt,
    tensor_matrix field_6126 = Ok mt /\
    item mt [0; 1; 2; 0; 2] = item mt [0; 1; 2; 2; 0].
Proof.
  destruct (tensor_matrix_builds field_6126) as [mt Hmt]; [simpl; lia|].
  exists mt. split; [exact Hmt|].
  apply (tensor_matrix_symmetric field_6126 mt 0 1 2 0 2 Hmt); lia.
Defined.

(** X3.  On every shape outside the accepted ones the call raises
    before the solver is reached, and leaves divide and invalid set to
    ignore: ValueError from the final transposition when the field has
    more than five axes and its fourth and fifth are long enough for the
    slices, IndexError from the slices in every other case. *)
Theorem tensor_to_DTI_rejects_shape eig3 (t : ndarray float)
    (st : np_errstate) :
  ~ accepted_shape (shape t) ->
  tensor_to_DTI eig3 t st =
  (mk_errstate Ignore (err_over st) (err_under st) Ignore,
   Raise (if (6 <=? ndim t)%nat && (1 <=? nth 3 (shape t) 0)%nat
             && (6 <=? nth 4 (shape t) 0)%nat
          then ValueError else IndexError)).
Proof.
  intros Hna. apply tensor_to_DTI_raises.
  unfold sorted_eigenvalues.
  destruct t as [s it]. simpl in Hna.
  unfold tensor_matrix, component_rows, slice3, ndim. cbn [shape].
  destruct s as [|d0 [|d1 [|d2 [|d3 [|d4 rest]]]]]; try reflexivity.
  - simpl in Hna.
    destruct d0 as [|[|[|[|[|[|d0]]]]]]; try reflexivity.
    exfalso. apply Hna. lia.
  - destruct d3 as [|d3]; [destruct rest; reflexivity|].
    destruct d4 as [|[|[|[|[|[|d4]]]]]]; try (destruct rest; reflexivity).
    destruct rest as [|d5 rest]; [|reflexivity].
    exfalso. apply Hna. simpl. lia.
Qed.

Lemma tensor_to_DTI_rejects_shape_witness :
  tensor_to_DTI diag_eig (full [2; 2; 2] 0%float) default_errstate =
  (mk_errstate Ignore Warn Ignore Ignore, Raise IndexError) /\
  tensor_to_DTI diag_eig (full [1; 1; 1; 1; 6; 1] 0%float) default_errstate =
  (mk_errstate Ignore Warn Ignore Ignore, Raise ValueError).
Proof.
  split.
  - apply (tensor_to_DTI_rejects_shape diag_eig (full [2; 2; 2] 0%float)
             default_errstate).
    simpl. tauto.
  - apply (tensor_to_DTI_rejects_shape diag_eig
             (full [1; 1; 1; 1; 6; 1] 0%float) default_errstate).
    simpl. tauto.
Defined.

(** Each of the six components read at a voxel is an entry of its
    matrix. *)
Lemma component_in_matrix (t mt : ndarray float) (i j k n : nat) :
  tensor_matrix t = Ok mt -> n < 6 ->
  exists r c, r < 3 /\ c < 3 /\
    item mt [i; j; k; r; c] = item t (component_index (shape t) [i; j; k] n).
Proof.
  intros Hmt Hn.
  destruct (tensor_matrix_accepted t mt Hmt) as (_ & x & y & z & _ & _ & Hat).
  specialize (Hat i j k). cbv zeta in Hat.
  unfold matrix_at in Hat. cbn [map seq app] in Hat.
  destruct (ndim t =? 4)%nat;
    injection Hat as H00 H01 H02 H10 H11 H12 H20 H21 H22;
    destruct n as [|[|[|[|[|[|n]]]]]]; try lia.
  all: first [ exists 0, 0; repeat split; [lia|lia|assumption]
             | exists 0, 1; repeat split; [lia|lia|assumption]
             | exists 0, 2; repeat split; [lia|lia|assumption]
             | exists 1, 1; repeat split; [lia|lia|assumption]
             | exists 1, 2; repeat split; [lia|lia|assumption]
             | exists 2, 2; repeat split; [lia|lia|assumption] ].
Qed.

(** X4.  On a field of an accepted shape, an infinity or a NaN in any of
    the six components read at some voxel makes the call raise
    LinAlgError, whatever the solver; divide and invalid are left set to
    ignore. *)
Theorem tensor_to_DTI_nonfinite_raises eig3 (t : ndarray float)
    (st : np_errstate) (v : list nat) (n : nat) :
  accepted_shape (shape t) ->
  in_bounds (voxel_grid (shape t)) v = true -> n < 6 ->
  PrimFloat.is_finite (item t (component_index (shape t) v n)) = false ->
  tensor_to_DTI eig3 t st =
  (mk_errstate Ignore (err_over st) (err_under st) Ignore, Raise LinAlgError).
Proof.
  intros Hacc Hv Hn Hinf. apply tensor_to_DTI_raises.
  unfold sorted_eigenvalues.
  destruct (tensor_matrix_builds t Hacc) as [mt Hmt]. rewrite Hmt.
  cbn [rbind].
  destruct (tensor_matrix_accepted t mt Hmt) as (_ & x & y & z & Hg & Hsm & _).
  rewrite Hg in Hv.
  destruct (in_bounds_3 _ _ _ _ Hv) as (i & j & k & ->).
  destruct (component_in_matrix t mt i j k n Hmt Hn) as (r & c & Hr & Hc & Hrc).
  unfold linalg_eigvals.
  destruct (forallb _ (ndindex (shape mt))) eqn:Hall; [|reflexivity].
  exfalso. rewrite forallb_forall in Hall.
  specialize (Hall [i; j; k; r; c]).
  rewrite Hrc, Hinf in Hall.
  assert (false = true) as Habs; [|discriminate].
  apply Hall. apply in_ndindex. rewrite Hsm.
  now apply in_bounds_snoc2.
Qed.

Lemma tensor_to_DTI_nonfinite_raises_witness :
  tensor_to_DTI diag_eig nan_field default_errstate =
  (mk_errstate Ignore Warn Ignore Ignore, Raise LinAlgError).
Proof.
  apply (tensor_to_DTI_nonfinite_raises diag_eig nan_field default_errstate
           [0; 0; 0] 4).
  - simpl. lia.
  - reflexivity.
  - lia.
  - reflexivity.
Defined.

(** X5.  The error state numpy is left in, for every call: over and
    under are never touched; after a return divide and invalid are set
    to warn, whatever the caller had set before the call, and after an
    exception they are set to ignore. *)
Theorem tensor_to_DTI_exit_state eig3 (t : ndarray float) (st : np_errstate) :
  let '(st', r) := tensor_to_DTI eig3 t st in
  err_over st' = err_over st /\ err_under st' = err_under st /\
  match r with
  | Ok _ => err_divide st' = Warn /\ err_invalid st' = Warn
  | Raise _ => err_divide st' = Ignore /\ err_invalid st' = Ignore
  end.
Proof.
  destruct (sorted_eigenvalues eig3 t) as [val|e] eqn:Hv.
  - rewrite (tensor_to_DTI_returns _ _ _ _ Hv). simpl. auto.
  - rewrite (tensor_to_DTI_raises _ _ _ _ Hv). simpl. auto.
Qed.

Lemma np_sort_constant (x : float) : np_sort [x; x; x] = [x; x; x].
Proof.
  assert (np_lt x x = false) as Hx.
  { unfold np_lt. rewrite F64_arith.ltb_irrefl.
    now destruct (PrimFloat.is_nan x). }
  unfold np_sort. simpl. rewrite Hx. simpl. now rewrite Hx.
Qed.

(** X6.  Where the solver finds three equal eigenvalues, FA is zero
    (+0.0 or -0.0): for finite eigenvalues the differences are exactly
    0, and for infinite or NaN eigenvalues, or when the squares in the
    denominator sum to 0, the NaN of the quotient is replaced by 0. *)
Theorem tensor_to_DTI_isotropic_FA eig3 (t mt : ndarray float)
    (st st' : np_errstate) (FA AD RD MD : ndarray float) (v : list nat)
    (c : float) :
  tensor_to_DTI eig3 t st = (st', Ok (FA, AD, RD, MD)) ->
  tensor_matrix t = Ok mt ->
  eig3 (matrix_at mt v) = Some (c, c, c) ->
  (item FA v =? 0)%float = true.
Proof.
  intros Hrun Hmt Heig.
  destruct (sorted_eigenvalues eig3 t) as [val|e] eqn:Hv.
  2:{ rewrite (tensor_to_DTI_raises _ _ _ _ Hv) in Hrun. discriminate. }
  rewrite (tensor_to_DTI_returns _ _ _ _ Hv) in Hrun.
  destruct (sorted_eigenvalues_item _ _ _ Hv) as (mt' & Hmt' & _ & Hitem).
  rewrite Hmt in Hmt'. inversion Hmt'; subst mt'.
  assert (forall n, n < 3 -> item val (v ++ [n]) = c) as Hval.
  { intros n Hn. rewrite Hitem. unfold voxel_eigs. rewrite Heig.
    cbn [map seq eig_component nth]. rewrite np_sort_constant.
    destruct n as [|[|[|n]]]; try lia; apply F64_arith.opp_involutive. }
  unfold scalar_maps in Hrun. inversion Hrun; subst; clear Hrun.
  unfold nan_to_zero, np_sqrt, np_div, np_add, np_sub, np_power2,
    np_scale, take_last, map1, map2.
  cbn [item]. rewrite !Hval by lia.
  apply F64_arith.sqrt_zero_quotient.
Qed.

Lemma tensor_to_DTI_isotropic_FA_witness :
  exists st' FA AD RD MD,
    tensor_to_DTI diag_eig (full [1; 1; 1; 1; 6] 0%float) default_errstate
    = (st', Ok (FA, AD, RD, MD)) /\
    PrimFloat.eqb (item FA [0; 0; 0]) 0 = true.
Proof.
  destruct (tensor_to_DTI diag_eig (full [1; 1; 1; 1; 6] 0%float)
              default_errstate) as [st' [[[[FA AD] RD] MD]|e]] eqn:Hrun;
    [|apply (f_equal (fun r => returned (snd r))) in Hrun;
      vm_compute in Hrun; discriminate].
  destruct (tensor_matrix_builds (full [1; 1; 1; 1; 6] 0%float))
    as [mt Hmt]; [simpl; lia|].
  exists st', FA, AD, RD, MD. split; [reflexivity|].
  apply (tensor_to_DTI_isotropic_FA diag_eig (full [1; 1; 1; 1; 6] 0%float)
           mt default_errstate st' FA AD RD MD [0; 0; 0] 0%float Hrun Hmt).
  vm_compute in Hmt. inversion Hmt. reflexivity.
Defined.

Lemma forallb_ext_in {A} (f g : A -> bool) (l : list A) :
  (forall a, In a l -> f a = g a) -> forallb f l = forallb g l.
Proof.
  induction l as [|a l IH]; simpl; intros Hfg; [reflexivity|].
  rewrite (Hfg a) by auto. f_equal. apply IH. auto.
Qed.

Lemma matrix_at_entry (mt mt' : ndarray float) (v : list nat) (p q : nat) :
  matrix_at mt v = matrix_at mt' v -> p < 3 -> q < 3 ->
  item mt (v ++ [p; q]) = item mt' (v ++ [p; q]).
Proof.
  unfold matrix_at. cbn [map seq]. intros Heq Hp Hq.
  injection Heq as H00 H01 H02 H10 H11 H12 H20 H21 H22.
  destruct p as [|[|[|p]]]; try lia;
    destruct q as [|[|[|q]]]; try lia; assumption.
Qed.

(** Two stacks with the same matrices at every voxel fare alike in the
    eigen solver. *)
Lemma linalg_eigvals_congr eig3 (mt mt' : ndarray float) (x y z : nat) :
  shape mt = [x; y; z; 3; 3] -> shape mt' = [x; y; z; 3; 3] ->
  (forall i j k, in_bounds [x; y; z] [i; j; k] = true ->
                 matrix_at mt [i; j; k] = matrix_at mt' [i; j; k]) ->
  match linalg_eigvals eig3 mt, linalg_eigvals eig3 mt' with
  | Ok _, Ok _ => True
  | Raise e, Raise e' => e = e'
  | _, _ => False
  end.
Proof.
  intros Hs Hs' Hat. unfold linalg_eigvals, ndim. rewrite Hs, Hs'.
  cbn [length Nat.sub firstn].
  rewrite (forallb_ext_in
             (fun idx => PrimFloat.is_finite (item mt idx))
             (fun idx => PrimFloat.is_finite (item mt' idx))).
  2:{ intros idx Hin. apply in_ndindex in Hin.
      apply in_bounds_5 in Hin as (i & j & k & p & q & -> & Hb & Hp & Hq).
      f_equal. apply matrix_at_entry; auto. }
  rewrite (forallb_ext_in
             (fun v => bool_decide (is_Some (eig3 (matrix_at mt v))))
             (fun v => bool_decide (is_Some (eig3 (matrix_at mt' v))))).
  2:{ intros v Hin. apply in_ndindex in Hin.
      destruct (in_bounds_3 _ _ _ _ Hin) as (i & j & k & ->).
      now rewrite Hat. }
  destruct (negb _); [reflexivity|].
  destruct (forallb _ (ndindex [x; y; z])); [exact I|reflexivity].
Qed.

(** The four maps at a voxel are a function of its three sorted
    eigenvalues. *)
Lemma scalar_maps_at (val val' FA AD RD MD FA' AD' RD' MD' : ndarray float)
    (v : list nat) :
  scalar_maps val = (FA, AD, RD, MD) ->
  scalar_maps val' = (FA', AD', RD', MD') ->
  (forall n, n < 3 -> item val (v ++ [n]) = item val' (v ++ [n])) ->
  item FA v = item FA' v /\ item AD v = item AD' v /\
  item RD v = item RD' v /\ item MD v = item MD' v.
Proof.
  intros Hm Hm' Hv. unfold scalar_maps in Hm, Hm'.
  inversion Hm; subst; clear Hm. inversion Hm'; subst; clear Hm'.
  unfold nan_to_zero, np_sqrt, np_div, np_divc, np_add, np_sub, np_power2,
    np_scale, take_last, map1, map2.
  cbn [item]. rewrite !Hv by lia. auto.
Qed.

(** X7.  The call reads nothing but the six components at each voxel:
    two fields of one accepted shape that agree on them (and may differ
    at the other entries of the fourth axis, or beyond the sixth
    component, even by a NaN) raise the same exception or return maps
    that are equal at every voxel. *)
Theorem tensor_to_DTI_reads_six_components eig3 (t t' : ndarray float)
    (st : np_errstate) :
  accepted_shape (shape t) -> shape t' = shape t ->
  (forall v n, in_bounds (voxel_grid (shape t)) v = true -> n < 6 ->
     item t' (component_index (shape t) v n)
     = item t (component_index (shape t) v n)) ->
  match snd (tensor_to_DTI eig3 t st), snd (tensor_to_DTI eig3 t' st) with
  | Ok (FA, AD, RD, MD), Ok (FA', AD', RD', MD') =>
      shape FA = voxel_grid (shape t) /\ shape FA' = shape FA /\
      forall v, in_bounds (voxel_grid (shape t)) v = true ->
        item FA' v = item FA v /\ item AD' v = item AD v /\
        item RD' v = item RD v /\ item MD' v = item MD v
  | Raise e, Raise e' => e' = e
  | _, _ => False
  end.
Proof.
  intros Hacc Hshape Hread.
  destruct (tensor_matrix_builds t Hacc) as [mt Hmt].
  assert (exists mt', tensor_matrix t' = Ok mt') as [mt' Hmt'].
  { apply tensor_matrix_builds. now rewrite Hshape. }
  destruct (tensor_matrix_accepted t mt Hmt)
    as (_ & x & y & z & Hg & Hsm & Hat).
  destruct (tensor_matrix_accepted t' mt' Hmt')
    as (_ & x' & y' & z' & Hg' & Hsm' & Hat').
  rewrite Hshape, Hg in Hg'. symmetry in Hg'. inversion Hg'; subst x' y' z'.
  clear Hg'. rewrite Hg in Hread. rewrite Hg.
  assert (forall i j k, in_bounds [x; y; z] [i; j; k] = true ->
                        matrix_at mt [i; j; k] = matrix_at mt' [i; j; k])
    as Hsame.
  { intros i j k Hb. rewrite Hat, Hat'. cbv zeta. unfold ndim.
    rewrite !Hshape, !Hread by (auto; lia). reflexivity. }
  pose proof (linalg_eigvals_congr eig3 mt mt' x y z Hsm Hsm' Hsame) as Hcongr.
  assert (sorted_eigenvalues eig3 t =
          (raw <~ linalg_eigvals eig3 mt ;; Ok (np_neg (sort_last (np_neg raw)))))
    as Hs1 by (unfold sorted_eigenvalues; now rewrite Hmt).
  assert (sorted_eigenvalues eig3 t' =
          (raw <~ linalg_eigvals eig3 mt' ;; Ok (np_neg (sort_last (np_neg raw)))))
    as Hs2 by (unfold sorted_eigenvalues; now rewrite Hmt').
  destruct (linalg_eigvals eig3 mt) as [raw|e] eqn:Hraw;
    destruct (linalg_eigvals eig3 mt') as [raw'|e'] eqn:Hraw';
    try contradiction; cbn [rbind] in Hs1, Hs2.
  - rewrite (tensor_to_DTI_returns _ _ _ _ Hs1),
      (tensor_to_DTI_returns _ _ _ _ Hs2).
    cbn [snd].
    remember (np_neg (sort_last (np_neg raw))) as val eqn:Eval.
    remember (np_neg (sort_last (np_neg raw'))) as val' eqn:Eval'.
    clear Eval Eval'.
    destruct (scalar_maps val) as [[[FA AD] RD] MD] eqn:Hout.
    destruct (scalar_maps val') as [[[FA' AD'] RD'] MD'] eqn:Hout'.
    destruct (sorted_eigenvalues_item _ _ _ Hs1) as (m1 & Hm1 & Hsv & Hitem).
    destruct (sorted_eigenvalues_item _ _ _ Hs2) as (m2 & Hm2 & Hsv' & Hitem').
    rewrite Hmt in Hm1. inversion Hm1; subst m1.
    rewrite Hmt' in Hm2. inversion Hm2; subst m2.
    unfold ndim in Hsv, Hsv'. rewrite Hsm in Hsv. rewrite Hsm' in Hsv'.
    cbn in Hsv, Hsv'.
    destruct (scalar_maps_shape _ _ _ _ _ Hout) as (HFA & _).
    destruct (scalar_maps_shape _ _ _ _ _ Hout') as (HFA' & _).
    rewrite HFA, HFA', Hsv, Hsv'. cbn.
    split; [reflexivity|]. split; [reflexivity|].
    intros v Hb. destruct (in_bounds_3 _ _ _ _ Hb) as (i & j & k & ->).
    apply (scalar_maps_at val' val FA' AD' RD' MD' FA AD RD MD); auto.
    intros n _. rewrite Hitem, Hitem'. unfold voxel_eigs.
    now rewrite (Hsame i j k Hb).
  - rewrite (tensor_to_DTI_raises _ _ _ _ Hs1),
      (tensor_to_DTI_raises _ _ _ _ Hs2).
    cbn [snd]. congruence.
Qed.

Lemma tensor_to_DTI_reads_six_components_witness :
  exists FA AD RD MD FA' AD' RD' MD',
    snd (tensor_to_DTI diag_eig (wide_field 7) default_errstate)
    = Ok (FA, AD, RD, MD) /\
    snd (tensor_to_DTI diag_eig (wide_field nan) default_errstate)
    = Ok (FA', AD', RD', MD') /\
    item AD' [0; 0; 0] = item AD [0; 0; 0].
Proof.
  pose proof (tensor_to_DTI_reads_six_components diag_eig (wide_field 7)
                (wide_field nan) default_errstate) as Hsame.
  destruct (snd (tensor_to_DTI diag_eig (wide_field 7) default_errstate))
    as [[[[FA AD] RD] MD]|e] eqn:Hrun;
    [|apply (f_equal returned) in Hrun; vm_compute in Hrun; discriminate].
  destruct (snd (tensor_to_DTI diag_eig (wide_field nan) default_errstate))
    as [[[[FA' AD'] RD'] MD']|e] eqn:Hrun';
    [|apply (f_equal returned) in Hrun'; vm_compute in Hrun'; discriminate].
  exists FA, AD, RD, MD, FA', AD', RD', MD'.
  split; [reflexivity|]. split; [reflexivity|].
  destruct Hsame as (_ & _ & Hitem).
  - cbn. lia.
  - reflexivity.
  - intros v n Hv Hn. apply in_bounds_111 in Hv. subst v.
    destruct n as [|[|[|[|[|[|n]]]]]]; try lia; reflexivity.
  - apply (Hitem [0; 0; 0]). reflexivity.
Defined.

Lemma map_nth_seq3 (l : list float) (d : float) :
  length l = 3 -> map (fun n => nth n l d) [0; 1; 2] = l.
Proof.
  destruct l as [|a [|b [|c [|]]]]; cbn; try discriminate. reflexivity.
Qed.

(** X8.  Line 142, val = -np.sort(-val), only reorders: at every voxel
    the three sorted eigenvalues are the three values the solver gave
    there, each as often as it occurs, NaN included. *)
Theorem sorted_eigenvalues_permutation eig3 (t val mt : ndarray float)
    (v : list nat) :
  sorted_eigenvalues eig3 t = Ok val ->
  tensor_matrix t = Ok mt ->
  Permutation (map (fun n => item val (v ++ [n])) [0; 1; 2])
              (voxel_eigs eig3 mt v).
Proof.
  intros Hval Hmt.
  destruct (sorted_eigenvalues_item _ _ _ Hval) as (mt' & Hmt' & _ & Hitem).
  rewrite Hmt in Hmt'. inversion Hmt'; subst mt'.
  rewrite (map_ext _ (fun n => PrimFloat.opp
             (nth n (np_sort (map PrimFloat.opp (voxel_eigs eig3 mt v))) nan)))
    by (intros n; apply Hitem).
  rewrite <- (map_map (fun n => nth n (np_sort (map PrimFloat.opp
                                   (voxel_eigs eig3 mt v))) nan)
                      PrimFloat.opp).
  rewrite map_nth_seq3
    by (now rewrite np_sort_length, length_map).
  rewrite np_sort_Permutation, map_map.
  rewrite (map_ext _ (fun x => x))
    by (intros x; apply F64_arith.opp_involutive).
  now rewrite map_id.
Qed.

Lemma sorted_eigenvalues_permutation_witness :
  exists val,
    sorted_eigenvalues diag_eig diag_field = Ok val /\
    Permutation (map (fun n => item val [0; 0; 0; n]) [0; 1; 2])
                [1; 3; 2]%float.
Proof.
  destruct (sorted_eigenvalues diag_eig diag_field) as [val|e] eqn:Hval;
    [|apply (f_equal returned) in Hval; vm_compute in Hval; discriminate].
  destruct (tensor_matrix_builds diag_field) as [mt Hmt]; [simpl; lia|].
  exists val. split; [reflexivity|].
  pose proof (sorted_eigenvalues_permutation diag_eig diag_field val mt
                [0; 0; 0] Hval Hmt) as Hperm.
  vm_compute in Hmt. inversion Hmt; subst mt. exact Hperm.
Defined.

(* ------------------------------------------------------------------ *)
(** ** TIME/utils.py: tract_to_ROI *)

(** int() drops the fraction toward zero: every float strictly between
    -1 and 1 becomes 0. *)
Lemma py_int_small (f : float) :
  (f <? 1)%float = true -> (-1 <? f)%float = true -> py_int f = Returns 0%Z.
Proof.
  rewrite !FloatAxioms.ltb_spec. unfold py_int.
  pose proof (FloatAxioms.Prim2SF_valid f) as Hv.
  replace (Prim2SF 1) with (S754_finite false 4503599627370496 (-52))
    by (vm_compute; reflexivity).
  replace (Prim2SF (-1)) with (S754_finite true 4503599627370496 (-52))
    by (vm_compute; reflexivity).
  intros Hlt Hgt.
  destruct (Prim2SF f) as [s|s| |s m e]; try reflexivity.
  - destruct s; [vm_compute in Hgt|vm_compute in Hlt]; discriminate.
  - vm_compute in Hlt. discriminate.
  - f_equal.
    pose proof (F64_arith.valid_mantissa_bound s m e Hv) as Hm.
    rewrite F64_arith.shiftl_small; [now destruct s|exact Hm|].
    unfold SFltb, SFcompare in Hlt, Hgt.
    destruct s.
    + destruct (Z.compare_spec (-52) e) as [He|He|He]; try discriminate Hgt.
      * right. split; [lia|].
        rewrite Pos.compare_cont_spec in Hgt. cbn [Pos.switch_Eq] in Hgt.
        destruct (Pos.compare_spec 4503599627370496 m) as [Hc|Hc|Hc];
          try discriminate Hgt.
        change (2 ^ 52)%Z with (Z.pos 4503599627370496). exact Hc.
      * left. lia.
    + destruct (Z.compare_spec e (-52)) as [He|He|He]; try discriminate Hlt.
      * right. split; [lia|].
        rewrite Pos.compare_cont_spec in Hlt. cbn [Pos.switch_Eq] in Hlt.
        destruct (Pos.compare_spec m 4503599627370496) as [Hc|Hc|Hc];
          try discriminate Hlt.
        change (2 ^ 52)%Z with (Z.pos 4503599627370496). exact Hc.
      * left. lia.
Qed.

Section TractFacts.
Variable intp_error : Z -> raised.

Lemma mark_nodes_step (ROI : ndarray float) (p : node) (b : list node)
    (v : list nat) :
  node_voxel intp_error (shape ROI) p = Some v ->
  mark_nodes intp_error ROI (p :: b) =
  mark_nodes intp_error
    (mk_ndarray (shape ROI)
       (fun idx => if bool_decide (firstn 3 idx = v) then 1%float
                   else item ROI idx)) b.
Proof.
  unfold node_voxel. cbn [mark_nodes]. unfold set_voxel.
  destruct (node_ints p) as [ijk|e|name]; try discriminate.
  destruct (voxel_index intp_error (shape ROI) ijk) as [v'|e|name];
    try discriminate.
  intros Hv. now inversion Hv.
Qed.

(** The two ways a tuple of indices is refused. *)
Lemma voxel_index_fails (dims : list nat) (i j k : Z) :
  voxel_index intp_error dims (i, j, k) =
  match List.find (fun c => negb (fits_intp c)) [i; j; k] with
  | Some c => raise_as (intp_error c)
  | None => Raises IndexError
  end \/
  exists w, voxel_index intp_error dims (i, j, k) = Returns w.
Proof.
  unfold voxel_index.
  destruct (List.find _ [i; j; k]) as [c|]; [now left|].
  destruct dims as [|d0 [|d1 [|d2 rest]]]; try (now left).
  unfold np_index.
  repeat match goal with
         | |- context [if ?c then _ else _] => destruct c; cbn [rbind]
         end; (now left) || (right; eauto).
Qed.

Lemma mark_nodes_fail (ROI : ndarray float) (p : node) (b : list node) :
  node_voxel intp_error (shape ROI) p = None ->
  mark_nodes intp_error ROI (p :: b) = node_failure intp_error p.
Proof.
  unfold node_voxel, node_failure. cbn [mark_nodes]. unfold set_voxel.
  destruct (node_ints p) as [[[i j] k]|e|name]; try reflexivity.
  intros Hv.
  destruct (voxel_index_fails (shape ROI) i j k) as [Hf|[w Hw]].
  - rewrite Hf. destruct (List.find _ [i; j; k]) as [c|]; [|reflexivity].
    now destruct (intp_error c).
  - now rewrite Hw in Hv.
Qed.

(** The loop, when every node falls in a voxel. *)
Lemma mark_nodes_spec (b : list node) :
  forall ROI : ndarray float,
    Forall (fun p => is_Some (node_voxel intp_error (shape ROI) p)) b ->
    exists ROI',
      mark_nodes intp_error ROI b = Returns ROI' /\ shape ROI' = shape ROI /\
      forall idx,
        item ROI' idx =
        if bool_decide (Exists (fun p => node_voxel intp_error (shape ROI) p
                                         = Some (firstn 3 idx)) b)
        then 1%float else item ROI idx.
Proof.
  induction b as [|p b IH]; intros ROI Hall.
  - exists ROI. split; [reflexivity|]. split; [reflexivity|].
    intros idx. rewrite bool_decide_eq_false_2; [reflexivity|].
    intros HE. inversion HE.
  - apply Forall_cons in Hall as [[v Hv] Hall].
    rewrite (mark_nodes_step ROI p b v Hv).
    destruct (IH (mk_ndarray (shape ROI)
                    (fun idx => if bool_decide (firstn 3 idx = v) then 1%float
                                else item ROI idx)) Hall)
      as (ROI' & Hrun & Hs & Hitem).
    exists ROI'. split; [exact Hrun|]. split; [exact Hs|].
    intros idx. rewrite Hitem. cbn [shape item].
    destruct (bool_decide (Exists _ b)) eqn:Hb.
    + apply bool_decide_eq_true in Hb.
      rewrite bool_decide_eq_true_2; [reflexivity|]. now apply Exists_cons_tl.
    + apply bool_decide_eq_false in Hb.
      destruct (bool_decide (firstn 3 idx = v)) eqn:Hv3.
      * apply bool_decide_eq_true in Hv3.
        rewrite bool_decide_eq_true_2; [reflexivity|].
        apply Exists_cons_hd. congruence.
      * apply bool_decide_eq_false in Hv3.
        rewrite bool_decide_eq_false_2; [reflexivity|].
        intros HE. apply Exists_cons in HE as [HE|HE]; [|contradiction].
        congruence.
Qed.

(** The loop stops at the first node that falls in no voxel. *)
Lemma mark_nodes_stops (good : list node) (p : node) (rest : list node) :
  forall ROI : ndarray float,
    Forall (fun q => is_Some (node_voxel intp_error (shape ROI) q)) good ->
    node_voxel intp_error (shape ROI) p = None ->
    mark_nodes intp_error ROI (good ++ p :: rest) = node_failure intp_error p.
Proof.
  induction good as [|q good IH]; intros ROI Hall Hp.
  - now apply mark_nodes_fail.
  - apply Forall_cons in Hall as [[v Hv] Hall].
    cbn [app]. rewrite (mark_nodes_step ROI q _ v Hv).
    now apply IH.
Qed.

Lemma node_failure_raises (p : node) (ROI : ndarray float) :
  node_failure intp_error p <> Returns ROI.
Proof.
  unfold node_failure. destruct (node_ints p) as [[[i j] k]|e|name];
    try discriminate.
  destruct (List.find _ [i; j; k]) as [c|]; [|discriminate].
  now destruct (intp_error c).
Qed.

Lemma mark_nodes_returns_all (b : list node) :
  forall ROI ROI' : ndarray float,
    mark_nodes intp_error ROI b = Returns ROI' ->
    Forall (fun p => is_Some (node_voxel intp_error (shape ROI) p)) b.
Proof.
  induction b as [|p b IH]; intros ROI ROI' Hrun; [constructor|].
  destruct (node_voxel intp_error (shape ROI) p) as [v|] eqn:Hp.
  - rewrite (mark_nodes_step ROI p b v Hp) in Hrun.
    constructor; [eauto|]. exact (IH _ _ Hrun).
  - rewrite (mark_nodes_fail ROI p b Hp) in Hrun.
    now apply node_failure_raises in Hrun.
Qed.

(** The entries of the mask that is returned. *)
Lemma tract_to_ROI_items (dimensions : list nat) (b : list node)
    (ROI : ndarray float) :
  tract_to_ROI intp_error dimensions b = Returns ROI ->
  shape ROI = dimensions /\
  forall idx,
    item ROI idx =
    if bool_decide (Exists (fun p => node_voxel intp_error dimensions p
                                     = Some (firstn 3 idx)) b)
    then 1%float else 0%float.
Proof.
  unfold tract_to_ROI. intros Hrun.
  pose proof (mark_nodes_returns_all b _ _ Hrun) as Hall.
  cbn [shape full] in Hall.
  destruct (mark_nodes_spec b (full dimensions 0%float) Hall)
    as (ROI' & Hrun' & Hs & Hitem).
  rewrite Hrun in Hrun'. inversion Hrun'; subst ROI'.
  split; [exact Hs|]. exact Hitem.
Qed.

(** A node whose coordinates lie strictly between -1 and 1 falls in
    voxel (0,0,0). *)
Lemma node_voxel_near_origin (d0 d1 d2 : nat) (rest : list nat)
    (b0 b1 b2 : float) :
  0 < d0 -> 0 < d1 -> 0 < d2 ->
  Forall (fun c => (c <? 1)%float = true /\ (-1 <? c)%float = true)
         [b0; b1; b2] ->
  node_voxel intp_error (d0 :: d1 :: d2 :: rest) (b0, b1, b2)
  = Some [0; 0; 0].
Proof.
  intros H0 H1 H2 Hb.
  apply Forall_cons in Hb as [[Hl0 Hg0] Hb].
  apply Forall_cons in Hb as [[Hl1 Hg1] Hb].
  apply Forall_cons in Hb as [[Hl2 Hg2] _].
  unfold node_voxel, node_ints.
  rewrite (py_int_small b0 Hl0 Hg0), (py_int_small b1 Hl1 Hg1),
    (py_int_small b2 Hl2 Hg2).
  unfold voxel_index, np_index. cbn [List.find fits_intp negb].
  replace (0 <? Z.of_nat d0)%Z with true by (symmetry; apply Z.ltb_lt; lia).
  replace (0 <? Z.of_nat d1)%Z with true by (symmetry; apply Z.ltb_lt; lia).
  replace (0 <? Z.of_nat d2)%Z with true by (symmetry; apply Z.ltb_lt; lia).
  reflexivity.
Qed.

(** X9.  The array tract_to_ROI returns has the shape of the grid, is
    binary, and is 1 exactly at the voxels in which a node falls: the
    voxel of a node is given by the integer parts of its coordinates,
    taken toward zero, a negative one counting from the far end of its
    axis. *)
Theorem tract_to_ROI_mask (dimensions : list nat) (b : list node)
    (ROI : ndarray float) :
  tract_to_ROI intp_error dimensions b = Returns ROI ->
  shape ROI = dimensions /\
  forall idx,
    (item ROI idx = 1%float \/ item ROI idx = 0%float) /\
    (item ROI idx = 1%float <->
     exists p, In p b /\
               node_voxel intp_error dimensions p = Some (firstn 3 idx)).
Proof.
  intros Hrun. destruct (tract_to_ROI_items dimensions b ROI Hrun) as [Hs Hitem].
  split; [exact Hs|]. intros idx. rewrite Hitem.
  destruct (bool_decide (Exists _ b)) eqn:Hb.
  - apply bool_decide_eq_true in Hb. split; [now left|].
    split; [intros _|reflexivity].
    apply List.Exists_exists in Hb. exact Hb.
  - apply bool_decide_eq_false in Hb. split; [now right|].
    split.
    + intros H01. exfalso. now apply float_0_neq_1.
    + intros HE. exfalso. apply Hb. apply List.Exists_exists. exact HE.
Qed.

(** X10.  tract_to_ROI returns if and only if every node falls in a
    voxel of the grid; otherwise it stops at the first node that does
    not: with the ValueError or OverflowError of int() when, of its
    coordinates in order, the first that is NaN or infinite is NaN or
    is infinite; else with the error of numpy's conversion of the first
    index that does not fit its 64-bit index type; else with
    IndexError. *)
Theorem tract_to_ROI_returns_iff (dimensions : list nat) (b : list node) :
  ((exists ROI, tract_to_ROI intp_error dimensions b = Returns ROI) <->
   Forall (fun p => is_Some (node_voxel intp_error dimensions p)) b) /\
  (forall good p rest,
     b = good ++ p :: rest ->
     Forall (fun q => is_Some (node_voxel intp_error dimensions q)) good ->
     node_voxel intp_error dimensions p = None ->
     tract_to_ROI intp_error dimensions b =
     match node_ints p with
     | Returns (i, j, k) =>
         match List.find (fun c => negb (fits_intp c)) [i; j; k] with
         | Some c => raise_as (intp_error c)
         | None => Raises IndexError
         end
     | Raises e => Raises e
     | RaisesOther name => RaisesOther name
     end).
Proof.
  split.
  - split.
    + intros [ROI Hrun]. exact (mark_nodes_returns_all b _ _ Hrun).
    + intros Hall.
      destruct (mark_nodes_spec b (full dimensions 0%float) Hall)
        as (ROI' & Hrun' & _). eauto.
  - intros good p rest -> Hg Hp.
    now apply (mark_nodes_stops good p rest (full dimensions 0%float)).
Qed.

(** X11.  The mask depends on the set of nodes only: two tractograms
    with the same nodes, in any order and with any repetitions, give
    arrays that are equal at every index. *)
Theorem tract_to_ROI_node_set (dimensions : list nat) (b b' : list node)
    (ROI : ndarray float) :
  (forall p, In p b <-> In p b') ->
  tract_to_ROI intp_error dimensions b = Returns ROI ->
  exists ROI',
    tract_to_ROI intp_error dimensions b' = Returns ROI' /\
    shape ROI' = shape ROI /\
    forall idx, item ROI' idx = item ROI idx.
Proof.
  intros Hset Hrun.
  pose proof (mark_nodes_returns_all b _ _ Hrun) as Hall.
  cbn [shape full] in Hall.
  destruct (mark_nodes_spec b' (full dimensions 0%float)) as (ROI' & Hrun' & _).
  { apply List.Forall_forall. intros p Hin. apply Hset in Hin.
    rewrite List.Forall_forall in Hall. now apply Hall. }
  exists ROI'. split; [exact Hrun'|].
  destruct (tract_to_ROI_items dimensions b ROI Hrun) as [Hs Hm].
  destruct (tract_to_ROI_items dimensions b' ROI' Hrun') as [Hs' Hm'].
  split; [congruence|]. intros idx. rewrite Hm, Hm'.
  rewrite (bool_decide_ext
             (Exists (fun p => node_voxel intp_error dimensions p
                               = Some (firstn 3 idx)) b')
             (Exists (fun p => node_voxel intp_error dimensions p
                               = Some (firstn 3 idx)) b));
    [reflexivity|].
  rewrite !List.Exists_exists.
  split; intros (p & Hin & Hp); exists p; (split; [now apply Hset|exact Hp]).
Qed.

(** X12.  The integer part is taken toward zero, not downward.  A node
    whose three coordinates lie strictly between -1 and 1, also when
    some are negative, is put in voxel (0,0,0) of every grid without an
    empty axis: on its own it makes tract_to_ROI return the mask that
    is 1 at that voxel and 0 at every other (the index does not wrap to
    the far end); among other nodes it never stops the loop, and every
    mask returned is 1 at voxel (0,0,0). *)
Theorem tract_to_ROI_near_origin (d0 d1 d2 : nat) (rest : list nat)
    (b0 b1 b2 : float) :
  0 < d0 -> 0 < d1 -> 0 < d2 ->
  Forall (fun c => (c <? 1)%float = true /\ (-1 <? c)%float = true)
         [b0; b1; b2] ->
  let dims := d0 :: d1 :: d2 :: rest in
  let p := (b0, b1, b2) in
  (exists ROI,
     tract_to_ROI intp_error dims [p] = Returns ROI /\
     forall idx,
       item ROI idx =
       if bool_decide (firstn 3 idx = [0; 0; 0]) then 1%float else 0%float) /\
  (forall b b',
     (exists ROI, tract_to_ROI intp_error dims (b ++ p :: b') = Returns ROI)
     <-> (exists ROI, tract_to_ROI intp_error dims (b ++ b') = Returns ROI)) /\
  (forall b ROI,
     In p b -> tract_to_ROI intp_error dims b = Returns ROI ->
     forall idx, firstn 3 idx = [0; 0; 0] -> item ROI idx = 1%float).
Proof.
  intros H0 H1 H2 Hb dims p.
  pose proof (node_voxel_near_origin d0 d1 d2 rest b0 b1 b2 H0 H1 H2 Hb)
    as Hp.
  fold dims in Hp. fold p in Hp.
  assert (forall b,
             (exists ROI, tract_to_ROI intp_error dims b = Returns ROI) <->
             Forall (fun q => is_Some (node_voxel intp_error dims q)) b)
    as Hiff.
  { intros b. split.
    - intros [ROI Hrun]. exact (mark_nodes_returns_all b _ _ Hrun).
    - intros Hall.
      destruct (mark_nodes_spec b (full dims 0%float) Hall)
        as (ROI' & Hrun' & _). eauto. }
  split; [|split].
  - destruct (proj2 (Hiff [p])) as [ROI Hrun].
    { repeat constructor. rewrite Hp. eauto. }
    exists ROI. split; [exact Hrun|].
    destruct (tract_to_ROI_items dims [p] ROI Hrun) as [_ Hitem].
    intros idx. rewrite Hitem.
    rewrite (bool_decide_ext
               (Exists (fun q => node_voxel intp_error dims q
                                 = Some (firstn 3 idx)) [p])
               (firstn 3 idx = [0; 0; 0])); [reflexivity|].
    rewrite Exists_cons, Exists_nil, Hp.
    split; [intros [Heq|[]]; now inversion Heq|intros ->; now left].
  - intros b b'. rewrite !Hiff, !Forall_app, Forall_cons.
    split; [tauto|]. intros [Hl Hr]. split; [exact Hl|].
    split; [|exact Hr]. rewrite Hp. eauto.
  - intros b ROI Hin Hrun idx Hidx.
    destruct (tract_to_ROI_items dims b ROI Hrun) as [_ Hitem].
    rewrite Hitem, bool_decide_eq_true_2; [reflexivity|].
    apply List.Exists_exists. exists p. split; [exact Hin|].
    now rewrite Hidx.
Qed.

End TractFacts.

Lemma tract_to_ROI_mask_witness :
  exists ROI,
    tract_to_ROI overflow_error [2; 2; 2] nodes_222 = Returns ROI /\
    shape ROI = [2; 2; 2] /\
    item ROI [0; 1; 0] = 1%float /\
    (item ROI [1; 1; 1] = 1%float \/ item ROI [1; 1; 1] = 0%float).
Proof.
  destruct (tract_to_ROI overflow_error [2; 2; 2] nodes_222)
    as [ROI|e|name] eqn:Hrun;
    try (vm_compute in Hrun; discriminate).
  destruct (tract_to_ROI_mask overflow_error [2; 2; 2] nodes_222 ROI Hrun)
    as [Hs Hm].
  exists ROI. split; [reflexivity|]. split; [exact Hs|]. split.
  - apply (proj2 (Hm [0; 1; 0])).
    exists (0.5, 1.5, 0.25)%float. split; [now left|]. vm_compute. reflexivity.
  - exact (proj1 (Hm [1; 1; 1])).
Defined.

Lemma tract_to_ROI_returns_iff_witness :
  (exists ROI, tract_to_ROI overflow_error [2; 2; 2] nodes_222 = Returns ROI) /\
  tract_to_ROI overflow_error [2; 2; 2] (nodes_222 ++ stray_node :: nodes_222)
  = Raises IndexError /\
  tract_to_ROI overflow_error [2; 2; 2] [(0.5, nan, infinity)%float]
  = Raises ValueError /\
  tract_to_ROI overflow_error [2; 2; 2] (nodes_222 ++ [far_node])
  = RaisesOther "OverflowError".
Proof.
  destruct (tract_to_ROI_returns_iff overflow_error [2; 2; 2] nodes_222)
    as [[_ Hret] _].
  destruct (tract_to_ROI_returns_iff overflow_error [2; 2; 2]
              (nodes_222 ++ stray_node :: nodes_222)) as [_ Hstop].
  destruct (tract_to_ROI_returns_iff overflow_error [2; 2; 2]
              [(0.5, nan, infinity)%float])
    as [_ Hnan].
  destruct (tract_to_ROI_returns_iff overflow_error [2; 2; 2]
              (nodes_222 ++ [far_node])) as [_ Hfar].
  assert (Forall (fun p => is_Some (node_voxel overflow_error [2; 2; 2] p))
                 nodes_222) as Hall.
  { repeat constructor; vm_compute; eauto. }
  split; [exact (Hret Hall)|]. split; [|split].
  - exact (Hstop nodes_222 stray_node nodes_222 eq_refl Hall eq_refl).
  - apply (Hnan [] _ [] eq_refl); [constructor|reflexivity].
  - exact (Hfar nodes_222 far_node [] eq_refl Hall eq_refl).
Defined.

Lemma tract_to_ROI_node_set_witness :
  exists ROI ROI',
    tract_to_ROI overflow_error [2; 2; 2] nodes_222 = Returns ROI /\
    tract_to_ROI overflow_error [2; 2; 2] (List.rev nodes_222 ++ nodes_222)
    = Returns ROI' /\
    item ROI' [1; 0; 1] = item ROI [1; 0; 1].
Proof.
  destruct (tract_to_ROI overflow_error [2; 2; 2] nodes_222)
    as [ROI|e|name] eqn:Hrun;
    try (vm_compute in Hrun; discriminate).
  destruct (tract_to_ROI_node_set overflow_error [2; 2; 2] nodes_222
              (List.rev nodes_222 ++ nodes_222) ROI)
    as (ROI' & Hrun' & _ & Hitem).
  - intros p. rewrite in_app_iff, <- in_rev. tauto.
  - exact Hrun.
  - exists ROI, ROI'. split; [reflexivity|]. split; [exact Hrun'|].
    apply Hitem.
Defined.

Lemma tract_to_ROI_near_origin_witness :
  exists ROI,
    tract_to_ROI overflow_error [2; 2; 2] [(-0.5, 0.75, -0.25)%float]
    = Returns ROI /\
    item ROI [0; 0; 0] = 1%float /\ item ROI [1; 0; 1] = 0%float.
Proof.
  destruct (tract_to_ROI_near_origin overflow_error 2 2 2 []
              (-0.5) 0.75 (-0.25)) as ((ROI & Hrun & Hitem) & _);
    try lia.
  - repeat constructor.
  - exists ROI. split; [exact Hrun|]. rewrite !Hitem. split; reflexivity.
Defined.

(* ------------------------------------------------------------------ *)
(** ** TIME/utils.py: peaks_to_RGB *)

Lemma nth_of_lookup {A} (l : list A) (k : nat) (a d : A) :
  l !! k = Some a -> nth k l d = a.
Proof.
  revert k. induction l as [|b l IH]; intros [|k]; cbn; try discriminate.
  - intros Hb. now inversion Hb.
  - apply IH.
Qed.

Lemma list_get_nth {A} (l : list A) (k : nat) (d : A) :
  k < length l -> list_get l k = Ok (nth k l d).
Proof.
  intros Hk. unfold list_get.
  destruct (l !! k) as [a|] eqn:Ha.
  - now rewrite (nth_of_lookup l k a d Ha).
  - apply lookup_ge_None in Ha. lia.
Qed.

Lemma Forall_nth_take {A} (P : A -> Prop) (l : list A) (n k : nat) (d : A) :
  Forall P (firstn n l) -> k < n -> k < length l -> P (nth k l d).
Proof.
  revert n k. induction l as [|a l IH]; intros n k HF Hk Hl;
    [cbn in Hl; lia|].
  destruct n as [|n]; [lia|]. cbn in HF. apply Forall_cons in HF as [Ha HF].
  destruct k as [|k]; [exact Ha|].
  cbn. apply (IH n); [exact HF|lia|cbn in Hl; lia].
Qed.

Section PeaksFacts.

Variables Ps Fs Gs : list (ndarray float).
Variables x y z c : nat.
Hypothesis HPs : Forall (fun P => shape P = [x; y; z; c]) Ps.
Hypothesis HFs : Forall (fun F => shape F = [x; y; z]) (firstn (length Ps) Fs).
Hypothesis HGs : Forall (fun G => shape G = [x; y; z]) (firstn (length Ps) Gs).

(** The term added at [idx] when the loop is at the voxel of [idx]. *)
Lemma add_peak_ok (xyz : list nat) (rgb : ndarray float) (k : nat) :
  shape rgb = [x; y; z; c] ->
  in_bounds [x; y; z] xyz = true ->
  k < length Ps -> k < length Fs -> k < length Gs ->
  exists rgb',
    add_peak Ps Fs Gs xyz rgb k = Ok rgb' /\ shape rgb' = [x; y; z; c] /\
    forall idx,
      item rgb' idx =
      if bool_decide (firstn 3 idx = xyz)
      then (item rgb idx
            + PrimFloat.abs
                (item (nth k Ps (full [] 0%float))
                      (xyz ++ [channel_of c idx]))
              * item (nth k Fs (full [] 0%float)) xyz
              * item (nth k Gs (full [] 0%float)) xyz)%float
      else item rgb idx.
Proof.
  intros Hrgb Hxyz HkP HkF HkG. unfold add_peak.
  rewrite (list_get_nth Ps k (full [] 0%float) HkP). cbn [rbind].
  assert (shape (nth k Ps (full [] 0%float)) = [x; y; z; c]) as HsP.
  { rewrite List.Forall_forall in HPs. apply HPs. now apply nth_In. }
  rewrite HsP. cbn [firstn]. rewrite Hxyz. cbn [negb].
  rewrite (list_get_nth Fs k (full [] 0%float) HkF). cbn [rbind].
  rewrite (Forall_nth_take _ Fs (length Ps) k _ HFs HkP HkF).
  rewrite Hxyz. cbn [negb].
  rewrite (list_get_nth Gs k (full [] 0%float) HkG). cbn [rbind].
  rewrite (Forall_nth_take _ Gs (length Ps) k _ HGs HkP HkG).
  rewrite Hxyz. cbn [negb]. rewrite Hrgb.
  change (List.last [x; y; z; c] 0) with c.
  rewrite Nat.eqb_refl. cbn [orb negb].
  eexists. split; [reflexivity|]. split; [reflexivity|].
  intros idx. reflexivity.
Qed.

(** The inner loop over some populations, at one voxel. *)
Lemma inner_loop_ok (xyz : list nat) (ks : list nat) :
  in_bounds [x; y; z] xyz = true ->
  Forall (fun k => k < length Ps /\ k < length Fs /\ k < length Gs) ks ->
  forall rgb, shape rgb = [x; y; z; c] ->
  exists rgb',
    rfold (add_peak Ps Fs Gs xyz) ks rgb = Ok rgb' /\
    shape rgb' = [x; y; z; c] /\
    forall idx,
      item rgb' idx =
      if bool_decide (firstn 3 idx = xyz)
      then fold_left
             (fun acc k =>
                (acc + PrimFloat.abs
                         (item (nth k Ps (full [] 0%float))
                               (xyz ++ [channel_of c idx]))
                       * item (nth k Fs (full [] 0%float)) xyz
                       * item (nth k Gs (full [] 0%float)) xyz)%float)
             ks (item rgb idx)
      else item rgb idx.
Proof.
  intros Hxyz Hks. induction Hks as [|k ks (HkP & HkF & HkG) Hks IH];
    intros rgb Hrgb.
  - exists rgb. split; [reflexivity|]. split; [exact Hrgb|].
    intros idx. cbn. now destruct (bool_decide _).
  - destruct (add_peak_ok xyz rgb k Hrgb Hxyz HkP HkF HkG)
      as (rgb1 & Hstep & Hs1 & Hitem1).
    destruct (IH rgb1 Hs1) as (rgb' & Hrun & Hs & Hitem).
    exists rgb'. cbn [rfold]. rewrite Hstep. cbn [rbind].
    split; [exact Hrun|]. split; [exact Hs|].
    intros idx. rewrite Hitem, Hitem1. cbn [fold_left].
    now destruct (bool_decide (firstn 3 idx = xyz)).
Qed.

(** The outer loop over some voxels. *)
Lemma outer_loop_ok (ks : list nat) (vs : list (list nat)) :
  Forall (fun k => k < length Ps /\ k < length Fs /\ k < length Gs) ks ->
  List.NoDup vs ->
  Forall (fun v => in_bounds [x; y; z] v = true) vs ->
  forall rgb, shape rgb = [x; y; z; c] ->
  exists rgb',
    rfold (fun rgb xyz => rfold (add_peak Ps Fs Gs xyz) ks rgb) vs rgb
    = Ok rgb' /\
    shape rgb' = [x; y; z; c] /\
    forall idx,
      item rgb' idx =
      if bool_decide (firstn 3 idx ∈ vs)
      then fold_left
             (fun acc k =>
                (acc + PrimFloat.abs
                         (item (nth k Ps (full [] 0%float))
                               (firstn 3 idx ++ [channel_of c idx]))
                       * item (nth k Fs (full [] 0%float)) (firstn 3 idx)
                       * item (nth k Gs (full [] 0%float)) (firstn 3 idx))%float)
             ks (item rgb idx)
      else item rgb idx.
Proof.
  intros Hks Hnd Hvs. induction Hvs as [|v vs Hv Hvs IH]; intros rgb Hrgb.
  - exists rgb. split; [reflexivity|]. split; [exact Hrgb|].
    intros idx. rewrite bool_decide_eq_false_2; [reflexivity|].
    apply not_elem_of_nil.
  - apply List.NoDup_cons_iff in Hnd as [Hnin Hnd].
    rewrite <- list_elem_of_In in Hnin.
    destruct (inner_loop_ok v ks Hv Hks rgb Hrgb)
      as (rgb1 & Hstep & Hs1 & Hitem1).
    destruct (IH Hnd rgb1 Hs1) as (rgb' & Hrun & Hs & Hitem).
    exists rgb'. cbn [rfold]. rewrite Hstep. cbn [rbind].
    split; [exact Hrun|]. split; [exact Hs|].
    intros idx. rewrite Hitem, Hitem1.
    destruct (bool_decide (firstn 3 idx ∈ vs)) eqn:Hin.
    + apply bool_decide_eq_true in Hin.
      rewrite bool_decide_eq_false_2 by (intros Heq; rewrite Heq in Hin; contradiction).
      rewrite bool_decide_eq_true_2 by (apply elem_of_cons; now right).
      reflexivity.
    + apply bool_decide_eq_false in Hin.
      destruct (bool_decide (firstn 3 idx = v)) eqn:Hv3.
      * apply bool_decide_eq_true in Hv3.
        rewrite bool_decide_eq_true_2 by (apply elem_of_cons; now left).
        now rewrite Hv3.
      * apply bool_decide_eq_false in Hv3.
        rewrite bool_decide_eq_false_2; [reflexivity|].
        intros Hin'. apply elem_of_cons in Hin' as [Heq|Hin'];
          [congruence|contradiction].
Qed.

End PeaksFacts.

Lemma forallb_shape {A} (s : list nat) (n : nat) (l : list (ndarray A)) :
  length s = n -> Forall (fun a => shape a = s) l ->
  forallb (fun a => (ndim a =? n)%nat) l = true.
Proof.
  intros Hn HF. apply forallb_forall. intros a Ha.
  rewrite List.Forall_forall in HF. unfold ndim. rewrite (HF a Ha).
  now apply Nat.eqb_eq.
Qed.

(** X13.  On peaks of one shape (x,y,z,c), with fraction maps of shape
    (x,y,z) for each of them (or none given: ones are taken), also when
    the peaks come as one array of shape (x,y,z,c) or (x,y,z,c,K),
    peaks_to_RGB returns an array of shape (x,y,z,c) whose entry at
    (i,j,k,n) is 0.0 plus, added in the order of the list, the terms
    |peak[i,j,k,n]| * frac[i,j,k] * fvf[i,j,k]. *)
Theorem peaks_to_RGB_sum (peaks : peaks_arg)
    (fracList fvfList : option (list (ndarray float))) (x y z c : nat) :
  let Ps := as_peaks_list peaks in
  let Fs := default_ones Ps fracList in
  let Gs := default_ones Ps fvfList in
  Ps <> [] ->
  Forall (fun P => shape P = [x; y; z; c]) Ps ->
  length Ps <= length Fs -> length Ps <= length Gs ->
  Forall (fun F => shape F = [x; y; z]) (firstn (length Ps) Fs) ->
  Forall (fun G => shape G = [x; y; z]) (firstn (length Ps) Gs) ->
  exists rgb,
    peaks_to_RGB peaks fracList fvfList = Some (Ok rgb) /\
    shape rgb = [x; y; z; c] /\
    forall idx, in_bounds [x; y; z; c] idx = true ->
      item rgb idx =
      fold_left (fun acc k => (acc + peak_term Ps Fs Gs idx k)%float)
                (seq 0 (length Ps)) 0%float.
Proof.
  intros Ps Fs Gs Hne HPs HlF HlG HFs HGs.
  unfold peaks_to_RGB. fold Ps. fold Fs. fold Gs.
  unfold documented_ranks.
  rewrite (forallb_shape [x; y; z; c] 4 Ps eq_refl HPs).
  rewrite (forallb_shape [x; y; z] 3 _ eq_refl HFs).
  rewrite (forallb_shape [x; y; z] 3 _ eq_refl HGs).
  cbn [andb].
  destruct Ps as [|p0 Ps'] eqn:HPs0; [contradiction|].
  rewrite <- HPs0 in *. 
  assert (list_get Ps 0 = Ok p0) as Hget by (rewrite HPs0; reflexivity).
  rewrite Hget. cbn [rbind].
  assert (shape p0 = [x; y; z; c]) as Hp0.
  { rewrite HPs0 in HPs. now apply Forall_inv in HPs. }
  rewrite Hp0. cbn [firstn].
  destruct (outer_loop_ok Ps Fs Gs x y z c HPs HFs HGs
              (seq 0 (length Ps)) (ndindex [x; y; z]))
    with (rgb := full [x; y; z; c] 0%float)
    as (rgb & Hrun & Hs & Hitem).
  - apply List.Forall_forall. intros k Hk. apply in_seq in Hk. lia.
  - apply NoDup_ndindex.
  - apply List.Forall_forall. intros v Hv. now apply in_ndindex.
  - reflexivity.
  - exists rgb. split; [now rewrite Hrun|]. split; [exact Hs|].
    intros idx Hb. rewrite Hitem.
    apply in_bounds_4 in Hb as (i & j & k & n & -> & Hi & Hj & Hk & Hn).
    rewrite bool_decide_eq_true_2.
    2:{ apply list_elem_of_In, in_ndindex. cbn [firstn in_bounds].
        now rewrite (ltb_true _ _ Hi), (ltb_true _ _ Hj), (ltb_true _ _ Hk). }
    cbn [full item]. apply fold_left_pointwise. intros acc q.
    unfold peak_term, channel_of. cbn [firstn app List.last].
    destruct (c =? 1)%nat eqn:Hc1; [|reflexivity].
    apply Nat.eqb_eq in Hc1. now replace n with 0 by lia.
Qed.

Lemma peaks_to_RGB_sum_witness :
  exists rgb,
    peaks_to_RGB (PeaksList [peak_A; peak_B]) None
      (Some [frac_half; frac_half]) = Some (Ok rgb) /\
    shape rgb = [1; 1; 2; 3] /\
    item rgb [0; 0; 1; 1] = 1.25%float.
Proof.
  destruct (peaks_to_RGB_sum (PeaksList [peak_A; peak_B]) None
              (Some [frac_half; frac_half]) 1 1 2 3)
    as (rgb & Hrun & Hs & Hitem).
  - discriminate.
  - repeat constructor.
  - cbn. lia.
  - cbn. lia.
  - repeat constructor.
  - repeat constructor.
  - exists rgb. split; [exact Hrun|]. split; [exact Hs|].
    rewrite (Hitem [0; 0; 1; 1] eq_refl). vm_compute. reflexivity.
Defined.

Lemma rfold_congr {B} (f f' : ndarray float -> B -> result (ndarray float))
    (l : list B) :
  (forall a a' b, same_array a a' -> same_result (f a b) (f' a' b)) ->
  forall a a', same_array a a' ->
               same_result (rfold f l a) (rfold f' l a').
Proof.
  intros Hf. induction l as [|b l IH]; intros a a' Ha; cbn [rfold].
  - exact Ha.
  - specialize (Hf a a' b Ha).
    destruct (f a b) as [a1|e], (f' a' b) as [a1'|e']; cbn in Hf |- *;
      try contradiction; [now apply IH|exact Hf].
Qed.

Lemma list_get_Forall2 {A} (R : A -> A -> Prop) (l l' : list A) (k : nat) :
  Forall2 R l l' ->
  match list_get l k, list_get l' k with
  | Ok a, Ok a' => R a a'
  | Raise e, Raise e' => e = e'
  | _, _ => False
  end.
Proof.
  intros HR. revert k. induction HR as [|a a' l l' Ha HR IH]; intros k.
  - reflexivity.
  - destruct k as [|k]; [exact Ha|]. apply IH.
Qed.

Lemma add_peak_congr (Ps Ps' Fs Gs : list (ndarray float)) (xyz : list nat)
    (rgb rgb' : ndarray float) (k : nat) :
  Forall2 same_magnitude Ps Ps' -> same_array rgb rgb' ->
  same_result (add_peak Ps Fs Gs xyz rgb k) (add_peak Ps' Fs Gs xyz rgb' k).
Proof.
  intros HPs [Hs Hit]. unfold add_peak.
  pose proof (list_get_Forall2 _ Ps Ps' k HPs) as HP.
  destruct (list_get Ps k) as [P|e], (list_get Ps' k) as [P'|e'];
    try contradiction; cbn [rbind]; [|exact HP].
  destruct HP as [HsP HabsP]. rewrite HsP.
  destruct (negb (in_bounds (firstn 3 (shape P)) xyz)); [reflexivity|].
  destruct (list_get Fs k) as [F|e]; cbn [rbind]; [|reflexivity].
  destruct (negb (in_bounds (shape F) xyz)); [reflexivity|].
  destruct (list_get Gs k) as [G|e]; cbn [rbind]; [|reflexivity].
  destruct (negb (in_bounds (shape G) xyz)); [reflexivity|].
  cbv zeta. rewrite Hs.
  destruct (negb _); [reflexivity|].
  split; [reflexivity|]. intros idx. cbn [item].
  now rewrite Hit, HabsP.
Qed.

Lemma documented_ranks_congr (Ps Ps' Fs Gs : list (ndarray float)) :
  Forall2 same_magnitude Ps Ps' ->
  documented_ranks Ps' Fs Gs = documented_ranks Ps Fs Gs.
Proof.
  intros HPs. unfold documented_ranks.
  rewrite <- (Forall2_length _ _ _ HPs). f_equal. f_equal.
  induction HPs as [|P P' Ps Ps' [HsP _] _ IH]; [reflexivity|].
  cbn [forallb]. unfold ndim at 1 3. now rewrite HsP, IH.
Qed.

Lemma default_ones_congr (Ps Ps' : list (ndarray float))
    (given : option (list (ndarray float))) :
  Forall2 same_magnitude Ps Ps' ->
  default_ones Ps' given = default_ones Ps given.
Proof.
  intros HPs. unfold default_ones. destruct given as [l|]; [reflexivity|].
  pose proof (Forall2_length _ _ _ HPs) as Hl.
  destruct HPs as [|P P' Ps Ps' [HsP _] _]; [reflexivity|].
  now rewrite HsP, Hl.
Qed.

(** X14.  The colour map does not depend on the sign of any peak
    entry: two lists of peaks of the same shapes whose entries have the
    same absolute values give the same exception or arrays that are
    equal at every index. *)
Theorem peaks_to_RGB_sign_invariant (Ps Ps' : list (ndarray float))
    (fracList fvfList : option (list (ndarray float))) :
  Forall2 same_magnitude Ps Ps' ->
  match peaks_to_RGB (PeaksList Ps) fracList fvfList,
        peaks_to_RGB (PeaksList Ps') fracList fvfList with
  | Some r, Some r' => same_result r r'
  | None, None => True
  | _, _ => False
  end.
Proof.
  intros HPs. unfold peaks_to_RGB. cbn [as_peaks_list].
  rewrite !(default_ones_congr Ps Ps' _ HPs).
  rewrite (documented_ranks_congr Ps Ps' _ _ HPs).
  destruct (documented_ranks Ps _ _); [|exact I].
  pose proof (list_get_Forall2 _ Ps Ps' 0 HPs) as H0.
  destruct (list_get Ps 0) as [p0|e], (list_get Ps' 0) as [p0'|e'];
    try contradiction; cbn [rbind]; [|exact H0].
  destruct H0 as [Hs0 _]. rewrite Hs0.
  rewrite <- (Forall2_length _ _ _ HPs).
  apply rfold_congr; [|split; reflexivity].
  intros a a' xyz Ha. apply rfold_congr; [|exact Ha].
  intros b b' k Hb. now apply add_peak_congr.
Qed.

Lemma peaks_to_RGB_sign_invariant_witness :
  exists rgb rgb',
    peaks_to_RGB (PeaksList [peak_A; peak_B]) None None = Some (Ok rgb) /\
    peaks_to_RGB (PeaksList [np_neg peak_A; peak_B]) None None
    = Some (Ok rgb') /\
    item rgb' [0; 0; 1; 1] = item rgb [0; 0; 1; 1].
Proof.
  pose proof (peaks_to_RGB_sign_invariant [peak_A; peak_B]
                [np_neg peak_A; peak_B] None None) as Hinv.
  destruct (peaks_to_RGB (PeaksList [peak_A; peak_B]) None None)
    as [[rgb|e]|] eqn:Hrun; try (vm_compute in Hrun; discriminate).
  destruct (peaks_to_RGB (PeaksList [np_neg peak_A; peak_B]) None None)
    as [[rgb'|e]|] eqn:Hrun'; try (vm_compute in Hrun'; discriminate).
  exists rgb, rgb'. split; [reflexivity|]. split; [reflexivity|].
  destruct Hinv as [_ Hitem].
  - constructor; [|constructor; [|constructor]].
    + split; [reflexivity|]. intros idx. apply F64_arith.abs_opp.
    + split; reflexivity.
  - symmetry. apply Hitem.
Defined.

Lemma rfold_app {A B} (f : A -> B -> result A) (l1 l2 : list B) (a : A) :
  rfold f (l1 ++ l2) a = (a' <~ rfold f l1 a ;; rfold f l2 a').
Proof.
  revert a. induction l1 as [|b l1 IH]; intros a; cbn [app rfold rbind];
    [reflexivity|].
  destruct (f a b) as [a1|e]; cbn [rbind]; [apply IH|reflexivity].
Qed.

Lemma ndindex_empty_grid (x y z : nat) :
  x * y * z = 0 -> ndindex [x; y; z] = [].
Proof.
  intros H0. destruct (ndindex [x; y; z]) as [|v l] eqn:Hnd; [reflexivity|].
  exfalso.
  assert (In v (ndindex [x; y; z])) as Hin by (rewrite Hnd; now left).
  apply in_ndindex in Hin.
  destruct (in_bounds_3 _ _ _ _ Hin) as (i & j & k & ->).
  cbn [in_bounds] in Hin. rewrite andb_true_r in Hin.
  apply andb_prop in Hin as [Hi Hin]. apply andb_prop in Hin as [Hj Hk].
  apply Nat.ltb_lt in Hi, Hj, Hk.
  apply Nat.eq_mul_0 in H0 as [H0|H0]; [apply Nat.eq_mul_0 in H0|]; lia.
Qed.

Lemma ndindex_first (x y z : nat) :
  x * y * z <> 0 -> exists rest, ndindex [x; y; z] = [0; 0; 0] :: rest.
Proof.
  intros Hne.
  destruct x as [|x]; [lia|]. destruct y as [|y]; [lia|].
  destruct z as [|z]; [lia|].
  cbn [ndindex seq flat_map map app]. eexists. reflexivity.
Qed.

(** X15.  With a list of fractions (or of fibre volume fractions)
    that is shorter than the list of peaks, peaks_to_RGB raises
    IndexError as soon as the grid has a voxel; on a grid with an empty
    axis the loop body never runs and an array of zeros is returned. *)
Theorem peaks_to_RGB_short_lists (Ps Fs Gs : list (ndarray float))
    (x y z c : nat) :
  Ps <> [] ->
  Forall (fun P => shape P = [x; y; z; c]) Ps ->
  Forall (fun F => shape F = [x; y; z]) Fs ->
  Forall (fun G => shape G = [x; y; z]) Gs ->
  length Fs < length Ps \/ length Gs < length Ps ->
  peaks_to_RGB (PeaksList Ps) (Some Fs) (Some Gs) =
  Some (if (x * y * z =? 0)%nat then Ok (full [x; y; z; c] 0%float)
        else Raise IndexError).
Proof.
  intros Hne HPs HFs HGs Hshort.
  assert (Forall (fun F => shape F = [x; y; z]) (firstn (length Ps) Fs))
    as HFs' by (now apply Forall_take).
  assert (Forall (fun G => shape G = [x; y; z]) (firstn (length Ps) Gs))
    as HGs' by (now apply Forall_take).
  unfold peaks_to_RGB. cbn [as_peaks_list default_ones].
  unfold documented_ranks.
  rewrite (forallb_shape [x; y; z; c] 4 Ps eq_refl HPs).
  rewrite (forallb_shape [x; y; z] 3 _ eq_refl HFs').
  rewrite (forallb_shape [x; y; z] 3 _ eq_refl HGs').
  cbn [andb]. f_equal.
  destruct Ps as [|p0 Ps'] eqn:HPs0; [contradiction|].
  rewrite <- HPs0 in *.
  assert (list_get Ps 0 = Ok p0) as Hget by (rewrite HPs0; reflexivity).
  rewrite Hget. cbn [rbind].
  assert (shape p0 = [x; y; z; c]) as Hp0.
  { rewrite HPs0 in HPs. now apply Forall_inv in HPs. }
  rewrite Hp0. cbn [firstn].
  destruct (x * y * z =? 0)%nat eqn:Hgrid.
  - apply Nat.eqb_eq in Hgrid. now rewrite (ndindex_empty_grid x y z Hgrid).
  - apply Nat.eqb_neq in Hgrid.
    destruct (ndindex_first x y z Hgrid) as [rest Hnd].
    assert (in_bounds [x; y; z] [0; 0; 0] = true) as Hb0.
    { apply in_ndindex. rewrite Hnd. now left. }
    rewrite Hnd. cbn [rfold].
    set (m := Nat.min (length Fs) (length Gs)).
    assert (m < length Ps) as Hm by lia.
    replace (seq 0 (length Ps))
      with (seq 0 m ++ m :: seq (S m) (length Ps - S m)).
    2:{ change (m :: seq (S m) (length Ps - S m))
          with (seq m (S (length Ps - S m))).
        rewrite <- seq_app. f_equal. lia. }
    rewrite rfold_app.
    destruct (inner_loop_ok Ps Fs Gs x y z c HPs HFs' HGs' [0; 0; 0] (seq 0 m)
                Hb0)
      with (rgb := full [x; y; z; c] 0%float)
      as (rgb1 & Hrun1 & Hs1 & _).
    { apply List.Forall_forall. intros k Hk. apply in_seq in Hk. lia. }
    { reflexivity. }
    rewrite Hrun1. cbn [rbind rfold].
    assert (add_peak Ps Fs Gs [0; 0; 0] rgb1 m = Raise IndexError) as Hstop.
    { unfold add_peak.
      rewrite (list_get_nth Ps m (full [] 0%float) Hm). cbn [rbind].
      assert (shape (nth m Ps (full [] 0%float)) = [x; y; z; c]) as HsP.
      { rewrite List.Forall_forall in HPs. apply HPs. now apply nth_In. }
      rewrite HsP. cbn [firstn]. rewrite Hb0. cbn [negb].
      destruct (Nat.lt_ge_cases m (length Fs)) as [HmF|HmF].
      - rewrite (list_get_nth Fs m (full [] 0%float) HmF). cbn [rbind].
        assert (shape (nth m Fs (full [] 0%float)) = [x; y; z]) as HsF.
        { rewrite List.Forall_forall in HFs. apply HFs. now apply nth_In. }
        rewrite HsF, Hb0. cbn [negb].
        unfold list_get. rewrite (proj2 (lookup_ge_None Gs m)) by lia.
        reflexivity.
      - unfold list_get at 1. rewrite (proj2 (lookup_ge_None Fs m)) by lia.
        reflexivity. }
    rewrite Hstop. reflexivity.
Qed.

Lemma peaks_to_RGB_short_lists_witness :
  peaks_to_RGB (PeaksList [peak_A; peak_B]) (Some [frac_half])
    (Some [frac_half; frac_half]) = Some (Raise IndexError) /\
  peaks_to_RGB (PeaksList [full [0; 1; 2; 3] 1%float]) (Some []) (Some [])
  = Some (Ok (full [0; 1; 2; 3] 0%float)).
Proof.
  split.
  - apply (peaks_to_RGB_short_lists [peak_A; peak_B] [frac_half]
             [frac_half; frac_half] 1 1 2 3).
    + discriminate.
    + repeat constructor.
    + repeat constructor.
    + repeat constructor.
    + left. cbn. lia.
  - apply (peaks_to_RGB_short_lists [full [0; 1; 2; 3] 1%float] [] [] 0 1 2 3).
    + discriminate.
    + repeat constructor.
    + constructor.
    + constructor.
    + left. cbn. lia.
Defined.

(** X16.  Without any peak, be it an empty list or an array with five
    axes whose last is empty, peaks_to_RGB raises IndexError at
    peaksList[0], whatever the fractions. *)
Theorem peaks_to_RGB_without_peaks (peaks : peaks_arg)
    (fracList fvfList : option (list (ndarray float))) :
  as_peaks_list peaks = [] ->
  peaks_to_RGB peaks fracList fvfList = Some (Raise IndexError).
Proof.
  intros Hnil. unfold peaks_to_RGB. rewrite Hnil. reflexivity.
Qed.

Lemma peaks_to_RGB_without_peaks_witness :
  peaks_to_RGB (PeaksList []) None None = Some (Raise IndexError) /\
  peaks_to_RGB (PeaksArray (full [2; 2; 2; 3; 0] 1%float)) None None
  = Some (Raise IndexError).
Proof.
  split.
  - now apply (peaks_to_RGB_without_peaks (PeaksList []) None None).
  - now apply (peaks_to_RGB_without_peaks
                 (PeaksArray (full [2; 2; 2; 3; 0] 1%float)) None None).
Defined.

(* ------------------------------------------------------------------ *)
(** ** unravel/viz.py: grayscale_to_rgb *)

(** X17.  grayscale_to_rgb by the rank of its argument: on fewer than
    three axes np.repeat raises AxisError; on three axes the result has
    shape (x,y,z,3) and each of its three channels is the argument; on
    more axes nothing is raised, the fourth axis is repeated threefold
    and a unit axis is appended. *)
Theorem grayscale_to_rgb_by_rank {A} (array : ndarray A) :
  match shape array with
  | x :: y :: z :: rest =>
      exists out,
        grayscale_to_rgb array = Ok out /\
        match rest with
        | [] =>
            shape out = [x; y; z; 3] /\
            forall i j k c,
              item out [i; j; k; c] = item array [i; j; k] /\
              shape (take_last out c) = shape array /\
              item (take_last out c) [i; j; k] = item array [i; j; k]
        | c :: rest' => shape out = x :: y :: z :: 3 * c :: rest' ++ [1]
        end
  | _ => grayscale_to_rgb array = Raise AxisError
  end.
Proof.
  destruct array as [s it]. cbn [shape].
  destruct s as [|x [|y [|z [|c rest]]]]; try reflexivity.
  - eexists. split; [reflexivity|]. split; [reflexivity|].
    intros i j k c. repeat split.
  - eexists. split; reflexivity.
Qed.

(* ------------------------------------------------------------------ *)
(** ** unravel/viz.py: more on overlap_volumes *)

Section MoreOverlay.
Variable resample : ndarray float -> list (nat * nat) -> nat -> list nat -> float.









Lemma prepared_shapes (M0 M1 M2 order : nat) (Ws Ps : list (ndarray float)) :
  order <= 5 ->
  0 < M0 -> 0 < M1 -> 0 < M2 ->
  Forall (fun V => volume_shape_ok (shape V)) Ws ->
  Forall2 (fun V P => prepare_layer resample [M0; M1; M2] order V = Ok P)
          Ws Ps ->
  Forall2 (fun V P => prepare_layer resample [M0; M1; M2] order V = Ok P /\
                      shape P = [M0; M1; M2; 3]) Ws Ps.
Proof.
  intros Ho H0 H1 H2 Hok HPs.
  induction HPs as [|W P Ws Ps HP HPs IH]; [constructor|].
  apply Forall_cons in Hok as [HW Hok].
  constructor; [|now apply IH]. split; [exact HP|].
  destruct (prepare_layer_ok resample order W _ _ _ Ho HW H0 H1 H2)
    as (P' & HP' & Hs).
  rewrite HP in HP'. inversion HP'; subst P'. exact Hs.
Qed.

(** X19.  The compositing rule for any number of documented volumes,
    both output modes and every spline order that scipy supports (at
    most 5): each volume is brought to three channels,
    resampled to the largest extents and divided by its maximum; every
    entry of the output is that of the first volume of the list whose
    prepared layer is opaque at the voxel (its channels do not sum to
    zero), and 0 where none is.  With rgb=False the entry is channel 0
    of that. *)
Theorem overlap_volumes_topmost (rgb : bool) (order : nat) (st : pystate)
    (Vs : list (ndarray float)) :
  order <= 5 ->
  volumes_of st Vs ->
  Forall (fun V => volume_shape_ok (shape V)) Vs ->
  exists Ps st' out,
    Forall2 (fun V P => prepare_layer resample (max_extent (map shape Vs))
                          order V = Ok P /\
                        shape P = max_extent (map shape Vs) ++ [3]) Vs Ps /\
    overlap_volumes resample rgb order st = (st', Ok out) /\
    forall idx,
      item out idx = topmost Ps 0%float (if rgb then idx else idx ++ [0]).
Proof.
  intros Ho Hvol Hok. destruct Vs as [|V Vs].
  - destruct (overlay_ok resample rgb order [] Ho Hok) as (out & Hout & _).
    destruct (overlap_volumes_runs resample rgb order st [] out Hvol Hout)
      as (h' & _ & Hrun).
    exists [], (mk_pystate h' []), out. split; [constructor|].
    split; [exact Hrun|]. intros idx. unfold overlay in Hout.
    cbn in Hout. inversion Hout. now destruct rgb.
  - destruct (max_extent_pos V Vs (Forall_inv Hok)) as (H0 & H1 & H2).
    destruct (composite_rule resample order _ _ _ (List.rev (V :: Vs)) Ho
                (Forall_rev Hok) H0 H1 H2
                (full (max_extent (map shape (V :: Vs)) ++ [3]) 0%float)
                eq_refl)
      as (Ps & B & HPs & HB & _ & Hitem).
    assert (overlay resample rgb order (V :: Vs)
            = Ok (if rgb then B else take_last B 0)) as Hov.
    { rewrite (overlay_unfold resample rgb order _ Hok).
      unfold max_extent in *. now rewrite HB. }
    destruct (overlap_volumes_runs resample rgb order st _ _ Hvol Hov)
      as (h' & _ & Hrun).
    exists (List.rev Ps), (mk_pystate h' []), (if rgb then B else take_last B 0).
    split; [|split; [exact Hrun|]].
    + apply Forall2_rev_rev in HPs. rewrite rev_involutive in HPs.
      now apply prepared_shapes.
    + intros idx. destruct rgb; cbn [take_last item]; apply Hitem.
Qed.

Lemma bind_keeps_list {A B} (c : M pystate A) (k : A -> M pystate B) :
  (forall st, vol_list (fst (c st)) = vol_list st) ->
  (forall a st, vol_list (fst (k a st)) = vol_list st) ->
  forall st, vol_list (fst (bind c k st)) = vol_list st.
Proof.
  intros Hc Hk st. unfold bind. specialize (Hc st).
  destruct (c st) as [st1 [a|e]]; cbn [fst] in *; [|exact Hc].
  now rewrite Hk.
Qed.

Lemma read_keeps_list (a : nat) (st : pystate) :
  vol_list (fst (read a st)) = vol_list st.
Proof. unfold read. now destruct (arrays st !! a). Qed.

Ltac keeps_list :=
  repeat first
    [ apply bind_keeps_list; [intros ?|intros ? ?]
    | apply read_keeps_list
    | reflexivity ].

Lemma paste_layer_keeps_list max_size order back layer (st : pystate) :
  vol_list (fst (paste_layer resample max_size order back layer st))
  = vol_list st.
Proof. revert st. unfold paste_layer. keeps_list. Qed.

Lemma process_layer_keeps_list max_size order back layer (st : pystate) :
  vol_list (fst (process_layer resample max_size order back layer st))
  = vol_list st.
Proof.
  revert st. unfold process_layer.
  apply bind_keeps_list; [intros st; apply read_keeps_list|intros L].
  apply bind_keeps_list; [reflexivity|intros d].
  apply bind_keeps_list; [|intros l st; apply paste_layer_keeps_list].
  destruct (negb (d =? 3)%nat); keeps_list.
Qed.

(** What the loop leaves of the list: nothing when it ends, and a
    proper prefix when an exception stops it. *)
Lemma compose_layers_prefix max_size order back (fuel : nat) :
  forall st : pystate,
    length (vol_list st) <= fuel ->
    exists k,
      vol_list (fst (compose_layers resample fuel max_size order back st))
      = firstn k (vol_list st) /\
      match snd (compose_layers resample fuel max_size order back st) with
      | Ok _ => k = 0
      | Raise _ => k < length (vol_list st)
      end.
Proof.
  induction fuel as [|fuel IH]; intros [h vl] Hfuel; cbn [vol_list] in *.
  - destruct vl; [|cbn in Hfuel; lia]. exists 0. split; reflexivity.
  - destruct vl as [|a0 vl0] using rev_ind.
    { exists 0. split; reflexivity. }
    clear IHvl0. rewrite length_app in Hfuel. cbn in Hfuel.
    cbn [compose_layers].
    rewrite (bind_ok _ _ (mk_pystate h (vl0 ++ [a0]))
               (mk_pystate h (vl0 ++ [a0])) (length (vl0 ++ [a0])))
      by reflexivity.
    replace (0 <? length (vl0 ++ [a0]))%nat with true
      by (symmetry; apply Nat.ltb_lt; rewrite length_app; simpl; lia).
    rewrite (bind_ok _ _ _ _ _ (list_pop_snoc h vl0 a0)).
    pose proof (process_layer_keeps_list max_size order back a0
                  (mk_pystate h vl0)) as Hkeep.
    destruct (process_layer resample max_size order back a0 (mk_pystate h vl0))
      as [st1 [[]|e]] eqn:Hrun; cbn [fst vol_list] in Hkeep.
    + rewrite (bind_ok _ _ _ _ _ Hrun).
      destruct (IH st1) as (k & Hk & Hr); [rewrite Hkeep; lia|].
      rewrite Hkeep in Hk, Hr.
      exists k. rewrite length_app. cbn [length].
      destruct (snd (compose_layers resample fuel max_size order back st1)).
      * subst k. split; [exact Hk|reflexivity].
      * split; [|lia]. rewrite Hk.
        now rewrite take_app_le by lia.
    + rewrite (bind_raise _ _ _ _ _ Hrun). cbn [fst snd].
      exists (length vl0). rewrite Hkeep, length_app. cbn [length].
      split; [|lia]. now rewrite take_app_length.
Qed.

Lemma scan_shapes_raise (shapes : list (list nat)) :
  forall ms e, scan_shapes shapes ms = Raise e -> e = ValueError.
Proof.
  induction shapes as [|s shapes IH]; intros ms e; cbn [scan_shapes];
    [discriminate|].
  unfold unpack3 at 1.
  destruct (firstn 3 s) as [|x [|y [|z [|]]]]; cbn [rbind];
    try (intros He; now inversion He).
  apply IH.
Qed.

(** X20.  When overlap_volumes raises, no array that was on the heap
    has been modified, and the caller's list is left as a prefix of
    what it was.  When some volume has fewer than three axes the
    exception is the ValueError of the first loop and nothing has
    changed at all; otherwise it is raised inside the while loop and
    the list has lost at least the volume being processed. *)
Theorem overlap_volumes_raise_frame (rgb : bool) (order : nat)
    (st st' : pystate) (e : pyexn) (Vs : list (ndarray float)) :
  volumes_of st Vs ->
  overlap_volumes resample rgb order st = (st', Raise e) ->
  (forall a, a < length (arrays st) -> arrays st' !! a = arrays st !! a) /\
  (exists k, vol_list st' = firstn k (vol_list st) /\
             (Forall (fun V => 3 <= ndim V) Vs -> k < length (vol_list st))) /\
  (~ Forall (fun V => 3 <= ndim V) Vs -> st' = st /\ e = ValueError).
Proof.
  intros Hvol Hrun. split.
  { destruct (overlap_volumes_spec resample rgb order st Vs Hvol)
      as (h' & vl' & [_ Hp] & Hspec).
    destruct (overlay resample rgb order Vs) as [out|e'];
      rewrite Hspec in Hrun; inversion Hrun; subst.
    intros a Ha. apply Hp; lia. }
  pose proof (overlap_volumes_spec resample rgb order st Vs Hvol) as Hspec.
  unfold volumes_of in Hvol. unfold overlap_volumes in Hrun.
  destruct st as [h vl]. cbn [arrays vol_list] in *.
  rewrite (bind_ok _ _ (mk_pystate h vl) (mk_pystate h vl) (mk_pystate h vl))
    in Hrun by reflexivity.
  cbn [vol_list] in Hrun.
  rewrite (bind_run _ _ _ _ _
             (scan_sizes_spec vl Vs [0; 0; 0] (mk_pystate h vl) Hvol)) in Hrun.
  destruct (scan_shapes (map shape Vs) [0; 0; 0]) as [ms|e0] eqn:Hscan.
  - pose proof (scan_shapes_rank _ _ _ Hscan) as Hrank.
    rewrite Forall_map in Hrank.
    split; [|intros Hn; contradiction].
    rewrite (bind_ok _ _ _ _ _ (alloc_ok _ _ _)) in Hrun.
    destruct (compose_layers_prefix ms order (length h) (length vl)
                (mk_pystate (h ++ [full (ms ++ [3]) 0%float]) vl) (le_n _))
      as (k & Hk & Hr).
    cbn [vol_list] in Hk, Hr.
    destruct (compose_layers resample (length vl) ms order (length h)
                (mk_pystate (h ++ [full (ms ++ [3]) 0%float]) vl))
      as [st2 [[]|e2]] eqn:Hloop; cbn [fst snd] in Hk, Hr.
    + rewrite (bind_ok _ _ _ _ _ Hloop) in Hrun. subst k.
      destruct vl as [|a vl].
      * exfalso. apply Forall2_nil_inv_l in Hvol. subst Vs.
        destruct Hspec as (h' & vl' & _ & Hspec). cbn in Hspec.
        unfold overlap_volumes in Hspec. cbn in Hspec.
        cbn in Hloop. inversion Hloop; subst st2. cbn in Hrun.
        unfold bind, read in Hrun. cbn in Hrun.
        rewrite lookup_snoc in Hrun. destruct rgb; discriminate.
      * exists 0. split; [|intros _; cbn; lia].
        unfold bind in Hrun.
        destruct (read (length h) st2) as [st3 [B|e3]] eqn:Hread.
        -- destruct rgb; discriminate.
        -- inversion Hrun; subst. unfold read in Hread.
           destruct (arrays st2 !! length h); inversion Hread; subst.
           exact Hk.
    + rewrite (bind_raise _ _ _ _ _ Hloop) in Hrun. inversion Hrun; subst.
      exists k. split; [exact Hk|]. intros _. exact Hr.
  - cbn in Hrun. inversion Hrun; subst. split.
    + exists (length vl). split; [now rewrite firstn_all|].
      intros Hrank. exfalso.
      rewrite (scan_shapes_max (map shape Vs)) in Hscan; [discriminate|].
      now rewrite Forall_map.
    + intros _. split; [reflexivity|]. now apply scan_shapes_raise in Hscan.
Qed.

End MoreOverlay.


Lemma overlap_volumes_topmost_witness :
  exists Ps st' out,
    overlap_volumes nearest_resample false 0
      (mk_pystate [vol_A; vol_B] [0; 1]) = (st', Ok out) /\
    length Ps = 2 /\
    item out [1; 0; 0] = topmost Ps 0%float [1; 0; 0; 0].
Proof.
  destruct (overlap_volumes_topmost nearest_resample false 0
              (mk_pystate [vol_A; vol_B] [0; 1]) [vol_A; vol_B])
    as (Ps & st' & out & HPs & Hrun & Hitem).
  - lia.
  - repeat constructor.
  - repeat constructor; cbn; lia.
  - exists Ps, st', out. split; [exact Hrun|].
    split; [now rewrite <- (Forall2_length _ _ _ HPs)|].
    apply (Hitem [1; 0; 0]).
Defined.

Lemma overlap_volumes_raise_frame_witness :
  exists st' e k,
    overlap_volumes nearest_resample true 0
      (mk_pystate [vol_grey; vol_flat3] [0; 1]) = (st', Raise e) /\
    arrays st' !! 0 = Some vol_grey /\ arrays st' !! 1 = Some vol_flat3 /\
    vol_list st' = firstn k [0; 1] /\ k < 2.
Proof.
  destruct (overlap_volumes nearest_resample true 0
              (mk_pystate [vol_grey; vol_flat3] [0; 1]))
    as [st' [out|e]] eqn:Hrun;
    [apply (f_equal (fun r => returned (snd r))) in Hrun;
     vm_compute in Hrun; discriminate|].
  destruct (overlap_volumes_raise_frame nearest_resample true 0
              (mk_pystate [vol_grey; vol_flat3] [0; 1]) st' e
              [vol_grey; vol_flat3])
    as (Hheap & (k & Hk & Hlt) & _).
  - repeat constructor.
  - exact Hrun.
  - exists st', e, k. split; [reflexivity|].
    split; [apply (Hheap 0); cbn; lia|].
    split; [apply (Hheap 1); cbn; lia|].
    split; [exact Hk|]. apply Hlt. repeat constructor; cbn; lia.
Defined.

(* ------------------------------------------------------------------ *)
(** ** unravel/viz.py: more on compute_alpha_surface *)

Section AlphaShapes.
Context {F : Type} `{Scalar F}.
Variables Vec Rest : Type.
Variables ang raw cfo : kernel (F := F) Vec Rest.

Lemma kernel_fold_shapes (k : kernel Vec Rest) (vList : list Vec)
    (nList : list Z) (l : list (list nat)) :
  forall g : grids,
    let g' := fold_left (kernel_step Vec Rest k vList nList) l g in
    shape (grid_x g') = shape (grid_x g) /\
    shape (grid_y g') = shape (grid_y g) /\
    shape (grid_z g') = shape (grid_z g) /\
    shape (grid_coef g') = shape (grid_coef g).
Proof.
  induction l as [|xyz l IH]; intros g; cbn [fold_left]; [auto|].
  destruct (IH (kernel_step Vec Rest k vList nList g xyz))
    as (Hx & Hy & Hz & Hc).
  cbv zeta. rewrite Hx, Hy, Hz, Hc.
  destruct g as [[[x y] z] coef]. repeat split.
Qed.

(** X21.  Whatever the vectors and the method, the four arrays that
    compute_alpha_surface returns have shape (200,200). *)
Theorem compute_alpha_surface_shapes (vList : list Vec) (method : string) :
  let g := compute_alpha_surface Vec Rest ang raw cfo vList method in
  shape (grid_x g) = [200; 200] /\ shape (grid_y g) = [200; 200] /\
  shape (grid_z g) = [200; 200] /\ shape (grid_coef g) = [200; 200].
Proof.
  cbv zeta. rewrite compute_alpha_surface_selected. unfold surface_with.
  exact (kernel_fold_shapes _ vList _ (ndindex [200; 200]) initial_grids).
Qed.

End AlphaShapes.

(* ------------------------------------------------------------------ *)
(** ** unravel/viz.py: convert_to_gif *)

Lemma in_bounds_positive (s idx : list nat) :
  in_bounds s idx = true -> Forall (fun n => 0 < n) s.
Proof.
  revert idx. induction s as [|n s IH]; intros [|i idx] Hb; cbn in Hb;
    try discriminate; [constructor|].
  apply andb_prop in Hb as [Hi Hb]. apply Nat.ltb_lt in Hi.
  constructor; [lia|]. now apply (IH idx).
Qed.

Lemma np_max_raises (a : ndarray float) :
  ~ Forall (fun n => 0 < n) (shape a) -> np_max a = Raise ValueError.
Proof.
  intros Hz. unfold np_max.
  destruct (ndindex (shape a)) as [|v l] eqn:Hnd; [reflexivity|].
  exfalso. apply Hz. apply (in_bounds_positive _ v).
  apply in_ndindex. rewrite Hnd. now left.
Qed.

Section GifFacts.
Variable Img : Type.
Variable astype_uint8 : float -> N.
Variable fromarray : ndarray N -> outcome Img.

(** X22.  convert_to_gif changes the caller's array: on an array
    without an empty axis it is divided in place by its maximum,
    whatever happens afterwards; an array with an empty axis is left as
    it was and ValueError is raised. *)
Theorem convert_to_gif_normalizes_in_place (array : ndarray float)
    (output_folder extension : string) (axis : Z)
    (transparency keep_frames : bool) :
  let run := convert_to_gif Img astype_uint8 fromarray array output_folder
               extension axis transparency keep_frames in
  (Forall (fun n => 0 < n) (shape array) ->
   exists m, np_max array = Ok m /\ fst run = divide_by m array /\
             forall idx, item (fst run) idx = (item array idx / m)%float) /\
  (~ Forall (fun n => 0 < n) (shape array) ->
   run = (array, Raises ValueError)).
Proof.
  cbv zeta. unfold convert_to_gif. split.
  - intros Hpos. destruct (np_max_ok array Hpos) as [m Hm].
    exists m. rewrite Hm. cbn [fst]. repeat split.
  - intros Hz. now rewrite (np_max_raises array Hz).
Qed.

Lemma make_frames_length (array : ndarray float) (axis : Z)
    (transparency : bool) (entries : list nat) (frames : list Img) :
  make_frames Img astype_uint8 fromarray array axis transparency entries
  = Returns frames ->
  length frames = length entries.
Proof.
  revert frames. induction entries as [|i entries IH]; intros frames;
    cbn [make_frames].
  - intros Hf. now inversion Hf.
  - destruct (make_frame _ _ _ _ _ _ i) as [image|e|name]; try discriminate.
    destruct (make_frames _ _ _ _ _ _ entries) as [fs|e|name];
      try discriminate.
    intros Hf. inversion Hf; subst. cbn. f_equal. now apply IH.
Qed.

Lemma py_index_resolved (s : list nat) (axis : Z) (n : nat) :
  py_index s axis = Ok n ->
  n = nth (resolved_axis (length s) axis) s 0 /\
  resolved_axis (length s) axis < length s.
Proof.
  unfold py_index, resolved_axis.
  destruct (0 <=? axis)%Z.
  - unfold list_get. destruct (s !! Z.to_nat axis) as [a|] eqn:Ha;
      [|discriminate].
    intros Hn. inversion Hn; subst a. split.
    + symmetry. now apply nth_of_lookup.
    + now apply lookup_lt_Some in Ha.
  - destruct (- Z.of_nat (length s) <=? axis)%Z; [|discriminate].
    unfold list_get.
    destruct (s !! Z.to_nat (Z.of_nat (length s) + axis)) as [a|] eqn:Ha;
      [|discriminate].
    intros Hn. inversion Hn; subst a. split.
    + symmetry. now apply nth_of_lookup.
    + now apply lookup_lt_Some in Ha.
Qed.

Lemma np_max_positive (a : ndarray float) (m : float) :
  np_max a = Ok m -> Forall (fun n => 0 < n) (shape a).
Proof.
  unfold np_max. destruct (ndindex (shape a)) as [|v l] eqn:Hnd;
    [discriminate|].
  intros _. apply (in_bounds_positive _ v).
  apply in_ndindex. rewrite Hnd. now left.
Qed.

Lemma frames_shape_positive (s : list nat) :
  Forall (fun n => 0 < n) s -> Forall (fun n => 0 < n) (frames_shape s).
Proof.
  intros Hs. unfold frames_shape. destruct (length s =? 3)%nat; [|exact Hs].
  apply Forall_app. split; [exact Hs|]. repeat constructor.
Qed.

(** The array whose slices become the frames. *)
Lemma to_rgb_shape (a arr : ndarray float) :
  (if (ndim a =? 3)%nat then grayscale_to_rgb a else Ok a) = Ok arr ->
  shape arr = frames_shape (shape a).
Proof.
  unfold frames_shape, ndim.
  destruct (length (shape a) =? 3)%nat eqn:H3.
  - apply Nat.eqb_eq in H3. unfold grayscale_to_rgb, repeat3_axis3.
    cbn [newaxis_last shape].
    destruct (shape a) as [|x [|y [|z [|]]]]; cbn in H3; try lia.
    cbn. intros Harr. now inversion Harr.
  - intros Harr. now inversion Harr.
Qed.

(** X23.  The list handed to save is never empty: whenever the loop of
    lines 134-148 completes, it has made one image per entry of the
    chosen axis, at least one, so that frames[0] of line 155 cannot
    raise IndexError and save is called.  When save is called, the list
    given as append_images holds one image per entry of the chosen axis
    of the array (to which a channel axis has been added when it had
    three axes) and starts with the very image that save is called on:
    the first frame is handed over twice.  disposal is 0 when
    keep_frames is set and 2 otherwise. *)
Theorem convert_to_gif_request (array : ndarray float)
    (output_folder extension : string) (axis : Z)
    (transparency keep_frames : bool) :
  let run := convert_to_gif Img astype_uint8 fromarray array output_folder
               extension axis transparency keep_frames in
  let s := frames_shape (shape array) in
  (forall m arr n frames,
     np_max array = Ok m ->
     (if (ndim array =? 3)%nat then grayscale_to_rgb (divide_by m array)
      else Ok (divide_by m array)) = Ok arr ->
     py_index (shape arr) axis = Ok n ->
     make_frames Img astype_uint8 fromarray arr axis transparency (seq 0 n)
     = Returns frames ->
     0 < n /\ length frames = n /\
     exists first,
       hd_error frames = Some first /\
       run = (divide_by m array,
              Returns (mk_gif_request (output_folder ++ "." ++ extension)
                         first frames (if keep_frames then 0 else 2)))) /\
  (forall array' req,
     run = (array', Returns req) ->
     resolved_axis (length s) axis < length s /\
     length (gif_append_images req) = nth (resolved_axis (length s) axis) s 0 /\
     0 < length (gif_append_images req) /\
     hd_error (gif_append_images req) = Some (gif_first req) /\
     gif_disposal req = (if keep_frames then 0 else 2) /\
     gif_path req = (output_folder ++ "." ++ extension)%string).
Proof.
  cbv zeta.
  assert (forall m arr n frames,
     np_max array = Ok m ->
     (if (ndim array =? 3)%nat then grayscale_to_rgb (divide_by m array)
      else Ok (divide_by m array)) = Ok arr ->
     py_index (shape arr) axis = Ok n ->
     make_frames Img astype_uint8 fromarray arr axis transparency (seq 0 n)
     = Returns frames ->
     (resolved_axis (length (frames_shape (shape array))) axis
      < length (frames_shape (shape array)) /\
      n = nth (resolved_axis (length (frames_shape (shape array))) axis)
            (frames_shape (shape array)) 0) /\
     0 < n /\ length frames = n /\
     exists first,
       hd_error frames = Some first /\
       convert_to_gif Img astype_uint8 fromarray array output_folder
         extension axis transparency keep_frames
       = (divide_by m array,
          Returns (mk_gif_request (output_folder ++ "." ++ extension)
                     first frames (if keep_frames then 0 else 2))))
    as Hloop.
  { intros m arr n frames Hm Harr Hn Hframes.
    pose proof (np_max_positive array m Hm) as Hpos.
    pose proof (to_rgb_shape (divide_by m array) arr Harr) as Hsa.
    change (shape (divide_by m array)) with (shape array) in Hsa.
    pose proof Hn as Hn'. rewrite Hsa in Hn'.
    apply py_index_resolved in Hn' as [Hnth Hlt].
    assert (0 < n) as Hn0.
    { pose proof (frames_shape_positive _ Hpos) as Hpos'.
      rewrite List.Forall_forall in Hpos'. rewrite Hnth.
      apply Hpos'. now apply nth_In. }
    pose proof (make_frames_length arr axis transparency (seq 0 n) frames
                  Hframes) as Hlen.
    rewrite length_seq in Hlen.
    split; [split; assumption|]. split; [exact Hn0|]. split; [exact Hlen|].
    destruct frames as [|first frames]; [cbn in Hlen; lia|].
    exists first. split; [reflexivity|].
    unfold convert_to_gif, write_gif. rewrite Hm.
    change (ndim (divide_by m array)) with (ndim array).
    rewrite Harr, Hn, Hframes. reflexivity. }
  split.
  - intros m arr n frames Hm Harr Hn Hframes.
    destruct (Hloop m arr n frames Hm Harr Hn Hframes) as (_ & H0 & Hl & Hf).
    auto.
  - intros array' req Hrun.
    unfold convert_to_gif, write_gif in Hrun.
    destruct (np_max array) as [m|e] eqn:Hm; [|discriminate].
    change (ndim (divide_by m array)) with (ndim array) in Hrun.
    destruct (if (ndim array =? 3)%nat
              then grayscale_to_rgb (divide_by m array)
              else Ok (divide_by m array)) as [arr|e] eqn:Harr;
      [|discriminate].
    destruct (py_index (shape arr) axis) as [n|e] eqn:Hn; [|discriminate].
    destruct (make_frames _ _ _ arr axis transparency (seq 0 n))
      as [frames|e|name] eqn:Hframes; try discriminate.
    destruct (Hloop m arr n frames eq_refl Harr Hn Hframes)
      as ((Hlt & Hnth) & H0 & Hl & first & Hhd & _).
    destruct frames as [|f frames]; [discriminate|].
    inversion Hrun; subst req. cbn [gif_append_images gif_first gif_disposal
                                    gif_path hd_error].
    split; [exact Hlt|]. split; [congruence|].
    split; [cbn; lia|]. repeat split.
Qed.

Lemma make_frames_constant (array : ndarray float) (axis : Z)
    (transparency : bool) (entries : list nat) (frames : list Img) :
  (axis < 0)%Z ->
  make_frames Img astype_uint8 fromarray array axis transparency entries
  = Returns frames ->
  forall img, In img frames ->
    make_frame Img astype_uint8 fromarray array axis transparency 0
    = Returns img.
Proof.
  intros Hneg. revert frames.
  assert (forall i, make_frame Img astype_uint8 fromarray array axis
                      transparency i
                    = make_frame Img astype_uint8 fromarray array axis
                        transparency 0) as Hsame.
  { intros i. unfold make_frame, slice_axis.
    replace (axis <? 0)%Z with true by (symmetry; now apply Z.ltb_lt).
    reflexivity. }
  induction entries as [|i entries IH]; intros frames; cbn [make_frames].
  - intros Hf. inversion Hf. intros img [].
  - rewrite Hsame.
    destruct (make_frame _ _ _ _ _ _ 0) as [image|e|name]; try discriminate.
    destruct (make_frames _ _ _ _ _ _ entries) as [fs|e|name];
      try discriminate.
    intros Hf. inversion Hf; subst. intros img [<-|Hin]; [reflexivity|].
    now apply (IH fs).
Qed.

(** X24.  A negative axis is accepted by array.shape[axis] but matches
    no position of the slice: every frame is built from the whole array,
    so all images of the animation are the same; and with transparency
    set, on an array of three or more axes without an empty one, the
    alpha plane cannot be stacked and ValueError is raised. *)
Theorem convert_to_gif_negative_axis (array : ndarray float)
    (output_folder extension : string) (axis : Z)
    (transparency keep_frames : bool) :
  (axis < 0)%Z ->
  let run := convert_to_gif Img astype_uint8 fromarray array output_folder
               extension axis transparency keep_frames in
  (forall req, snd run = Returns req ->
     forall img, In img (gif_append_images req) -> img = gif_first req) /\
  (transparency = true ->
   Forall (fun n => 0 < n) (shape array) -> 3 <= ndim array ->
   (- Z.of_nat (length (frames_shape (shape array))) <= axis)%Z ->
   snd run = Raises ValueError).
Proof.
  intros Hneg. cbv zeta. unfold convert_to_gif. split.
  - intros req Hreq.
    destruct (np_max array) as [m|e]; [|discriminate]. cbn [snd] in Hreq.
    unfold write_gif in Hreq.
    destruct (if (ndim (divide_by m array) =? 3)%nat then _ else _)
      as [arr|e]; [|discriminate].
    destruct (py_index (shape arr) axis) as [n|e]; [|discriminate].
    destruct (make_frames _ _ _ arr axis transparency (seq 0 n))
      as [frames|e|name] eqn:Hframes; try discriminate.
    destruct frames as [|first frames]; [discriminate|].
    inversion Hreq; subst req. cbn [gif_append_images gif_first].
    intros img Hin.
    pose proof (make_frames_constant arr axis transparency (seq 0 n) _
                  Hneg Hframes) as Hconst.
    pose proof (Hconst first (or_introl eq_refl)) as H1.
    pose proof (Hconst img Hin) as H2. congruence.
  - intros -> Hpos Hrank Hlow.
    destruct (np_max_ok array Hpos) as [m Hm]. rewrite Hm. cbn [snd].
    unfold write_gif.
    assert (exists arr,
               (if (ndim (divide_by m array) =? 3)%nat
                then grayscale_to_rgb (divide_by m array)
                else Ok (divide_by m array)) = Ok arr /\
               shape arr = frames_shape (shape array) /\ 3 < ndim arr)
      as (arr & -> & Hsa & Hra).
    { unfold frames_shape, ndim in *.
      change (shape (divide_by m array)) with (shape array).
      destruct (length (shape array) =? 3)%nat eqn:H3.
      - apply Nat.eqb_eq in H3.
        unfold grayscale_to_rgb, repeat3_axis3. cbn [newaxis_last shape].
        change (shape (divide_by m array)) with (shape array).
        destruct (shape array) as [|x [|y [|z [|]]]]; cbn in H3; try lia.
        eexists. split; [reflexivity|]. split; [reflexivity|]. cbn. lia.
      - apply Nat.eqb_neq in H3.
        eexists. split; [reflexivity|]. split; [reflexivity|].
        change (shape (divide_by m array)) with (shape array). lia. }
    pose proof (frames_shape_positive _ Hpos) as Hpos'.
    rewrite Hsa. unfold py_index.
    replace (0 <=? axis)%Z with false by (symmetry; apply Z.leb_gt; lia).
    replace (- Z.of_nat (length (frames_shape (shape array))) <=? axis)%Z
      with true by (symmetry; apply Z.leb_le; lia).
    set (s := frames_shape (shape array)) in *.
    assert (Z.to_nat (Z.of_nat (length s) + axis) < length s) as Hlt by lia.
    rewrite (list_get_nth s _ 0 Hlt). 
    assert (0 < nth (Z.to_nat (Z.of_nat (length s) + axis)) s 0) as Hn.
    { rewrite List.Forall_forall in Hpos'. apply Hpos'. now apply nth_In. }
    destruct (nth (Z.to_nat (Z.of_nat (length s) + axis)) s 0) as [|n];
      [lia|].
    cbn [seq make_frames].
    assert (make_frame Img astype_uint8 fromarray arr axis true 0
            = Raises ValueError) as ->; [|reflexivity].
    unfold make_frame, slice_axis.
    replace (axis <? 0)%Z with true by (symmetry; now apply Z.ltb_lt).
    cbn [orb]. unfold sum_axis2, dstack_alpha, ndim in *.
    destruct (shape arr) as [|d0 [|d1 [|c [|d3 rest']]]]; cbn in Hra; try lia.
    reflexivity.
Qed.

End GifFacts.

Lemma convert_to_gif_normalizes_in_place_witness :
  exists m,
    np_max vol_24 = Ok m /\
    fst (convert_to_gif (ndarray N) wrap_uint8 any_image vol_24
           "out" "gif" 2 false false) = divide_by m vol_24 /\
    item (divide_by m vol_24) [0; 0; 0] = 0.5%float /\
    convert_to_gif (ndarray N) wrap_uint8 any_image (full [2; 0; 2] 1%float)
      "out" "gif" 2 false false
    = (full [2; 0; 2] 1%float, Raises ValueError).
Proof.
  destruct (convert_to_gif_normalizes_in_place (ndarray N) wrap_uint8
              any_image vol_24 "out" "gif" 2 false false) as [Hnorm _].
  destruct (convert_to_gif_normalizes_in_place (ndarray N) wrap_uint8
              any_image (full [2; 0; 2] 1%float) "out" "gif" 2 false false)
    as [_ Hempty].
  destruct Hnorm as (m & Hm & Hfst & _); [repeat constructor|].
  exists m. split; [exact Hm|]. split; [exact Hfst|]. split.
  - vm_compute in Hm. inversion Hm. reflexivity.
  - apply Hempty. intros Hpos.
    apply Forall_cons in Hpos as [_ Hpos]. apply Forall_inv in Hpos. lia.
Defined.

Lemma convert_to_gif_request_witness :
  exists array' req,
    convert_to_gif (ndarray N) wrap_uint8 any_image vol_24
      "out" "gif" 2 false true = (array', Returns req) /\
    length (gif_append_images req) = 2 /\
    hd_error (gif_append_images req) = Some (gif_first req) /\
    gif_disposal req = 0.
Proof.
  destruct (convert_to_gif (ndarray N) wrap_uint8 any_image vol_24
              "out" "gif" 2 false true) as [array' [req|e|name]] eqn:Hrun;
    try (apply (f_equal (fun r => match snd r with Returns _ => true
                                                 | _ => false end)) in Hrun;
         vm_compute in Hrun; discriminate).
  destruct (convert_to_gif_request (ndarray N) wrap_uint8 any_image vol_24
              "out" "gif" 2 false true) as [_ Hreq].
  cbv zeta in Hreq. rewrite Hrun in Hreq.
  destruct (Hreq array' req eq_refl) as (_ & Hlen & _ & Hhd & Hdisp & _).
  exists array', req. split; [reflexivity|]. split; [exact Hlen|].
  split; [exact Hhd|exact Hdisp].
Defined.

Lemma convert_to_gif_negative_axis_witness :
  snd (convert_to_gif (ndarray N) wrap_uint8 any_image vol_24
         "out" "gif" (-2) true false) = Raises ValueError.
Proof.
  apply (convert_to_gif_negative_axis (ndarray N) wrap_uint8 any_image vol_24
           "out" "gif" (-2) true false).
  - lia.
  - reflexivity.
  - repeat constructor.
  - cbn. lia.
  - cbn. lia.
Defined.
